(** * Trajecta analytics engine (server/analytics.ts)

    A shallow embedding of the growth-metrics engine and the properties its
    specification states about it.

    Conventions of the embedding.
    - A [Date] is its time value: integral milliseconds since the epoch ([Z]).
      The Dates of the records and the clock of the host are valid Dates; the
      Date that [setDate] computes can be an Invalid Date, so it is an
      [option Z], [None] being the Invalid Date (time value NaN).
    - A JS number is a binary64 value, kept as the rational number it
      denotes.  Every arithmetic operation is the exact operation followed
      by rounding to the nearest binary64 value, ties to even
      ([Binary64.rnd]).  The exponent range is not bounded: infinities, NaN
      and subnormal numbers do not occur in the embedding.
    - An integer-valued JS number that counts things or comes from an [int]
      column (array lengths, bucket counters, sizes, time values) is a [Z];
      such integers are below 2^53, where binary64 is exact.
    - [new Date()], [getDay()] and [setDate()] read the host: its clock and
      its local time zone.  Both live in an explicit environment [Env].
    - [Array.prototype.sort] works in place, so the function that calls it
      returns the new content of the caller's array next to its result.
    - The window and top-N parameters are integers. *)

From Stdlib Require Import ZArith List String Bool Lia.
From Stdlib Require Import Permutation Sorted.
From Stdlib Require Import QArith Qround Qabs Qpower Qreduction Lqa.
From Stdlib Require Qcanon.
Import ListNotations.

Close Scope Q_scope.
Open Scope Z_scope.

(* ================================================================== *)
(** * Binary64 arithmetic *)

Module Binary64.
Local Open Scope Q_scope.

Definition number : Type := Q.
Bind Scope Q_scope with number.

Definition pow2 (e : Z) : Q := 2 ^ e.

(** The magnitude of [x <> 0]: the [k] with [2^(k-1) <= |x| < 2^k]. *)
Definition mag (x : Q) : Z :=
if Qeq_bool x 0 then 0%Z
else
  let k := (Z.log2 (Z.abs (Qnum x)) - Z.log2 (Zpos (Qden x)))%Z in
  if Qle_bool (pow2 k) (Qabs x) then (k + 1)%Z else k.

(** The integer nearest to [y], the even one on a tie. *)
Definition rne (y : Q) : Z :=
let f := Qfloor y in
match Qcompare (y - inject_Z f) (1 # 2) with
| Lt => f
| Gt => (f + 1)%Z
| Eq => if Z.even f then f else (f + 1)%Z
end.

(** The binary64 value nearest to [x]: a 53-bit significand times a power
    of two, in lowest terms. *)
Definition rnd (x : Q) : number :=
if Qeq_bool x 0 then 0
else
  let e := (mag x - 53)%Z in
  Qred (inject_Z (rne (x / pow2 e)) * pow2 e).

(** An integer below 2^53 as a number. *)
Definition ofZ (n : Z) : number := inject_Z n.

(** A decimal literal of the source. *)
Definition lit (x : Q) : number := rnd x.

Definition fadd (x y : number) : number := rnd (x + y).
Definition fsub (x y : number) : number := rnd (x - y).
Definition fmul (x y : number) : number := rnd (x * y).

(** The engine guards each of its divisions against a zero divisor. *)
Definition fdiv (x y : number) : number := rnd (x / y).

(** The correctly rounded square root of a number that is not negative
    (the engine takes the root of a variance only). *)
Definition fsqrt (x : number) : number :=
if Qle_bool x 0 then 0
else
  let e := ((mag x + 1) / 2 - 53)%Z in
  let y := x / pow2 (2 * e) in
  let m := Z.sqrt (Qfloor y) in
  let half := inject_Z m + (1 # 2) in
  let up :=
    match Qcompare y (half * half) with
    | Lt => false
    | Gt => true
    | Eq => negb (Z.even m)
    end in
  Qred (inject_Z (if up then m + 1 else m) * pow2 e).

(** [x === y], [x < y] and [x > y]. *)
Definition eqb (x y : number) : bool := Qeq_bool x y.
Definition ltb (x y : number) : bool := negb (Qle_bool y x).
Definition gtb (x y : number) : bool := negb (Qle_bool x y).

End Binary64.

(* ================================================================== *)
(** * The JavaScript primitives the engine uses *)

Module JS.
Import Binary64.

Definition msPerDay : Z := 1000 * 60 * 60 * 24.

(** Default parameter values: [f(x = d)] uses [d] when the argument is absent. *)
Definition default_arg {A : Type} (d : A) (arg : option A) : A :=
match arg with
| Some a => a
| None => d
end.

(** [Math.round]: the nearest integer, a tie going up. *)
Definition Math_round (x : number) : number :=
inject_Z (Qfloor (x + (1 # 2))%Q).

Definition Math_min (x y : number) : number := if Qle_bool x y then x else y.
Definition Math_max (x y : number) : number := if Qle_bool x y then y else x.

(** [Math.pow(x, 2)]. *)
Definition Math_pow2 (x : number) : number := fmul x x.

Definition Math_sqrt (x : number) : number := fsqrt x.

(** The digits of [x.toFixed(2)] for [0 <= x < 10^21]: the integer [n] with
    [n / 100] nearest to [x], the larger one on a tie. *)
Definition toFixed2_digits (x : number) : Z := Qfloor (x * 100 + (1 # 2))%Q.

(** [parseFloat(x.toFixed(2))].  [toFixed] formats the absolute value and
    puts the sign in front; from [10^21] on it prints the number itself.
    [parseFloat] reads the decimal text back as the nearest number. *)
Definition parseFloat_toFixed2 (x : number) : number :=
if Qle_bool (inject_Z (10 ^ 21)) (Qabs x) then x
else if ltb x 0 then rnd (- (inject_Z (toFixed2_digits (- x)) / 100))%Q
else rnd (inject_Z (toFixed2_digits x) / 100)%Q.

(** [Math.min(...xs)] and [Math.max(...xs)] on a non-empty list of time
    values (the engine never spreads an empty list). *)
Definition Math_min_spread (xs : list Z) : Z :=
match xs with
| [] => 0
| x :: xs' => fold_left Z.min xs' x
end.

Definition Math_max_spread (xs : list Z) : Z :=
match xs with
| [] => 0
| x :: xs' => fold_left Z.max xs' x
end.

(** [xs.reduce((acc, x) => acc + f(x), 0)]. *)
Definition reduce_plus {A : Type} (f : A -> number) (xs : list A) : number :=
fold_left (fun acc x => fadd acc (f x)) xs 0%Q.

(** ** Objects used as dictionaries

    An object whose keys are not array indices lists its properties in the
    order they were created; writing to a key that exists keeps its place. *)

Fixpoint obj_get (k : Z) (o : list (Z * Z)) : option Z :=
match o with
| [] => None
| (k', v) :: o' => if k =? k' then Some v else obj_get k o'
end.

Fixpoint obj_set (k v : Z) (o : list (Z * Z)) : list (Z * Z) :=
match o with
| [] => [(k, v)]
| (k', v') :: o' => if k =? k' then (k, v) :: o' else (k', v') :: obj_set k v o'
end.

(** An object whose keys are array indices (here the weekdays 0..6) lists
    them in ascending numeric order, whatever the order of creation. *)
Fixpoint idx_set (k v : Z) (o : list (Z * Z)) : list (Z * Z) :=
match o with
| [] => [(k, v)]
| (k', v') :: o' =>
    if k =? k' then (k, v) :: o'
    else if k <? k' then (k, v) :: (k', v') :: o'
    else (k', v') :: idx_set k v o'
end.

Definition Object_values (o : list (Z * Z)) : list Z := map snd o.
Definition Object_entries (o : list (Z * Z)) : list (Z * Z) := o.

(** [o[k] || 0]: a missing property, and a property that is [0], give [0]. *)
Definition or0 (v : option Z) : Z :=
match v with
| Some n => if n =? 0 then 0 else n
| None => 0
end.

(** ** Arrays *)

(** [a.slice(0, n)]: a negative [n] counts from the end. *)
Definition slice0 {A : Type} (n : Z) (a : list A) : list A :=
if n <? 0 then firstn (Z.to_nat (Z.of_nat (List.length a) + n)) a
else firstn (Z.to_nat n) a.

(** [a.sort(cmp)]: a stable sort by the comparator ([cmp x y < 0] puts [x]
    first).  Stability and the comparator fix the result, so the sort is
    written as the insertion of each element in front of the sorted rest. *)
Fixpoint sort_insert {A : Type} (cmp : A -> A -> Z) (x : A) (l : list A) : list A :=
match l with
| [] => [x]
| y :: l' => if cmp x y <=? 0 then x :: y :: l' else y :: sort_insert cmp x l'
end.

Fixpoint sort {A : Type} (cmp : A -> A -> Z) (l : list A) : list A :=
match l with
| [] => []
| x :: l' => sort_insert cmp x (sort cmp l')
end.

(** ** Dates and the host *)

(** What the engine reads from its host: the system clock ([new Date()])
    and the local time zone adjustment [LocalTZA(t, isUTC)] of ECMAScript. *)
Record Env : Type := mkEnv {
  clock : Z;
  LocalTZA : Z -> bool -> Z
}.

Definition new_Date (e : Env) : Z := clock e.

Definition LocalTime (e : Env) (t : Z) : Z := t + LocalTZA e t true.
Definition UTC (e : Env) (t : Z) : Z := t - LocalTZA e t false.

(** [Day(t)] and [WeekDay(t)] of ECMAScript; day 0 was a Thursday. *)
Definition Day (t : Z) : Z := t / msPerDay.
Definition WeekDay (t : Z) : Z := (Day t + 4) mod 7.

(** [d.getDay()]: the weekday in local time, 0 = Sunday. *)
Definition getDay (e : Env) (t : Z) : Z := WeekDay (LocalTime e t).

(** [TimeClip] of ECMAScript: a time value more than 8.64e15 ms away from
    the epoch is not a Date; the result is the Invalid Date. *)
Definition maxTime : Z := 8640000000000000.

Definition TimeClip (t : Z) : option Z :=
if Z.abs t <=? maxTime then Some t else None.

(** [d.setDate(d.getDate() - n)]: the same local time of day, [n] calendar
    days earlier, read back as an instant and clipped to the range of
    Dates. *)
Definition setDate_minus (e : Env) (t n : Z) : option Z :=
TimeClip (UTC e (LocalTime e t - n * msPerDay)).

(** [d >= cutoff] on Dates compares the time values; every comparison with
    an Invalid Date (NaN) is false. *)
Definition Date_ge (d : Z) (cutoff : option Z) : bool :=
match cutoff with
| Some t => t <=? d
| None => false
end.

(** [d.toISOString().split('T')[0]]: the UTC calendar date of [d].  The
    date is kept as its day number, of which the text is a one-to-one
    rendering. *)
Definition toISOString_date (t : Z) : Z := Day t.

(** A host on UTC. *)
Definition utcEnv (now : Z) : Env := mkEnv now (fun _ _ => 0).

End JS.
(* ================================================================== *)
(** * The records of drizzle/schema.ts *)

Module Commit.
Record t : Type := mk {
  id : Z;
  userId : Z;
  repositoryId : Z;
  commitHash : string;
  message : option string;
  authorName : option string;
  authorEmail : option string;
  committedAt : Z;
  additions : Z;
  deletions : Z;
  filesChanged : Z;
  createdAt : Z
}.
End Commit.

Module Repository.
Record t : Type := mk {
  id : Z;
  userId : Z;
  githubRepoId : string;
  name : string;
  url : string;
  description : option string;
  language : option string;
  stars : Z;
  forks : Z;
  size : Z;
  isPrivate : bool;
  createdAt : Z;
  updatedAt : Z
}.
End Repository.

Module LanguageProficiency.
Record t : Type := mk {
  id : Z;
  userId : Z;
  language : string;
  commitCount : Z;
  repositoryCount : Z;
  firstSeenAt : Z;
  lastSeenAt : Z;
  createdAt : Z;
  updatedAt : Z
}.
End LanguageProficiency.

(* ================================================================== *)
(** * The analytics engine *)

Module Analytics.
Import Binary64 JS.

(** The number of elements of an array, as a counter and as a number. *)
Definition len {A : Type} (a : list A) : Z := Z.of_nat (List.length a).
Definition lenN {A : Type} (a : list A) : number := ofZ (len a).

(** ** calculateConsistencyScore *)

(** The [forEach] that groups the commits by day. *)
Definition commitsByDay (commits : list Commit.t) : list (Z * Z) :=
fold_left
  (fun o commit =>
     let day := toISOString_date (Commit.committedAt commit) in
     obj_set day (or0 (obj_get day o) + 1) o)
  commits [].

Definition calculateConsistencyScore (commits : list Commit.t) : number :=
if len commits =? 0 then 0%Q
else
  let dailyCounts := Object_values (commitsByDay commits) in
  if len dailyCounts =? 0 then 0%Q
  else
    let mean := fdiv (reduce_plus ofZ dailyCounts) (lenN dailyCounts) in
    let variance :=
      fdiv (reduce_plus (fun count => Math_pow2 (fsub (ofZ count) mean)) dailyCounts)
           (lenN dailyCounts) in
    let stdDev := Math_sqrt variance in
    let cv := if eqb mean 0 then 0%Q else fdiv stdDev mean in
    let score := Math_max 0 (Math_min 100 (fsub 100 (fmul cv 50))) in
    Math_round score.

(** ** calculateLearningVelocity *)

Definition calculateLearningVelocity (commits : list Commit.t) : number :=
if len commits =? 0 then 0%Q
else
  let dates := map Commit.committedAt commits in
  let minDate := Math_min_spread dates in
  let maxDate := Math_max_spread dates in
  let daysDiff :=
    fdiv (fsub (ofZ maxDate) (ofZ minDate)) (ofZ (1000 * 60 * 60 * 24)) in
  if eqb daysDiff 0 then lenN commits
  else parseFloat_toFixed2 (fdiv (lenN commits) daysDiff).

(** ** calculateProjectDepth *)

Definition calculateProjectDepth
  (repositories : list Repository.t) (commits : list Commit.t) : number :=
if len repositories =? 0 then 0%Q
else
  let avgSize :=
    fdiv (reduce_plus (fun repo => ofZ (Repository.size repo)) repositories)
         (lenN repositories) in
  let sizeScore := Math_min 100 (fmul (fdiv avgSize 1000) 100) in
  let commitDensity := fdiv (lenN commits) (lenN repositories) in
  let densityScore := Math_min 100 (fmul commitDensity 5) in
  let depthScore :=
    fadd (fmul sizeScore (lit (4 # 10))) (fmul densityScore (lit (6 # 10))) in
  Math_round depthScore.

(** ** calculateDepthBreadthRatio *)

Definition calculateDepthBreadthRatio
  (repositories : list Repository.t) (commits : list Commit.t)
  (languages : list LanguageProficiency.t) : number :=
if (len repositories =? 0) || (len languages =? 0) then 0%Q
else
  let depth := fdiv (lenN commits) (lenN repositories) in
  let breadth := lenN languages in
  parseFloat_toFixed2 (fdiv depth breadth).

(** ** calculateSkillGrowthTrend *)

(** [new Date()] followed by [setDate(getDate() - timeWindowDays)]. *)
Definition cutoffDate (e : Env) (timeWindowDays : Z) : option Z :=
setDate_minus e (new_Date e) timeWindowDays.

Definition calculateSkillGrowthTrend (e : Env)
  (currentLanguages : list LanguageProficiency.t) (commits : list Commit.t)
  (timeWindowDays : option Z) : number :=
let timeWindowDays := default_arg 90 timeWindowDays in
if len currentLanguages =? 0 then 0%Q
else
  let cutoff := cutoffDate e timeWindowDays in
  let recentCommits :=
    filter (fun c => Date_ge (Commit.committedAt c) cutoff) commits in
  if len recentCommits =? 0 then 0%Q
  else
    let growthPercentage := fmul (fdiv (lenN recentCommits) (lenN commits)) 100 in
    Math_min 100 (Math_round growthPercentage).

(** ** analyzeCommitPatterns *)

Module CommitPatterns.
Record t : Type := mk {
  averageCommitsPerDay : number;
  peakDay : string;
  burstyPattern : bool;
  consistentPattern : bool
}.
End CommitPatterns.

Definition dayNames : list string :=
["Sunday"; "Monday"; "Tuesday"; "Wednesday"; "Thursday"; "Friday"; "Saturday"]%string.

Definition commitsByDayOfWeek (e : Env) (commits : list Commit.t) : list (Z * Z) :=
fold_left
  (fun o commit =>
     let dayOfWeek := getDay e (Commit.committedAt commit) in
     idx_set dayOfWeek (or0 (obj_get dayOfWeek o) + 1) o)
  commits [].

(** The [forEach] over the entries that looks for the peak day; the state
    is the pair [(peakDay, maxCommits)]. *)
Definition findPeak (entries : list (Z * Z)) : Z * Z :=
fold_left
  (fun st entry =>
     let '(peakDay, maxCommits) := st in
     let '(day, count) := entry in
     if maxCommits <? count then (day, count) else (peakDay, maxCommits))
  entries (0, 0).

Definition analyzeCommitPatterns (e : Env) (commits : list Commit.t)
  : CommitPatterns.t :=
if len commits =? 0 then
  CommitPatterns.mk 0%Q "Monday"%string false false
else
  let byDay := commitsByDayOfWeek e commits in
  let peakDay := fst (findPeak (Object_entries byDay)) in
  let values := Object_values byDay in
  let mean := fdiv (reduce_plus ofZ values) (lenN values) in
  let variance :=
    fdiv (reduce_plus (fun v => Math_pow2 (fsub (ofZ v) mean)) values)
         (lenN values) in
  let stdDev := Math_sqrt variance in
  let burstyPattern := gtb stdDev (fmul mean (lit (5 # 10))) in
  let consistentPattern := ltb stdDev (fmul mean (lit (3 # 10))) in
  CommitPatterns.mk
    (parseFloat_toFixed2 (fdiv (lenN commits) 7))
    (nth (Z.to_nat peakDay) dayNames ""%string)
    burstyPattern
    consistentPattern.

(** ** identifyNewLanguages *)

Definition identifyNewLanguages (e : Env)
  (languages : list LanguageProficiency.t) (timeWindowDays : option Z)
  : list string :=
let timeWindowDays := default_arg 90 timeWindowDays in
let cutoff := cutoffDate e timeWindowDays in
map LanguageProficiency.language
  (filter (fun lang => Date_ge (LanguageProficiency.firstSeenAt lang) cutoff) languages).

(** ** identifyGrowthLanguages *)

Module Growth.
Record t : Type := mk {
  language : string;
  commitCount : Z;
  growth : string
}.
End Growth.

(** The comparator [(a, b) => b.commitCount - a.commitCount]. *)
Definition byCommitCountDesc (a b : LanguageProficiency.t) : Z :=
LanguageProficiency.commitCount b - LanguageProficiency.commitCount a.

Definition growthOf (lang : LanguageProficiency.t) : Growth.t :=
Growth.mk
  (LanguageProficiency.language lang)
  (LanguageProficiency.commitCount lang)
  (if 100 <? LanguageProficiency.commitCount lang then "High"%string
   else if 50 <? LanguageProficiency.commitCount lang then "Medium"%string
   else "Low"%string).

(** [languages.sort(...)] sorts the array it is called on and returns that
    same array; the first component is the content of [languages] when the
    function returns, the second its result. *)
Definition identifyGrowthLanguages
  (languages : list LanguageProficiency.t) (topN : option Z)
  : list LanguageProficiency.t * list Growth.t :=
let topN := default_arg 3 topN in
let languages' := sort byCommitCountDesc languages in
(languages', map growthOf (slice0 topN languages')).

(** ** calculateMetrics *)

Module AnalyticsMetrics.
Record t : Type := mk {
  consistencyScore : number;
  skillGrowthTrend : number;
  learningVelocity : number;
  projectDepth : number;
  depthBreadthRatio : number;
  totalCommits : Z;
  totalRepositories : Z;
  uniqueLanguages : Z
}.
End AnalyticsMetrics.

Definition calculateMetrics (e : Env)
  (repositories : list Repository.t) (commits : list Commit.t)
  (languages : list LanguageProficiency.t) : AnalyticsMetrics.t :=
AnalyticsMetrics.mk
  (calculateConsistencyScore commits)
  (calculateSkillGrowthTrend e languages commits None)
  (calculateLearningVelocity commits)
  (calculateProjectDepth repositories commits)
  (calculateDepthBreadthRatio repositories commits languages)
  (len commits)
  (len repositories)
  (len languages).

End Analytics.

(* ================================================================== *)
(** * The specification's own words

    Definitions written from the text of the specification, to be compared
    with the code's.  Numbers are binary64 here too: each operation of a
    formula is rounded, and a sum is taken from left to right. *)

Module Spec.
Import Binary64.

(** The UTC calendar day of a commit and the number of commits on a day. *)
Definition utcDay (c : Commit.t) : Z := Commit.committedAt c / 86400000.

Definition commitsOnDay (commits : list Commit.t) (d : Z) : Z :=
Z.of_nat (List.length (filter (fun c => utcDay c =? d) commits)).

(** The members of a list, each once, in the order of their first
    occurrence. *)
Fixpoint distinct (ds : list Z) : list Z :=
match ds with
| [] => []
| d :: rest => d :: filter (fun d' => negb (d' =? d)) (distinct rest)
end.

(** The days with at least one commit, in the order in which they first
    appear in the list of commits. *)
Definition activeDays (commits : list Commit.t) : list Z :=
distinct (map utcDay commits).

(** The per-day commit counts over the days with at least one commit. *)
Definition dayCounts (commits : list Commit.t) : list Z :=
map (commitsOnDay commits) (activeDays commits).

Fixpoint total_from (acc : number) (xs : list number) : number :=
match xs with
| [] => acc
| x :: rest => total_from (fadd acc x) rest
end.

Definition total (xs : list number) : number := total_from 0 xs.

Definition count {A : Type} (xs : list A) : number := ofZ (Z.of_nat (List.length xs)).

Definition mean (xs : list Z) : number := fdiv (total (map ofZ xs)) (count xs).

Definition square (x : number) : number := fmul x x.

(** Population variance and standard deviation. *)
Definition variance (xs : list Z) : number :=
fdiv (total (map (fun x => square (fsub (ofZ x) (mean xs))) xs)) (count xs).

Definition stdDev (xs : list Z) : number := fsqrt (variance xs).

(** [cv = stdDev / mean], and 0 when the mean is 0. *)
Definition cv (xs : list Z) : number :=
if eqb (mean xs) 0 then 0 else fdiv (stdDev xs) (mean xs).

Definition clamp (x lo hi : number) : number :=
if ltb x lo then lo else if ltb hi x then hi else x.

(** [r] is [x] rounded to the nearest integer. *)
Definition nearest_integer (x r : number) : Prop :=
exists k : Z, r = inject_Z k /\ (Qabs (r - x) <= 1 # 2)%Q.

(** [r] is [x] rounded to 2 decimal places: the number written with two
    decimals [n / 100] that is nearest to [x]. *)
Definition rounded_2dp (x r : number) : Prop :=
exists n : Z, r = lit (inject_Z n / 100) /\
              (Qabs (inject_Z n / 100 - x) <= 1 # 200)%Q.

(** [m] is the earliest (latest) of the timestamps [ts]. *)
Definition earliest (ts : list Z) (m : Z) : Prop :=
In m ts /\ forall t, In t ts -> m <= t.

Definition latest (ts : list Z) (m : Z) : Prop :=
In m ts /\ forall t, In t ts -> t <= m.

(** The span between two instants in fractional days. *)
Definition daysBetween (lo hi : Z) : number :=
fdiv (fsub (ofZ hi) (ofZ lo)) 86400000.

(** The growth tier of a commit count. *)
Definition tier (commitCount : Z) : string :=
if 100 <? commitCount then "High"%string
else if 50 <? commitCount then "Medium"%string
else "Low"%string.

Definition count_is (k : Z) (lang : LanguageProficiency.t) : bool :=
LanguageProficiency.commitCount lang =? k.

(** [l'] lists the entries of [l] in descending order of commit count,
    entries with equal counts in their order in [l]. *)
Definition sorted_desc_stable (l l' : list LanguageProficiency.t) : Prop :=
Permutation l l' /\
StronglySorted
  (fun a b => LanguageProficiency.commitCount b <= LanguageProficiency.commitCount a) l' /\
forall k, filter (count_is k) l' = filter (count_is k) l.

(** Project depth. *)
Definition avgSize (repositories : list Repository.t) : number :=
fdiv (total (map (fun r => ofZ (Repository.size r)) repositories)) (count repositories).

Definition sizeScore (repositories : list Repository.t) : number :=
let x := fmul (fdiv (avgSize repositories) 1000) 100 in
if ltb x 100 then x else 100%Q.

Definition densityScore (repositories : list Repository.t) (commits : list Commit.t)
  : number :=
let x := fmul (fdiv (count commits) (count repositories)) 5 in
if ltb x 100 then x else 100%Q.

Definition depthScore (repositories : list Repository.t) (commits : list Commit.t)
  : number :=
fadd (fmul (sizeScore repositories) (lit (4 # 10)))
     (fmul (densityScore repositories commits) (lit (6 # 10))).

(** The names of the languages first seen in the closed interval
    [[lo, hi]], in the order of the input. *)
Fixpoint firstSeenWithin (lo hi : Z) (languages : list LanguageProficiency.t)
  : list string :=
match languages with
| [] => []
| lang :: rest =>
    if (lo <=? LanguageProficiency.firstSeenAt lang)
       && (LanguageProficiency.firstSeenAt lang <=? hi)
    then LanguageProficiency.language lang :: firstSeenWithin lo hi rest
    else firstSeenWithin lo hi rest
end.

(** The names of the languages first seen at [lo] or later, in the order
    of the input. *)
Fixpoint firstSeenSince (lo : Z) (languages : list LanguageProficiency.t)
  : list string :=
match languages with
| [] => []
| lang :: rest =>
    if lo <=? LanguageProficiency.firstSeenAt lang
    then LanguageProficiency.language lang :: firstSeenSince lo rest
    else firstSeenSince lo rest
end.

(** An entry of the ranking: the language, its commit count and its tier. *)
Definition ranked (lang : LanguageProficiency.t) : Analytics.Growth.t :=
Analytics.Growth.mk
  (LanguageProficiency.language lang)
  (LanguageProficiency.commitCount lang)
  (tier (LanguageProficiency.commitCount lang)).

End Spec.

(* ================================================================== *)
(** * Sample records *)

Module Sample.

(** 2023-11-14T22:13:20Z. *)
Definition now : Z := 1700000000000.

Definition lang (id : Z) (name : string) (commitCount firstSeenAt : Z)
  : LanguageProficiency.t :=
LanguageProficiency.mk id 1 name commitCount 1 firstSeenAt now now now.

Definition typescript : LanguageProficiency.t := lang 1 "TypeScript" 150 now.
Definition python : LanguageProficiency.t := lang 2 "Python" 75 now.
Definition javascript : LanguageProficiency.t := lang 3 "JavaScript" 30 now.

(** A language whose first and last sighting are recorded one day after
    [now]. *)
Definition rust : LanguageProficiency.t :=
LanguageProficiency.mk 4 1 "Rust" 10 1 (now + 86400000) (now + 86400000) now
  (now + 86400000).

(** A language with as many commits as [python]. *)
Definition kotlin : LanguageProficiency.t := lang 6 "Kotlin" 75 now.

(** A language first seen 30 days before [now]. *)
Definition go : LanguageProficiency.t := lang 5 "Go" 20 (now - 30 * 86400000).

Definition commit (id : Z) (hash : string) (committedAt additions : Z) : Commit.t :=
Commit.mk id 1 1 hash None None None committedAt additions 0 1 committedAt.

(** Two commits on 2023-11-14 and one on 2023-11-15 (UTC). *)
Definition morning : Commit.t := commit 1 "a1" (now - 80000000) 10.
Definition evening : Commit.t := commit 2 "b2" now 250.
Definition nextDay : Commit.t := commit 3 "c3" (now + 86400000) 3.

(** The same days again, at other times of day and with other fields. *)
Definition noon : Commit.t :=
Commit.mk 7 2 5 "d4" (Some "fix"%string) None None (now - 40000000) 0 17 4 now.
Definition nextNoon : Commit.t :=
Commit.mk 8 2 6 "e5" None (Some "dev"%string) None (now + 86400000 + 1000) 99 1 30 now.

(** A commit ten days after [evening]. *)
Definition tenDaysLater : Commit.t := commit 9 "f6" (now + 10 * 86400000) 1.

(** A commit at [now] plus [k] days. *)
Definition onDay (id k : Z) : Commit.t := commit id "e7" (now + k * 86400000) 1.

(** One commit on each of four days, then four commits on a fifth day;
    and the same eight commits with the four of the fifth day first. *)
Definition busyDayLast : list Commit.t :=
[onDay 1 0; onDay 2 1; onDay 3 2; onDay 4 3;
 onDay 5 4; onDay 6 4; onDay 7 4; onDay 8 4].

Definition busyDayFirst : list Commit.t :=
[onDay 5 4; onDay 6 4; onDay 7 4; onDay 8 4;
 onDay 1 0; onDay 2 1; onDay 3 2; onDay 4 3].

Definition repo (id size : Z) : Repository.t :=
Repository.mk id 1 "r" "repo" "https://example.org/repo" None None 0 0 size false now now.

End Sample.

(* ================================================================== *)
(** * Invariants of the engine's loops *)

(** What the object holds after the commits [cs] were grouped by day: one
    property per day with a commit, in the order in which the days first
    appear, and the number of commits of that day. *)
Definition groups (cs : list Commit.t) (o : list (Z * Z)) : Prop :=
map fst o = Spec.activeDays cs /\
forall d, JS.obj_get d o =
          if Spec.commitsOnDay cs d =? 0 then None else Some (Spec.commitsOnDay cs d).

(* ================================================================== *)
(** * Notions used to state further properties of the engine *)

Module Notions.
Import JS.

(** The sum of a list of counters. *)
Definition sum (xs : list Z) : Z := fold_right Z.add 0 xs.

(** The number of commits made on weekday [w] (0 = Sunday) in the local
    time of the host. *)
Definition commitsOnWeekday (e : Env) (commits : list Commit.t) (w : Z) : Z :=
Z.of_nat
  (List.length (filter (fun c => getDay e (Commit.committedAt c) =? w) commits)).

(** The commit [c], made [ms] milliseconds later. *)
Definition delayed (ms : Z) (c : Commit.t) : Commit.t :=
Commit.mk (Commit.id c) (Commit.userId c) (Commit.repositoryId c)
  (Commit.commitHash c) (Commit.message c) (Commit.authorName c)
  (Commit.authorEmail c) (Commit.committedAt c + ms)
  (Commit.additions c) (Commit.deletions c) (Commit.filesChanged c)
  (Commit.createdAt c).

(** [a] does not have fewer commits than [b]. *)
Definition descending (a b : LanguageProficiency.t) : Prop :=
LanguageProficiency.commitCount b <= LanguageProficiency.commitCount a.

End Notions.

(** What the object holds after the commits [cs] were grouped by weekday:
    one property per weekday with a commit, in ascending order of the
    weekday, and the number of commits of that weekday. *)
Definition weekdayGroups (e : JS.Env) (cs : list Commit.t) (o : list (Z * Z)) : Prop :=
StronglySorted Z.lt (map fst o) /\
forall w, JS.obj_get w o =
          if Notions.commitsOnWeekday e cs w =? 0 then None
          else Some (Notions.commitsOnWeekday e cs w).

(* ================================================================== *)
(** * Facts about binary64 rounding *)

Section Binary64Facts.
Import Binary64.
Local Open Scope Q_scope.

(** ** Powers of two *)

Lemma pow2_pos (e : Z) : 0 < pow2 e.
Proof. unfold pow2. apply Qpower_0_lt. reflexivity. Qed.

Lemma pow2_add (a b : Z) : pow2 (a + b) == pow2 a * pow2 b.
Proof. unfold pow2. apply Qpower_plus. discriminate. Qed.

Lemma pow2_sub (a b : Z) : pow2 (a - b) == pow2 a / pow2 b.
Proof.
unfold pow2. rewrite Qpower_minus by discriminate. reflexivity.
Qed.

Lemma pow2_lt (a b : Z) : (a < b)%Z -> pow2 a < pow2 b.
Proof. intros H. unfold pow2. apply Qpower_lt_compat_l; [assumption | reflexivity]. Qed.

Lemma pow2_le (a b : Z) : (a <= b)%Z -> pow2 a <= pow2 b.
Proof. intros H. unfold pow2. apply Qpower_le_compat_l; [assumption | discriminate]. Qed.

Lemma pow2_lt_inv (a b : Z) : pow2 a < pow2 b -> (a < b)%Z.
Proof.
intros H. destruct (Z_lt_le_dec a b) as [Hlt|Hge]; [assumption|].
apply pow2_le in Hge. exfalso. apply (Qlt_irrefl (pow2 a)).
eapply Qlt_le_trans; eassumption.
Qed.

Lemma pow2_Z (a : Z) : (0 <= a)%Z -> inject_Z (2 ^ a) == pow2 a.
Proof. intros H. unfold pow2. now rewrite Zpower_Qpower. Qed.

Lemma pow2_succ (a : Z) : pow2 (a + 1) == 2 * pow2 a.
Proof. rewrite pow2_add. unfold pow2 at 2. simpl. ring. Qed.

(** ** The magnitude *)

Lemma Qdiv_lt_cross (p q r s : Q) :
  0 < q -> 0 < s -> p * s < r * q -> p / q < r / s.
Proof.
intros Hq Hs H.
apply Qlt_shift_div_l; [assumption|].
setoid_replace (p / q * s) with (p * s / q) by (field; intros E; rewrite E in Hq; discriminate).
apply Qlt_shift_div_r; assumption.
Qed.

Lemma Qabs_make (n : Z) (d : positive) :
  Qabs (n # d) == inject_Z (Z.abs n) / inject_Z (Zpos d).
Proof. unfold Qabs. apply Qmake_Qdiv. Qed.

Lemma mag_window (n : Z) (d : positive) :
  ~ (n # d) == 0 ->
  pow2 (Z.log2 (Z.abs n) - Z.log2 (Zpos d) - 1) < Qabs (n # d) /\
  Qabs (n # d) < pow2 (Z.log2 (Z.abs n) - Z.log2 (Zpos d) + 1).
Proof.
intros Hx.
assert (Hn : (0 < Z.abs n)%Z).
{ destruct n; try reflexivity. exfalso. apply Hx. reflexivity. }
pose proof (Z.log2_spec _ Hn) as [Ha1 Ha2].
pose proof (Z.log2_spec (Zpos d) eq_refl) as [Hb1 Hb2].
pose proof (Z.log2_nonneg (Z.abs n)) as Ha0.
pose proof (Z.log2_nonneg (Zpos d)) as Hb0.
set (a := Z.log2 (Z.abs n)) in *. set (b := Z.log2 (Zpos d)) in *.
rewrite Qabs_make.
assert (HA : (0 < 2 ^ a)%Z) by (apply Z.pow_pos_nonneg; lia).
assert (HB : (0 < 2 ^ b)%Z) by (apply Z.pow_pos_nonneg; lia).
rewrite Z.pow_succ_r in Ha2, Hb2 by lia.
split.
- replace (a - b - 1)%Z with (a - (b + 1))%Z by lia.
  rewrite pow2_sub, <- !pow2_Z by lia.
  apply Qdiv_lt_cross.
  + change 0 with (inject_Z 0). rewrite <- Zlt_Qlt. apply Z.pow_pos_nonneg; lia.
  + reflexivity.
  + rewrite <- !inject_Z_mult, <- Zlt_Qlt.
    replace (b + 1)%Z with (Z.succ b) by lia. rewrite Z.pow_succ_r by lia. nia.
- replace (a - b + 1)%Z with ((a + 1) - b)%Z by lia.
  rewrite pow2_sub, <- !pow2_Z by lia.
  apply Qdiv_lt_cross.
  + reflexivity.
  + change 0 with (inject_Z 0). now rewrite <- Zlt_Qlt.
  + rewrite <- !inject_Z_mult, <- Zlt_Qlt.
    replace (a + 1)%Z with (Z.succ a) by lia. rewrite Z.pow_succ_r by lia. nia.
Qed.

Lemma mag_spec (x : Q) :
  ~ x == 0 -> pow2 (mag x - 1) <= Qabs x /\ Qabs x < pow2 (mag x).
Proof.
intros Hx. destruct x as [n d].
destruct (mag_window n d Hx) as [Hlo Hhi]. unfold mag.
destruct (Qeq_bool (n # d) 0) eqn:E0; [apply Qeq_bool_iff in E0; contradiction|].
simpl Qnum. simpl Qden.
set (k := (Z.log2 (Z.abs n) - Z.log2 (Zpos d))%Z) in *.
destruct (Qle_bool (pow2 k) (Qabs (n # d))) eqn:E.
- apply Qle_bool_iff in E. replace (k + 1 - 1)%Z with k by lia. now split.
- split; [now apply Qlt_le_weak|].
  destruct (Qlt_le_dec (Qabs (n # d)) (pow2 k)) as [H|H]; [assumption|].
  apply Qle_bool_iff in H. congruence.
Qed.

Lemma mag_unique (x : Q) (k : Z) :
  pow2 (k - 1) <= Qabs x -> Qabs x < pow2 k -> mag x = k.
Proof.
intros Hlo Hhi.
assert (Hx : ~ x == 0).
{ intros E. rewrite E in Hlo. pose proof (pow2_pos (k - 1)).
  change (Qabs 0) with 0 in Hlo. lra. }
destruct (mag_spec x Hx) as [Mlo Mhi].
assert (H1 : (mag x - 1 < k)%Z).
{ apply pow2_lt_inv. eapply Qle_lt_trans; eassumption. }
assert (H2 : (k - 1 < mag x)%Z).
{ apply pow2_lt_inv. eapply Qle_lt_trans; eassumption. }
lia.
Qed.

(** ** Rounding to the nearest integer, ties to even *)

Lemma rne_cases (y : Q) :
  let f := Qfloor y in
  (y - inject_Z f < 1 # 2 /\ rne y = f) \/
  (1 # 2 < y - inject_Z f /\ rne y = (f + 1)%Z) \/
  (y - inject_Z f == 1 # 2 /\ rne y = if Z.even f then f else (f + 1)%Z).
Proof.
intros f. unfold rne. fold f.
destruct (Qcompare_spec (y - inject_Z f) (1 # 2)) as [E|L|G].
- right. right. now split.
- left. now split.
- right. left. now split.
Qed.

Lemma floor_bounds (y : Q) : inject_Z (Qfloor y) <= y /\ y < inject_Z (Qfloor y) + 1.
Proof.
split; [apply Qfloor_le|].
pose proof (Qlt_floor y) as H. rewrite inject_Z_plus in H. exact H.
Qed.

Lemma rne_Z (n : Z) : rne (inject_Z n) = n.
Proof.
destruct (rne_cases (inject_Z n)) as [[_ H]|[[H _]|[H _]]];
  rewrite Qfloor_Z in *.
- exact H.
- exfalso. lra.
- exfalso. lra.
Qed.

Lemma rne_mono (x y : Q) : x <= y -> (rne x <= rne y)%Z.
Proof.
intros Hxy.
pose proof (Qfloor_resp_le x y Hxy) as Hf.
destruct (floor_bounds x) as [Hx1 Hx2]. destruct (floor_bounds y) as [Hy1 Hy2].
destruct (Z.eq_dec (Qfloor x) (Qfloor y)) as [E|N].
- destruct (rne_cases x) as [[Hx ->]|[[Hx ->]|[Hx ->]]];
  destruct (rne_cases y) as [[Hy ->]|[[Hy ->]|[Hy ->]]];
  rewrite E in *; try lia; try (exfalso; lra);
  destruct (Z.even (Qfloor y)); lia.
- assert (Hlt : (Qfloor x + 1 <= Qfloor y)%Z) by lia.
  assert (Hx : (rne x <= Qfloor x + 1)%Z).
  { destruct (rne_cases x) as [[_ ->]|[[_ ->]|[_ ->]]]; try lia.
    destruct (Z.even (Qfloor x)); lia. }
  assert (Hy : (Qfloor y <= rne y)%Z).
  { destruct (rne_cases y) as [[_ ->]|[[_ ->]|[_ ->]]]; try lia.
    destruct (Z.even (Qfloor y)); lia. }
  lia.
Qed.

Lemma rne_comp (x y : Q) : x == y -> rne x = rne y.
Proof.
intros E. apply Z.le_antisymm; apply rne_mono; rewrite E; apply Qle_refl.
Qed.

Lemma rne_unique (y : Q) (n : Z) :
  Qabs (y - inject_Z n) < 1 # 2 \/
  (Qabs (y - inject_Z n) == 1 # 2 /\ Z.even n = true) ->
  rne y = n.
Proof.
intros H.
assert (Hle : Qabs (y - inject_Z n) <= 1 # 2).
{ destruct H as [H|[H _]]; [now apply Qlt_le_weak | rewrite H; apply Qle_refl]. }
apply Qabs_Qle_condition in Hle. destruct Hle as [Hlo Hhi].
destruct (floor_bounds y) as [F1 F2].
assert (Hf : Qfloor y = n \/ Qfloor y = (n - 1)%Z).
{ assert (H1 : inject_Z (Qfloor y) < inject_Z (n + 1)).
  { rewrite inject_Z_plus. change (inject_Z 1) with 1. lra. }
  assert (H2 : inject_Z (n - 2) < inject_Z (Qfloor y)).
  { unfold Zminus. rewrite inject_Z_plus. change (inject_Z (- (2))) with (- (2)). lra. }
  rewrite <- Zlt_Qlt in H1, H2. lia. }
destruct Hf as [Hf|Hf].
- destruct (rne_cases y) as [[Hy ->]|[[Hy _]|[Hy ->]]]; rewrite Hf in *.
  + reflexivity.
  + exfalso. lra.
  + destruct H as [H|[_ Hev]].
    * exfalso. rewrite Hy in H. discriminate H.
    * now rewrite Hev.
- assert (Hn : inject_Z (Qfloor y) == inject_Z n - 1).
  { rewrite Hf. unfold Zminus. rewrite inject_Z_plus. change (inject_Z (- (1))) with (- (1)). ring. }
  destruct (rne_cases y) as [[Hy _]|[[Hy ->]|[Hy ->]]].
  + exfalso. lra.
  + lia.
  + destruct H as [H|[_ Hev]].
    * exfalso. assert (E : y - inject_Z n == - (1 # 2)) by lra.
      rewrite E in H. discriminate H.
    * rewrite Hf. replace (n - 1)%Z with (Z.pred n) by lia.
      rewrite Z.even_pred. rewrite <- Z.negb_even, Hev. simpl. lia.
Qed.

Lemma rne_spec (y : Q) :
  Qabs (y - inject_Z (rne y)) < 1 # 2 \/
  (Qabs (y - inject_Z (rne y)) == 1 # 2 /\ Z.even (rne y) = true).
Proof.
destruct (floor_bounds y) as [F1 F2].
destruct (rne_cases y) as [[Hy ->]|[[Hy ->]|[Hy ->]]].
- left. apply Qabs_Qlt_condition. lra.
- left. rewrite inject_Z_plus. apply Qabs_Qlt_condition. change (inject_Z 1) with 1. lra.
- right. destruct (Z.even (Qfloor y)) eqn:Ev.
  + split; [|assumption]. rewrite Hy. reflexivity.
  + split.
    * rewrite inject_Z_plus. setoid_replace (y - (inject_Z (Qfloor y) + inject_Z 1))
        with (- (1 # 2)) by (change (inject_Z 1) with 1; lra). reflexivity.
    * replace (Qfloor y + 1)%Z with (Z.succ (Qfloor y)) by lia.
      rewrite Z.even_succ, <- Z.negb_even, Ev. reflexivity.
Qed.

Lemma rne_opp (y : Q) : rne (- y) = (- rne y)%Z.
Proof.
apply rne_unique.
assert (E : - y - inject_Z (- rne y) == - (y - inject_Z (rne y))).
{ rewrite inject_Z_opp. ring. }
rewrite E, Qabs_opp, Z.even_opp. apply rne_spec.
Qed.

(** ** Rounding to binary64 *)

Lemma mag_comp (x y : Q) : x == y -> mag x = mag y.
Proof.
intros E. destruct (Qeq_dec y 0) as [Hy|Hy].
- unfold mag. assert (Hx : x == 0) by (rewrite E; exact Hy).
  apply Qeq_bool_iff in Hx. apply Qeq_bool_iff in Hy. now rewrite Hx, Hy.
- assert (Hx : ~ x == 0) by (rewrite E; exact Hy).
  destruct (mag_spec y Hy) as [Hlo Hhi].
  apply mag_unique; rewrite E; assumption.
Qed.

Lemma mag_opp (x : Q) : mag (- x) = mag x.
Proof.
destruct (Qeq_dec x 0) as [Hx|Hx].
- apply mag_comp. rewrite Hx. reflexivity.
- destruct (mag_spec x Hx) as [Hlo Hhi].
  apply mag_unique; rewrite Qabs_opp; assumption.
Qed.

Lemma rnd_zero (x : Q) : x == 0 -> rnd x = 0.
Proof.
intros E. unfold rnd. apply Qeq_bool_iff in E. now rewrite E.
Qed.

Lemma rnd_nonzero (x : Q) :
  ~ x == 0 ->
  rnd x = Qred (inject_Z (rne (x / pow2 (mag x - 53))) * pow2 (mag x - 53)).
Proof.
intros Hx. unfold rnd. destruct (Qeq_bool x 0) eqn:E; [|reflexivity].
apply Qeq_bool_iff in E. contradiction.
Qed.

Lemma rnd_value (x : Q) :
  ~ x == 0 ->
  rnd x == inject_Z (rne (x / pow2 (mag x - 53))) * pow2 (mag x - 53).
Proof. intros Hx. rewrite (rnd_nonzero x Hx). apply Qred_correct. Qed.

Lemma rnd_comp (x y : Q) : x == y -> rnd x = rnd y.
Proof.
intros E. destruct (Qeq_dec y 0) as [Hy|Hy].
- rewrite (rnd_zero y Hy). apply rnd_zero. now rewrite E.
- assert (Hx : ~ x == 0) by (rewrite E; exact Hy).
  rewrite (rnd_nonzero x Hx), (rnd_nonzero y Hy).
  apply Qred_complete.
  rewrite (mag_comp x y E).
  rewrite (rne_comp (x / pow2 (mag y - 53)) (y / pow2 (mag y - 53))).
  + reflexivity.
  + now rewrite E.
Qed.

Lemma pow2_nonzero (e : Z) : ~ pow2 e == 0.
Proof. pose proof (pow2_pos e). intros E. rewrite E in H. discriminate. Qed.

Lemma scaled_bounds (x : Q) :
  0 < x ->
  pow2 52 <= x / pow2 (mag x - 53) /\ x / pow2 (mag x - 53) < pow2 53.
Proof.
intros Hx.
assert (Hn : ~ x == 0) by (intros E; rewrite E in Hx; discriminate).
destruct (mag_spec x Hn) as [Hlo Hhi].
rewrite Qabs_pos in Hlo, Hhi by (now apply Qlt_le_weak).
pose proof (pow2_pos (mag x - 53)) as He.
split.
- apply Qle_shift_div_l; [assumption|].
  rewrite <- pow2_add. replace (52 + (mag x - 53))%Z with (mag x - 1)%Z by lia.
  assumption.
- apply Qlt_shift_div_r; [assumption|].
  rewrite <- pow2_add. replace (53 + (mag x - 53))%Z with (mag x) by lia.
  assumption.
Qed.

Lemma rne_scaled_bounds (x : Q) :
  0 < x ->
  (2 ^ 52 <= rne (x / pow2 (mag x - 53)) <= 2 ^ 53)%Z.
Proof.
intros Hx. destruct (scaled_bounds x Hx) as [Hlo Hhi].
rewrite <- (rne_Z (2 ^ 52)), <- (rne_Z (2 ^ 53)).
split; apply rne_mono.
- rewrite pow2_Z by lia. assumption.
- rewrite pow2_Z by lia. now apply Qlt_le_weak.
Qed.

Lemma rnd_pos_bounds (x : Q) :
  0 < x -> pow2 (mag x - 1) <= rnd x /\ rnd x <= pow2 (mag x).
Proof.
intros Hx.
assert (Hn : ~ x == 0) by (intros E; rewrite E in Hx; discriminate).
rewrite (rnd_value x Hn).
destruct (rne_scaled_bounds x Hx) as [Hlo Hhi].
pose proof (pow2_pos (mag x - 53)) as He.
split.
- replace (mag x - 1)%Z with (52 + (mag x - 53))%Z by lia.
  rewrite pow2_add. apply Qmult_le_compat_r; [|now apply Qlt_le_weak].
  rewrite <- (pow2_Z 52) by lia. now rewrite <- Zle_Qle.
- replace (mag x) with (53 + (mag x - 53))%Z at 3 by lia.
  rewrite pow2_add. apply Qmult_le_compat_r; [|now apply Qlt_le_weak].
  rewrite <- (pow2_Z 53) by lia. now rewrite <- Zle_Qle.
Qed.

Lemma rnd_opp (x : Q) : rnd (- x) == - rnd x.
Proof.
destruct (Qeq_dec x 0) as [Hx|Hx].
- rewrite (rnd_zero x Hx), (rnd_zero (- x)); [reflexivity|].
  rewrite Hx. reflexivity.
- assert (Hn : ~ - x == 0) by (intros E; apply Hx; lra).
  rewrite (rnd_value x Hx), (rnd_value (- x) Hn), mag_opp.
  rewrite (rne_comp (- x / pow2 (mag x - 53)) (- (x / pow2 (mag x - 53)))).
  + rewrite rne_opp, inject_Z_opp. ring.
  + field. apply pow2_nonzero.
Qed.

Lemma rnd_pos (x : Q) : 0 < x -> 0 < rnd x.
Proof.
intros Hx. destruct (rnd_pos_bounds x Hx) as [Hlo _].
eapply Qlt_le_trans; [apply (pow2_pos (mag x - 1)) | exact Hlo].
Qed.

Lemma rnd_mono_pos (x y : Q) : 0 < x -> x <= y -> rnd x <= rnd y.
Proof.
intros Hx Hxy.
assert (Hy : 0 < y) by (eapply Qlt_le_trans; eassumption).
assert (Hnx : ~ x == 0) by (intros E; rewrite E in Hx; discriminate).
assert (Hny : ~ y == 0) by (intros E; rewrite E in Hy; discriminate).
destruct (mag_spec x Hnx) as [Xlo Xhi]. destruct (mag_spec y Hny) as [Ylo Yhi].
rewrite Qabs_pos in Xlo, Xhi, Ylo, Yhi by (now apply Qlt_le_weak).
assert (Hm : (mag x <= mag y)%Z).
{ assert (H : (mag x - 1 < mag y)%Z).
  { apply pow2_lt_inv. eapply Qle_lt_trans; [exact Xlo|].
    eapply Qle_lt_trans; eassumption. }
  lia. }
destruct (Z.eq_dec (mag x) (mag y)) as [E|N].
- rewrite (rnd_value x Hnx), (rnd_value y Hny), E.
  pose proof (pow2_pos (mag y - 53)) as He.
  apply Qmult_le_compat_r; [|now apply Qlt_le_weak].
  rewrite <- Zle_Qle. apply rne_mono.
  apply Qmult_le_compat_r; [assumption|].
  apply Qlt_le_weak. now apply Qinv_lt_0_compat.
- destruct (rnd_pos_bounds x Hx) as [_ Hhi].
  destruct (rnd_pos_bounds y Hy) as [Hlo _].
  eapply Qle_trans; [exact Hhi|]. eapply Qle_trans; [|exact Hlo].
  apply pow2_le. lia.
Qed.

Theorem rnd_mono (x y : Q) : x <= y -> rnd x <= rnd y.
Proof.
intros Hxy.
destruct (Q_dec x 0) as [[Hx|Hx]|Hx]; destruct (Q_dec y 0) as [[Hy|Hy]|Hy].
- (* x < 0, y < 0 *)
  assert (H : rnd (- y) <= rnd (- x)) by (apply rnd_mono_pos; lra).
  rewrite !rnd_opp in H. lra.
- (* x < 0 < y *)
  assert (H1 : 0 < rnd (- x)) by (apply rnd_pos; lra).
  rewrite rnd_opp in H1. pose proof (rnd_pos y Hy). lra.
- rewrite (rnd_zero y Hy).
  assert (H1 : 0 < rnd (- x)) by (apply rnd_pos; lra).
  rewrite rnd_opp in H1. lra.
- exfalso. lra.
- now apply rnd_mono_pos.
- exfalso. lra.
- exfalso. lra.
- rewrite (rnd_zero x Hx). apply Qlt_le_weak. now apply rnd_pos.
- rewrite (rnd_zero x Hx), (rnd_zero y Hy). apply Qle_refl.
Qed.

Lemma rnd_nonneg (x : Q) : 0 <= x -> 0 <= rnd x.
Proof. intros H. change 0 with (rnd 0) at 1. now apply rnd_mono. Qed.

Lemma rnd_eq_0 (x : Q) : rnd x == 0 -> x == 0.
Proof.
intros H. destruct (Q_dec x 0) as [[Hx|Hx]|Hx]; [| |assumption].
- assert (H1 : 0 < rnd (- x)) by (apply rnd_pos; lra).
  rewrite rnd_opp in H1. lra.
- pose proof (rnd_pos x Hx). lra.
Qed.

(** A number with a 53-bit significand is its own rounding. *)
Theorem rnd_exact (m e : Z) :
  (Z.abs m < 2 ^ 53)%Z -> rnd (inject_Z m * pow2 e) == inject_Z m * pow2 e.
Proof.
intros Hm. set (x := inject_Z m * pow2 e).
destruct (Z.eq_dec m 0) as [->|Hm0].
- rewrite rnd_zero; unfold x; simpl; ring.
- assert (Hx : ~ x == 0).
  { unfold x. intros E. apply Qmult_integral in E. destruct E as [E|E].
    - apply Hm0. unfold Qeq in E. simpl in E. lia.
    - now apply pow2_nonzero in E. }
  destruct (mag_spec x Hx) as [Hlo Hhi].
  assert (Habs : Qabs x == inject_Z (Z.abs m) * pow2 e).
  { unfold x. rewrite Qabs_Qmult. rewrite (Qabs_pos (pow2 e)).
    - destruct m; reflexivity.
    - apply Qlt_le_weak, pow2_pos. }
  assert (Hc : (mag x - 53 <= e)%Z).
  { assert (H : (mag x - 1 < 53 + e)%Z).
    { apply pow2_lt_inv. eapply Qle_lt_trans; [exact Hlo|].
      rewrite Habs, pow2_add. apply Qmult_lt_compat_r; [apply pow2_pos|].
      rewrite <- (pow2_Z 53) by lia. now rewrite <- Zlt_Qlt. }
    lia. }
  rewrite (rnd_value x Hx).
  set (c := (mag x - 53)%Z) in *.
  assert (Hs : x / pow2 c == inject_Z (m * 2 ^ (e - c))).
  { unfold x. rewrite inject_Z_mult, pow2_Z by lia.
    rewrite pow2_sub. field. apply pow2_nonzero. }
  rewrite (rne_comp _ _ Hs), rne_Z.
  rewrite inject_Z_mult, pow2_Z by lia. rewrite pow2_sub.
  unfold x. field. apply pow2_nonzero.
Qed.

Lemma rnd_canonical (x : Q) : Qred (rnd x) = rnd x.
Proof.
destruct (Qeq_dec x 0) as [Hx|Hx].
- now rewrite (rnd_zero x Hx).
- rewrite (rnd_nonzero x Hx). apply Qcanon.Qred_involutive.
Qed.

(** Equal values are the same number. *)
Lemma rnd_eq (x y : Q) : rnd x == rnd y -> rnd x = rnd y.
Proof.
intros E. rewrite <- (rnd_canonical x), <- (rnd_canonical y).
now apply Qred_complete.
Qed.

Lemma rnd_eq_Z (x : Q) (n : Z) : rnd x == inject_Z n -> rnd x = inject_Z n.
Proof.
intros E. rewrite <- (rnd_canonical x).
rewrite (Qred_complete _ _ E). apply Qcanon.Qred_identity. simpl. apply Z.gcd_1_r.
Qed.

Corollary rnd_Z (n : Z) : (Z.abs n < 2 ^ 53)%Z -> rnd (inject_Z n) = inject_Z n.
Proof.
intros H. apply rnd_eq_Z.
rewrite (rnd_comp (inject_Z n) (inject_Z n * pow2 0)).
- rewrite (rnd_exact n 0 H). unfold pow2. simpl. ring.
- unfold pow2. simpl. ring.
Qed.

(** The rounding error is at most half a unit in the last place. *)
Theorem rnd_nearest (x : Q) :
  ~ x == 0 -> Qabs (rnd x - x) <= pow2 (mag x - 54).
Proof.
intros Hx. rewrite (rnd_value x Hx).
set (e := (mag x - 53)%Z). pose proof (pow2_pos e) as He.
assert (E : inject_Z (rne (x / pow2 e)) * pow2 e - x
            == - (x / pow2 e - inject_Z (rne (x / pow2 e))) * pow2 e).
{ field. apply pow2_nonzero. }
rewrite E, Qabs_Qmult, Qabs_opp, (Qabs_pos (pow2 e)) by (now apply Qlt_le_weak).
replace (mag x - 54)%Z with (e + -1)%Z by (unfold e; lia).
rewrite pow2_add. change (pow2 (-1)) with (1 # 2).
assert (H : Qabs (x / pow2 e - inject_Z (rne (x / pow2 e))) <= 1 # 2).
{ destruct (rne_spec (x / pow2 e)) as [H|[H _]];
    [now apply Qlt_le_weak | rewrite H; apply Qle_refl]. }
rewrite (Qmult_comm (pow2 e)).
apply Qmult_le_compat_r; [exact H | now apply Qlt_le_weak].
Qed.

(** Rounding is monotone, so it keeps a number on the same side of a
    binary64 bound. *)
Lemma rnd_le_Z (x : Q) (n : Z) :
  (Z.abs n < 2 ^ 53)%Z -> x <= inject_Z n -> rnd x <= inject_Z n.
Proof.
intros Hn H. rewrite <- (rnd_Z n Hn). now apply rnd_mono.
Qed.

Lemma rnd_ge_Z (x : Q) (n : Z) :
  (Z.abs n < 2 ^ 53)%Z -> inject_Z n <= x -> inject_Z n <= rnd x.
Proof.
intros Hn H. rewrite <- (rnd_Z n Hn). now apply rnd_mono.
Qed.

(** ** The square root *)

Lemma fsqrt_nonpos (x : Q) : x <= 0 -> fsqrt x = 0.
Proof.
intros H. unfold fsqrt. apply Qle_bool_iff in H. now rewrite H.
Qed.

Lemma fsqrt_nonneg (x : Q) : 0 <= fsqrt x.
Proof.
unfold fsqrt. destruct (Qle_bool x 0); [apply Qle_refl|].
cbv zeta. rewrite Qred_correct.
apply Qmult_le_0_compat; [|apply Qlt_le_weak, pow2_pos].
change 0 with (inject_Z 0). rewrite <- Zle_Qle.
pose proof (Z.sqrt_nonneg (Qfloor (x / pow2 (2 * ((mag x + 1) / 2 - 53))))).
destruct (match _ with Lt => false | _ => _ end); lia.
Qed.


Lemma sqrt_scaled_bounds (x : Q) :
  0 < x ->
  pow2 104 <= x / pow2 (2 * ((mag x + 1) / 2 - 53)) /\
  x / pow2 (2 * ((mag x + 1) / 2 - 53)) < pow2 106.
Proof.
intros Hx.
assert (Hn : ~ x == 0) by (intros E; rewrite E in Hx; discriminate).
destruct (mag_spec x Hn) as [Hlo Hhi].
rewrite Qabs_pos in Hlo, Hhi by (now apply Qlt_le_weak).
pose proof (Z.div_mod (mag x + 1) 2 ltac:(lia)) as Hd.
pose proof (Z.mod_pos_bound (mag x + 1) 2 ltac:(lia)) as Hr.
set (j := ((mag x + 1) / 2)%Z) in *.
pose proof (pow2_pos (2 * (j - 53))) as He.
split.
- apply Qle_shift_div_l; [assumption|].
  rewrite <- pow2_add. eapply Qle_trans; [|exact Hlo]. apply pow2_le. lia.
- apply Qlt_shift_div_r; [assumption|].
  rewrite <- pow2_add. eapply Qlt_le_trans; [exact Hhi|]. apply pow2_le. lia.
Qed.

(** The square root is correctly rounded: [fsqrt x] is [m * 2^e] with a
    53-bit [m], and the square root of [x] is within half a unit of [m]. *)
Theorem fsqrt_bracket (x : Q) :
  0 < x ->
  exists m : Z,
    fsqrt x == inject_Z m * pow2 ((mag x + 1) / 2 - 53) /\
    (2 ^ 52 <= m <= 2 ^ 53)%Z /\
    (inject_Z m - (1 # 2)) * (inject_Z m - (1 # 2))
      <= x / pow2 (2 * ((mag x + 1) / 2 - 53)) /\
    x / pow2 (2 * ((mag x + 1) / 2 - 53))
      <= (inject_Z m + (1 # 2)) * (inject_Z m + (1 # 2)).
Proof.
intros Hx. destruct (sqrt_scaled_bounds x Hx) as [Ylo Yhi].
unfold fsqrt.
assert (Hb : Qle_bool x 0 = false).
{ destruct (Qle_bool x 0) eqn:E; [|reflexivity]. apply Qle_bool_iff in E. lra. }
rewrite Hb. cbv zeta.
set (e := ((mag x + 1) / 2 - 53)%Z) in *.
set (y := x / pow2 (2 * e)) in *.
destruct (floor_bounds y) as [F1 F2].
assert (Hf : (2 ^ 104 <= Qfloor y < 2 ^ 106)%Z).
{ split.
  - rewrite <- (Qfloor_Z (2 ^ 104)). apply Qfloor_resp_le.
    rewrite pow2_Z by lia. exact Ylo.
  - rewrite Zlt_Qlt. eapply Qle_lt_trans; [exact F1|]. rewrite pow2_Z by lia. exact Yhi. }
pose proof (Z.sqrt_spec (Qfloor y) ltac:(lia)) as [S1 S2].
set (s := Z.sqrt (Qfloor y)) in *.
assert (Hs : (2 ^ 52 <= s < 2 ^ 53)%Z).
{ split.
  - rewrite <- (Z.sqrt_square (2 ^ 52)) by lia. apply Z.sqrt_le_mono.
    change (2 ^ 52 * 2 ^ 52)%Z with (2 ^ 104)%Z. lia.
  - apply Z.sqrt_lt_square; [lia | lia |].
    change (2 ^ 53 * 2 ^ 53)%Z with (2 ^ 106)%Z. lia. }
assert (Q1 : inject_Z s * inject_Z s <= y).
{ eapply Qle_trans; [|exact F1]. rewrite <- inject_Z_mult. now rewrite <- Zle_Qle. }
assert (Q2 : y < (inject_Z s + 1) * (inject_Z s + 1)).
{ eapply Qlt_le_trans; [exact F2|].
  change 1 with (inject_Z 1). rewrite <- !inject_Z_plus, <- inject_Z_mult.
  rewrite <- Zle_Qle. unfold Z.succ in S2. lia. }
assert (Hs1 : 1 <= inject_Z s).
{ change 1 with (inject_Z 1). rewrite <- Zle_Qle. lia. }
destruct (Qcompare_spec y ((inject_Z s + (1 # 2)) * (inject_Z s + (1 # 2)))) as [E|L|G].
- destruct (Z.even s); simpl negb; cbv iota.
  + exists s. rewrite Qred_correct. split; [reflexivity|]. split; [lia|].
    split; [nra | rewrite E; apply Qle_refl].
  + exists (s + 1)%Z. rewrite Qred_correct. split; [reflexivity|]. split; [lia|].
    rewrite inject_Z_plus. change (inject_Z 1) with 1. split; nra.
- exists s. rewrite Qred_correct. split; [reflexivity|]. split; [lia|].
  split; nra.
- exists (s + 1)%Z. rewrite Qred_correct. split; [reflexivity|]. split; [lia|].
  rewrite inject_Z_plus. change (inject_Z 1) with 1. split; nra.
Qed.

End Binary64Facts.

(* ================================================================== *)
(** * Rounding to integers and to hundredths *)

Section Rounding.
Import Binary64 JS Analytics.
Local Open Scope Q_scope.

Lemma Math_round_comp (x y : Q) : x == y -> Math_round x = Math_round y.
Proof.
intros E. unfold Math_round. f_equal. apply Qfloor_comp. now rewrite E.
Qed.

Lemma Math_round_Z (k : Z) : Math_round (inject_Z k) = inject_Z k.
Proof.
unfold Math_round. f_equal.
destruct (floor_bounds (inject_Z k + (1 # 2))) as [Hlo Hhi].
assert (H1 : inject_Z (Qfloor (inject_Z k + (1 # 2))) < inject_Z (k + 1)).
{ rewrite inject_Z_plus. change (inject_Z 1) with 1. lra. }
assert (H2 : inject_Z (k - 1) < inject_Z (Qfloor (inject_Z k + (1 # 2)))).
{ unfold Zminus. rewrite inject_Z_plus. change (inject_Z (- (1))) with (- (1)). lra. }
rewrite <- Zlt_Qlt in H1, H2. lia.
Qed.

Lemma Math_round_nearest (x : Q) : Qabs (Math_round x - x) <= 1 # 2.
Proof.
unfold Math_round. destruct (floor_bounds (x + (1 # 2))) as [Hlo Hhi].
apply Qabs_Qle_condition. split; lra.
Qed.

Lemma Math_round_range (a b : Z) (x : Q) :
  inject_Z a <= x -> x <= inject_Z b ->
  exists k : Z, Math_round x = inject_Z k /\ (a <= k <= b)%Z.
Proof.
intros Ha Hb. exists (Qfloor (x + (1 # 2))). split; [reflexivity|].
destruct (floor_bounds (x + (1 # 2))) as [Hlo Hhi].
assert (H1 : inject_Z (a - 1) < inject_Z (Qfloor (x + (1 # 2)))).
{ unfold Zminus. rewrite inject_Z_plus. change (inject_Z (- (1))) with (- (1)). lra. }
assert (H2 : inject_Z (Qfloor (x + (1 # 2))) < inject_Z (b + 1)).
{ rewrite inject_Z_plus. change (inject_Z 1) with 1. lra. }
rewrite <- Zlt_Qlt in H1, H2. lia.
Qed.

Lemma Math_round_is_nearest_integer (x : Q) : Spec.nearest_integer x (Math_round x).
Proof.
exists (Qfloor (x + (1 # 2))). split; [reflexivity | apply Math_round_nearest].
Qed.

(** [Math.max(lo, Math.min(hi, x))] clamps [x] to [[lo, hi]]. *)
Lemma Math_max_min_clamp (x lo hi : Q) :
  lo <= hi -> Math_max lo (Math_min hi x) == Spec.clamp x lo hi.
Proof.
intros H. unfold Math_max, Math_min, Spec.clamp, ltb.
destruct (Qle_bool hi x) eqn:E1; destruct (Qle_bool lo x) eqn:E2;
  destruct (Qle_bool x hi) eqn:E3; destruct (Qle_bool lo hi) eqn:E4;
  simpl;
  repeat match goal with
         | E : Qle_bool _ _ = true |- _ => apply Qle_bool_iff in E
         | E : Qle_bool ?a ?b = false |- _ =>
             assert (b < a) by
               (destruct (Qlt_le_dec b a) as [L|L];
                [exact L | apply Qle_bool_iff in L; congruence]);
             clear E
         end;
  try (exfalso; lra); try lra; try reflexivity.
Qed.

Lemma clamp_range (x lo hi : Q) : lo <= hi -> lo <= Spec.clamp x lo hi <= hi.
Proof.
intros H. unfold Spec.clamp, ltb.
destruct (Qle_bool lo x) eqn:E1; simpl.
- apply Qle_bool_iff in E1. destruct (Qle_bool x hi) eqn:E2; simpl.
  + apply Qle_bool_iff in E2. lra.
  + lra.
- lra.
Qed.

(** Below [10^21], [parseFloat(x.toFixed(2))] of a number that is not
    negative is the number written with two decimals nearest to it. *)
Lemma parseFloat_toFixed2_nonneg (x : Q) :
  0 <= x -> x < inject_Z (10 ^ 21) ->
  parseFloat_toFixed2 x = rnd (inject_Z (Qfloor (x * 100 + (1 # 2))) / 100).
Proof.
intros H0 Hbig. unfold parseFloat_toFixed2, toFixed2_digits, ltb.
destruct (Qle_bool (inject_Z (10 ^ 21)) (Qabs x)) eqn:E.
- apply Qle_bool_iff in E. rewrite Qabs_pos in E by assumption. lra.
- apply Qle_bool_iff in H0. now rewrite H0.
Qed.

Lemma parseFloat_toFixed2_rounded (x : Q) :
  0 <= x -> x < inject_Z (10 ^ 21) -> Spec.rounded_2dp x (parseFloat_toFixed2 x).
Proof.
intros H0 Hbig. rewrite parseFloat_toFixed2_nonneg by assumption.
exists (Qfloor (x * 100 + (1 # 2))). split; [reflexivity|].
destruct (floor_bounds (x * 100 + (1 # 2))) as [Hlo Hhi].
unfold Qdiv. change (/ 100) with (1 # 100).
apply Qabs_Qle_condition. split; lra.
Qed.

Lemma parseFloat_toFixed2_sign (x : Q) :
  0 <= x -> x < inject_Z (10 ^ 21) -> 0 <= parseFloat_toFixed2 x.
Proof.
intros H0 Hbig. rewrite parseFloat_toFixed2_nonneg by assumption.
apply rnd_nonneg.
destruct (floor_bounds (x * 100 + (1 # 2))) as [Hlo Hhi].
assert (Hk : (0 <= Qfloor (x * 100 + (1 # 2)))%Z).
{ rewrite <- (Qfloor_Z 0). apply Qfloor_resp_le. change (inject_Z 0) with 0. lra. }
rewrite Zle_Qle in Hk. change (inject_Z 0) with 0 in Hk.
apply Qle_shift_div_l; lra.
Qed.

End Rounding.

(* ================================================================== *)
(** * Sums, means and variances *)

Section Statistics.
Import Binary64 JS Analytics.
Local Open Scope Q_scope.

Lemma fold_left_total {A : Type} (f : A -> number) (xs : list A) (acc : number) :
  fold_left (fun acc x => fadd acc (f x)) xs acc = Spec.total_from acc (map f xs).
Proof.
revert acc. induction xs as [|x xs IH]; intros acc; simpl; [reflexivity | apply IH].
Qed.

Lemma reduce_plus_total {A : Type} (f : A -> number) (xs : list A) :
  reduce_plus f xs = Spec.total (map f xs).
Proof. apply fold_left_total. Qed.

Lemma lenN_count {A : Type} (xs : list A) : lenN xs = Spec.count xs.
Proof. reflexivity. Qed.

Lemma len_zero_iff {A : Type} (xs : list A) : (len xs =? 0)%Z = true <-> xs = [].
Proof.
unfold len. rewrite Z.eqb_eq.
destruct xs; simpl; split; intros H; try reflexivity; try discriminate; lia.
Qed.

Lemma len_nonempty {A : Type} (xs : list A) : xs <> [] -> (len xs =? 0)%Z = false.
Proof.
intros H. destruct (len xs =? 0)%Z eqn:E; [|reflexivity].
apply len_zero_iff in E. contradiction.
Qed.

Lemma len_pos {A : Type} (xs : list A) : xs <> [] -> (1 <= len xs)%Z.
Proof. intros H. unfold len. destruct xs; [contradiction | simpl; lia]. Qed.

Lemma count_pos {A : Type} (xs : list A) : xs <> [] -> 1 <= Spec.count xs.
Proof.
intros H. unfold Spec.count, ofZ. change 1 with (inject_Z 1).
rewrite <- Zle_Qle. now apply len_pos.
Qed.

Lemma count_nonneg {A : Type} (xs : list A) : 0 <= Spec.count xs.
Proof.
unfold Spec.count, ofZ. change 0 with (inject_Z 0). rewrite <- Zle_Qle. lia.
Qed.

Lemma total_from_nonneg (xs : list number) (acc : number) :
  0 <= acc -> Forall (fun x => 0 <= x) xs -> 0 <= Spec.total_from acc xs.
Proof.
revert acc. induction xs as [|x xs IH]; intros acc Hacc Hall; simpl; [assumption|].
inversion Hall; subst. apply IH; [|assumption].
unfold fadd. apply rnd_nonneg. lra.
Qed.

Lemma total_nonneg (xs : list number) :
  Forall (fun x => 0 <= x) xs -> 0 <= Spec.total xs.
Proof. apply total_from_nonneg. apply Qle_refl. Qed.

Lemma fdiv_nonneg (x y : number) : 0 <= x -> 0 <= y -> 0 <= fdiv x y.
Proof.
intros Hx Hy. unfold fdiv. apply rnd_nonneg.
unfold Qdiv. apply Qmult_le_0_compat; [assumption|].
now apply Qinv_le_0_compat.
Qed.

Lemma fmul_nonneg (x y : number) : 0 <= x -> 0 <= y -> 0 <= fmul x y.
Proof.
intros Hx Hy. unfold fmul. apply rnd_nonneg. now apply Qmult_le_0_compat.
Qed.

Lemma mean_nonneg (xs : list Z) :
  Forall (fun x => (0 <= x)%Z) xs -> 0 <= Spec.mean xs.
Proof.
intros H. unfold Spec.mean. apply fdiv_nonneg; [|apply count_nonneg].
apply total_nonneg. apply Forall_forall. intros y Hy.
apply in_map_iff in Hy. destruct Hy as [x [<- Hx]].
rewrite Forall_forall in H. unfold ofZ. change 0 with (inject_Z 0).
rewrite <- Zle_Qle. now apply H.
Qed.

(** A quotient by a count of at least one does not exceed the dividend. *)
Lemma quotient_by_count (x : number) {A : Type} (xs : list A) :
  0 <= x -> xs <> [] -> 0 <= x / Spec.count xs /\ x / Spec.count xs <= x.
Proof.
intros Hx Hne. pose proof (count_pos xs Hne) as Hn.
split.
- apply Qle_shift_div_l; lra.
- apply Qle_shift_div_r; [lra|]. nra.
Qed.

End Statistics.

(* ================================================================== *)
(** * The day buckets *)

Section Buckets.
Import JS Analytics.

Lemma obj_get_set_same (k v : Z) (o : list (Z * Z)) :
  obj_get k (obj_set k v o) = Some v.
Proof.
induction o as [|[k' v'] o IH]; simpl.
- now rewrite Z.eqb_refl.
- destruct (k =? k') eqn:E; simpl; rewrite ?Z.eqb_refl, ?E; auto.
Qed.

Lemma obj_get_set_other (k k0 v : Z) (o : list (Z * Z)) :
  k0 <> k -> obj_get k0 (obj_set k v o) = obj_get k0 o.
Proof.
intros Hne. induction o as [|[k' v'] o IH]; simpl.
- destruct (k0 =? k) eqn:E; [apply Z.eqb_eq in E; contradiction | reflexivity].
- destruct (k =? k') eqn:E; simpl.
  + apply Z.eqb_eq in E. subst k'.
    destruct (k0 =? k) eqn:E0; [apply Z.eqb_eq in E0; contradiction | reflexivity].
  + now rewrite IH.
Qed.

Lemma obj_get_None (k : Z) (o : list (Z * Z)) :
  obj_get k o = None <-> ~ In k (map fst o).
Proof.
induction o as [|[k' v'] o IH]; simpl.
- intuition.
- destruct (k =? k') eqn:E.
  + apply Z.eqb_eq in E. subst k'. split; [discriminate | intros H; exfalso; apply H; now left].
  + apply Z.eqb_neq in E. rewrite IH. intuition.
Qed.

Lemma obj_get_In (k v : Z) (o : list (Z * Z)) :
  NoDup (map fst o) -> (In (k, v) o <-> obj_get k o = Some v).
Proof.
induction o as [|[k' v'] o IH]; simpl; intros Hnd.
- split; [intros [] | discriminate].
- inversion Hnd as [|? ? Hnin Hnd']; subst.
  destruct (k =? k') eqn:E.
  + apply Z.eqb_eq in E. subst k'. split.
    * intros [Heq|Hin]; [now inversion Heq|].
      exfalso. apply Hnin. apply in_map_iff. now exists (k, v).
    * intros Heq. inversion Heq. now left.
  + apply Z.eqb_neq in E. rewrite <- (IH Hnd'). split.
    * intros [Heq|Hin]; [inversion Heq; congruence | assumption].
    * intros Hin. now right.
Qed.

(** A new key goes to the end; a key that exists keeps its place. *)
Lemma obj_set_keys (k v : Z) (o : list (Z * Z)) :
  map fst (obj_set k v o) =
  if in_dec Z.eq_dec k (map fst o) then map fst o else map fst o ++ [k].
Proof.
induction o as [|[k' v'] o IH]; simpl; [reflexivity|].
destruct (k =? k') eqn:E.
- apply Z.eqb_eq in E. subst k'. simpl.
  destruct (Z.eq_dec k k) as [E|N]; [reflexivity | contradiction].
- apply Z.eqb_neq in E. simpl. rewrite IH.
  destruct (Z.eq_dec k' k) as [E'|N']; [congruence|].
  destruct (in_dec Z.eq_dec k (map fst o)); reflexivity.
Qed.

(** ** Days in the order of their first occurrence *)

Lemma distinct_In (d : Z) (ds : list Z) : In d (Spec.distinct ds) <-> In d ds.
Proof.
induction ds as [|x ds IH]; simpl; [reflexivity|].
rewrite filter_In, IH. destruct (Z.eq_dec x d) as [->|N].
- intuition.
- split.
  + intros [H|[H _]]; auto.
  + intros [H|H]; [contradiction|]. right. split; [assumption|].
    apply negb_true_iff. apply Z.eqb_neq. congruence.
Qed.

Lemma distinct_NoDup (ds : list Z) : NoDup (Spec.distinct ds).
Proof.
induction ds as [|x ds IH]; simpl; constructor.
- rewrite filter_In. intros [_ H]. rewrite Z.eqb_refl in H. discriminate.
- now apply NoDup_filter.
Qed.

Lemma distinct_app_last (ds : list Z) (d : Z) :
  Spec.distinct (ds ++ [d]) =
  if in_dec Z.eq_dec d ds then Spec.distinct ds else Spec.distinct ds ++ [d].
Proof.
induction ds as [|x ds IH]; simpl; [reflexivity|].
rewrite IH. destruct (Z.eq_dec x d) as [->|N].
- destruct (in_dec Z.eq_dec d ds); [reflexivity|].
  rewrite filter_app. simpl. rewrite Z.eqb_refl. simpl. now rewrite app_nil_r.
- destruct (in_dec Z.eq_dec d ds); [reflexivity|].
  rewrite filter_app. simpl.
  assert (E : (d =? x) = false) by (apply Z.eqb_neq; congruence).
  now rewrite E.
Qed.

(** One more commit on day [d]. *)
Lemma commitsOnDay_app (cs : list Commit.t) (c : Commit.t) (d : Z) :
  Spec.commitsOnDay (cs ++ [c]) d =
  Spec.commitsOnDay cs d + (if Spec.utcDay c =? d then 1 else 0).
Proof.
unfold Spec.commitsOnDay. rewrite filter_app, length_app. simpl.
destruct (Spec.utcDay c =? d); simpl; lia.
Qed.

Lemma commitsOnDay_nonneg (cs : list Commit.t) (d : Z) : 0 <= Spec.commitsOnDay cs d.
Proof. unfold Spec.commitsOnDay. lia. Qed.

Lemma commitsOnDay_le_len (cs : list Commit.t) (d : Z) : Spec.commitsOnDay cs d <= len cs.
Proof.
unfold Spec.commitsOnDay, len. pose proof (filter_length_le (fun c => Spec.utcDay c =? d) cs). lia.
Qed.

Lemma commitsOnDay_pos_iff (cs : list Commit.t) (d : Z) :
  Spec.commitsOnDay cs d <> 0 <-> In d (map Spec.utcDay cs).
Proof.
unfold Spec.commitsOnDay. induction cs as [|c cs IH]; simpl.
- intuition.
- destruct (Spec.utcDay c =? d) eqn:E; simpl.
  + apply Z.eqb_eq in E. split; [now left | lia].
  + apply Z.eqb_neq in E. rewrite IH. intuition.
Qed.

Lemma groups_or0 (cs : list Commit.t) (o : list (Z * Z)) (d : Z) :
  groups cs o -> or0 (obj_get d o) = Spec.commitsOnDay cs d.
Proof.
intros [_ H]. rewrite H. destruct (Spec.commitsOnDay cs d =? 0) eqn:E; simpl.
- apply Z.eqb_eq in E. congruence.
- now rewrite E.
Qed.

Lemma groups_step (cs : list Commit.t) (o : list (Z * Z)) (c : Commit.t) :
  groups cs o ->
  groups (cs ++ [c])
    (obj_set (toISOString_date (Commit.committedAt c))
       (or0 (obj_get (toISOString_date (Commit.committedAt c)) o) + 1) o).
Proof.
intros G. pose proof G as [Hkeys Hget].
change (toISOString_date (Commit.committedAt c)) with (Spec.utcDay c).
rewrite (groups_or0 cs o _ G).
split.
- rewrite obj_set_keys, Hkeys. unfold Spec.activeDays.
  rewrite map_app. simpl map. rewrite distinct_app_last.
  destruct (in_dec Z.eq_dec (Spec.utcDay c) (Spec.distinct (map Spec.utcDay cs))) as [H|H];
  destruct (in_dec Z.eq_dec (Spec.utcDay c) (map Spec.utcDay cs)) as [H'|H'];
    try reflexivity; exfalso.
  + apply H'. now apply distinct_In.
  + apply H. now apply distinct_In.
- intros d. rewrite commitsOnDay_app.
  pose proof (commitsOnDay_nonneg cs d) as Hd.
  destruct (Spec.utcDay c =? d) eqn:E.
  + apply Z.eqb_eq in E. subst d. rewrite obj_get_set_same.
    destruct (Spec.commitsOnDay cs (Spec.utcDay c) + 1 =? 0) eqn:E1; [|reflexivity].
    apply Z.eqb_eq in E1. lia.
  + apply Z.eqb_neq in E. rewrite obj_get_set_other by congruence.
    rewrite Hget, Z.add_0_r. reflexivity.
Qed.

Lemma groups_fold (rest done : list Commit.t) (o : list (Z * Z)) :
  groups done o ->
  groups (done ++ rest)
    (fold_left
       (fun o commit =>
          let day := toISOString_date (Commit.committedAt commit) in
          obj_set day (or0 (obj_get day o) + 1) o)
       rest o).
Proof.
revert done o. induction rest as [|c rest IH]; intros done o G; simpl.
- now rewrite app_nil_r.
- replace (done ++ c :: rest) with ((done ++ [c]) ++ rest)
    by (rewrite <- app_assoc; reflexivity).
  apply IH. now apply groups_step.
Qed.

Lemma commitsByDay_groups (cs : list Commit.t) : groups cs (commitsByDay cs).
Proof.
unfold commitsByDay. apply (groups_fold cs [] []).
split; [reflexivity|]. intros d. reflexivity.
Qed.

(** The daily counts of the code are the per-day counts of the
    specification, in the order in which the days first appear. *)
Lemma dailyCounts_dayCounts (cs : list Commit.t) :
  Object_values (commitsByDay cs) = Spec.dayCounts cs.
Proof.
destruct (commitsByDay_groups cs) as [Hkeys Hget].
unfold Spec.dayCounts. rewrite <- Hkeys. unfold Object_values. rewrite map_map.
apply map_ext_in. intros [k v] Hin. simpl.
assert (Hnd : NoDup (map fst (commitsByDay cs))).
{ rewrite Hkeys. apply distinct_NoDup. }
apply (obj_get_In k v _ Hnd) in Hin. rewrite Hget in Hin.
destruct (Spec.commitsOnDay cs k =? 0); congruence.
Qed.

Lemma dayCounts_nonempty (cs : list Commit.t) : cs <> [] -> Spec.dayCounts cs <> [].
Proof.
intros Hne. destruct cs as [|c cs]; [contradiction|].
unfold Spec.dayCounts, Spec.activeDays. simpl. discriminate.
Qed.

Lemma dayCounts_nonneg (cs : list Commit.t) :
  Forall (fun x => 0 <= x) (Spec.dayCounts cs).
Proof.
apply Forall_forall. intros x Hx. unfold Spec.dayCounts in Hx.
apply in_map_iff in Hx. destruct Hx as [d [<- _]]. apply commitsOnDay_nonneg.
Qed.

End Buckets.

(* ================================================================== *)
(** * Consistency score *)

Section ConsistencyScore.
Import Binary64 JS Analytics.
Local Open Scope Q_scope.

(** The code computes the score of the specification. *)
Lemma calculateConsistencyScore_refines (cs : list Commit.t) :
  cs <> [] ->
  calculateConsistencyScore cs =
  Math_round (Spec.clamp (fsub 100 (fmul (Spec.cv (Spec.dayCounts cs)) 50)) 0 100).
Proof.
intros Hne. unfold calculateConsistencyScore.
rewrite (len_nonempty cs Hne), dailyCounts_dayCounts.
rewrite (len_nonempty _ (dayCounts_nonempty cs Hne)). cbv zeta.
rewrite !reduce_plus_total.
unfold Spec.cv, Spec.stdDev, Spec.variance, Spec.mean, Spec.square, Spec.count,
  Math_pow2, Math_sqrt, lenN, len.
apply Math_round_comp. apply Math_max_min_clamp. discriminate.
Qed.

Lemma distinct_constant (d : Z) (ds : list Z) :
  ds <> [] -> (forall x, In x ds -> x = d) -> Spec.distinct ds = [d].
Proof.
induction ds as [|x ds IH]; intros Hne Hall; [contradiction|].
assert (Hx : x = d) by (apply Hall; now left). subst x. simpl.
destruct ds as [|y ds]; [reflexivity|].
rewrite IH; [|discriminate | intros z Hz; apply Hall; now right].
simpl. now rewrite Z.eqb_refl.
Qed.

Lemma dayCounts_single_day (cs : list Commit.t) (d : Z) :
  cs <> [] -> (forall c, In c cs -> Spec.utcDay c = d) ->
  Spec.dayCounts cs = [Spec.commitsOnDay cs d].
Proof.
intros Hne Hall. unfold Spec.dayCounts, Spec.activeDays.
rewrite (distinct_constant d); [reflexivity | |].
- intros E. apply map_eq_nil in E. contradiction.
- intros x Hx. apply in_map_iff in Hx. destruct Hx as [c [<- Hc]]. now apply Hall.
Qed.

Lemma fadd_0_Z (n : Z) : (Z.abs n < 2 ^ 53)%Z -> fadd 0 (ofZ n) = ofZ n.
Proof.
intros Hn. unfold fadd, ofZ.
rewrite (rnd_comp (0 + inject_Z n) (inject_Z n)) by ring. now apply rnd_Z.
Qed.

Lemma fdiv_Z_1 (n : Z) : (Z.abs n < 2 ^ 53)%Z -> fdiv (ofZ n) (ofZ 1) = ofZ n.
Proof.
intros Hn. unfold fdiv, ofZ.
rewrite (rnd_comp (inject_Z n / inject_Z 1) (inject_Z n)) by (field; discriminate).
now apply rnd_Z.
Qed.

Lemma fsub_diag (x : number) : fsub x x = 0.
Proof. unfold fsub. apply rnd_zero. ring. Qed.

Lemma fmul_0_l (x : number) : fmul 0 x = 0.
Proof. unfold fmul. apply rnd_zero. ring. Qed.

Lemma fdiv_0_l (x : number) : fdiv 0 x = 0.
Proof. unfold fdiv. apply rnd_zero. reflexivity. Qed.

(** One bucket: the mean is the count, the deviation is 0. *)
Lemma cv_singleton (n : Z) : (Z.abs n < 2 ^ 53)%Z -> Spec.cv [n] = 0.
Proof.
intros Hn.
assert (Hm : Spec.mean [n] = ofZ n).
{ unfold Spec.mean, Spec.total. cbn [map Spec.total_from].
  change (Spec.count [n]) with (ofZ 1).
  now rewrite fadd_0_Z, fdiv_Z_1. }
assert (Hv : Spec.variance [n] = 0).
{ unfold Spec.variance, Spec.total. cbn [map Spec.total_from].
  rewrite Hm, fsub_diag. unfold Spec.square. rewrite fmul_0_l.
  change (fadd 0 0) with 0. apply fdiv_0_l. }
unfold Spec.cv, Spec.stdDev. rewrite Hv, Hm.
destruct (eqb (ofZ n) 0); [reflexivity|].
change (fsqrt 0) with 0. apply fdiv_0_l.
Qed.

(** C4. [calculateConsistencyScore] returns 0 for the empty commit list;
    for a non-empty list its result is [round(clamp(100 - cv * 50, 0, 100))],
    [cv] being the coefficient of variation of the per-UTC-day commit counts
    over the days with a commit, an integer between 0 and 100; and it is
    exactly 100 when all the commits fall on one UTC calendar day.  (An
    array has fewer than 2^32 elements.) *)
Theorem calculateConsistencyScore_spec :
  calculateConsistencyScore [] = 0 /\
  (forall cs : list Commit.t, cs <> [] ->
     let x := Spec.clamp (fsub 100 (fmul (Spec.cv (Spec.dayCounts cs)) 50)) 0 100 in
     calculateConsistencyScore cs = Math_round x /\
     Spec.nearest_integer x (calculateConsistencyScore cs) /\
     exists k : Z, calculateConsistencyScore cs = inject_Z k /\ (0 <= k <= 100)%Z) /\
  (forall (cs : list Commit.t) (d : Z), cs <> [] -> (len cs < 2 ^ 32)%Z ->
     (forall c, In c cs -> Spec.utcDay c = d) ->
     calculateConsistencyScore cs = 100).
Proof.
split; [reflexivity|]. split.
- intros cs Hne x. rewrite (calculateConsistencyScore_refines cs Hne). fold x.
  split; [reflexivity|]. split.
  + apply Math_round_is_nearest_integer.
  + destruct (clamp_range (fsub 100 (fmul (Spec.cv (Spec.dayCounts cs)) 50)) 0 100)
      as [Hlo Hhi]; [discriminate|].
    apply Math_round_range; assumption.
- intros cs d Hne Hlen Hall.
  rewrite (calculateConsistencyScore_refines cs Hne).
  rewrite (dayCounts_single_day cs d Hne Hall), cv_singleton.
  + reflexivity.
  + pose proof (commitsOnDay_nonneg cs d). pose proof (commitsOnDay_le_len cs d). lia.
Qed.

(** Two commits on one day score 100; two on one day and one on the next
    score 83. *)
Lemma calculateConsistencyScore_spec_witness :
  calculateConsistencyScore [Sample.morning; Sample.evening] = 100 /\
  calculateConsistencyScore [Sample.morning; Sample.evening; Sample.nextDay] = 83.
Proof.
destruct calculateConsistencyScore_spec as [_ [Hround Hsingle]]. split.
- apply (Hsingle _ 19675%Z); [discriminate | reflexivity |].
  intros c [<-|[<-|[]]]; reflexivity.
- destruct (Hround [Sample.morning; Sample.evening; Sample.nextDay]) as [-> _];
    [discriminate|].
  vm_compute. reflexivity.
Defined.

End ConsistencyScore.

Section ConsistencyDependsOnDays.
Import Binary64 JS Analytics.
Local Open Scope Q_scope.

Lemma same_counts_dayCounts (cs1 cs2 : list Commit.t) :
  Spec.activeDays cs1 = Spec.activeDays cs2 ->
  (forall d, Spec.commitsOnDay cs1 d = Spec.commitsOnDay cs2 d) ->
  Spec.dayCounts cs1 = Spec.dayCounts cs2.
Proof.
intros Hdays H. unfold Spec.dayCounts. rewrite Hdays. now apply map_ext.
Qed.

Lemma activeDays_empty (cs : list Commit.t) : Spec.activeDays cs = [] -> cs = [].
Proof. destruct cs; [reflexivity | discriminate]. Qed.

(** C10, as the code has it.  The consistency score depends only on the
    per-UTC-day commit counts taken in the order in which the days first
    appear in the list: two commit lists whose days first appear in the same
    order, with the same number of commits on each day, have the same
    score, whatever their other fields, the time of day of their commits
    and the order of the commits otherwise. *)
Theorem calculateConsistencyScore_depends_on_day_counts
  (cs1 cs2 : list Commit.t) :
  Spec.activeDays cs1 = Spec.activeDays cs2 ->
  (forall d, Spec.commitsOnDay cs1 d = Spec.commitsOnDay cs2 d) ->
  calculateConsistencyScore cs1 = calculateConsistencyScore cs2.
Proof.
intros Hdays H.
destruct cs1 as [|c1 cs1].
- symmetry in Hdays. apply activeDays_empty in Hdays. now subst.
- destruct cs2 as [|c2 cs2]; [discriminate|].
  rewrite !calculateConsistencyScore_refines by discriminate.
  now rewrite (same_counts_dayCounts _ _ Hdays H).
Qed.

Lemma commitsOnDay_count_occ (cs : list Commit.t) (d : Z) :
  Spec.commitsOnDay cs d = Z.of_nat (count_occ Z.eq_dec (map Spec.utcDay cs) d).
Proof.
unfold Spec.commitsOnDay. f_equal.
induction cs as [|c cs IH]; [reflexivity|]. simpl.
destruct (Z.eq_dec (Spec.utcDay c) d) as [E|N].
- rewrite (proj2 (Z.eqb_eq _ _) E). simpl. now rewrite IH.
- rewrite (proj2 (Z.eqb_neq _ _) N). exact IH.
Qed.

(** The same dates, each as often, are the same per-day counts. *)
Lemma same_dates_same_counts (cs1 cs2 : list Commit.t) :
  Permutation (map Spec.utcDay cs1) (map Spec.utcDay cs2) ->
  forall d, Spec.commitsOnDay cs1 d = Spec.commitsOnDay cs2 d.
Proof.
intros H d. rewrite !commitsOnDay_count_occ. f_equal.
revert d. now apply (Permutation_count_occ Z.eq_dec).
Qed.

Lemma calculateConsistencyScore_depends_on_day_counts_witness :
  calculateConsistencyScore [Sample.morning; Sample.evening; Sample.nextDay] =
  calculateConsistencyScore [Sample.noon; Sample.nextNoon; Sample.evening].
Proof.
apply calculateConsistencyScore_depends_on_day_counts.
- reflexivity.
- apply same_dates_same_counts.
  change (Permutation [19675; 19675; 19676]%Z [19675; 19676; 19675]%Z).
  apply perm_skip. apply perm_swap.
Defined.

(** C10 fails as stated.  The eight commits of [Sample.busyDayLast] and of
    [Sample.busyDayFirst] are the same, in another order: one commit on
    each of four days and four commits on a fifth.  The sums of the engine
    run over the days in the order of their first commit and are rounded at
    each step, so the score is 63 when the busy day comes last and 62 when
    it comes first. *)
Lemma calculateConsistencyScore_depends_on_order :
  Permutation Sample.busyDayLast Sample.busyDayFirst /\
  (forall d, Spec.commitsOnDay Sample.busyDayLast d =
             Spec.commitsOnDay Sample.busyDayFirst d) /\
  calculateConsistencyScore Sample.busyDayLast = 63 /\
  calculateConsistencyScore Sample.busyDayFirst = 62 /\
  ~ (forall cs1 cs2 : list Commit.t,
       (forall d, Spec.commitsOnDay cs1 d = Spec.commitsOnDay cs2 d) ->
       calculateConsistencyScore cs1 = calculateConsistencyScore cs2).
Proof.
assert (HP : Permutation Sample.busyDayLast Sample.busyDayFirst).
{ unfold Sample.busyDayLast, Sample.busyDayFirst.
  change (Permutation
            ([Sample.onDay 1 0; Sample.onDay 2 1; Sample.onDay 3 2; Sample.onDay 4 3]
             ++ [Sample.onDay 5 4; Sample.onDay 6 4; Sample.onDay 7 4; Sample.onDay 8 4])
            ([Sample.onDay 5 4; Sample.onDay 6 4; Sample.onDay 7 4; Sample.onDay 8 4]
             ++ [Sample.onDay 1 0; Sample.onDay 2 1; Sample.onDay 3 2; Sample.onDay 4 3])).
  apply Permutation_app_comm. }
assert (HC : forall d, Spec.commitsOnDay Sample.busyDayLast d =
                       Spec.commitsOnDay Sample.busyDayFirst d).
{ apply same_dates_same_counts. now apply Permutation_map. }
split; [exact HP|]. split; [exact HC|].
assert (H63 : calculateConsistencyScore Sample.busyDayLast = 63)
  by (vm_compute; reflexivity).
assert (H62 : calculateConsistencyScore Sample.busyDayFirst = 62)
  by (vm_compute; reflexivity).
split; [exact H63|]. split; [exact H62|].
intros H. specialize (H _ _ HC). rewrite H63, H62 in H. discriminate H.
Qed.

End ConsistencyDependsOnDays.

(* ================================================================== *)
(** * Learning velocity *)

Section LearningVelocity.
Import Binary64 JS Analytics.

Lemma fold_left_min_spec (xs : list Z) (x : Z) :
  In (fold_left Z.min xs x) (x :: xs) /\
  forall t, In t (x :: xs) -> fold_left Z.min xs x <= t.
Proof.
revert x. induction xs as [|y ys IH]; intros x; simpl.
- split; [now left | intros t [<-|[]]; lia].
- destruct (IH (Z.min x y)) as [Hin Hle]. split.
  + destruct Hin as [Heq|Hin]; [|right; now right].
    rewrite <- Heq. destruct (Z.min_spec x y) as [[_ ->]|[_ ->]]; [now left | right; now left].
  + intros t Ht.
    assert (Hm : fold_left Z.min ys (Z.min x y) <= Z.min x y) by (apply Hle; now left).
    destruct Ht as [<-|[<-|Ht]]; [lia | lia |].
    apply Hle. now right.
Qed.

Lemma fold_left_max_spec (xs : list Z) (x : Z) :
  In (fold_left Z.max xs x) (x :: xs) /\
  forall t, In t (x :: xs) -> t <= fold_left Z.max xs x.
Proof.
revert x. induction xs as [|y ys IH]; intros x; simpl.
- split; [now left | intros t [<-|[]]; lia].
- destruct (IH (Z.max x y)) as [Hin Hle]. split.
  + destruct Hin as [Heq|Hin]; [|right; now right].
    rewrite <- Heq. destruct (Z.max_spec x y) as [[_ ->]|[_ ->]]; [right; now left | now left].
  + intros t Ht.
    assert (Hm : Z.max x y <= fold_left Z.max ys (Z.max x y)) by (apply Hle; now left).
    destruct Ht as [<-|[<-|Ht]]; [lia | lia |].
    apply Hle. now right.
Qed.

Lemma Math_min_spread_earliest (ts : list Z) :
  ts <> [] -> Spec.earliest ts (Math_min_spread ts).
Proof.
destruct ts as [|t ts]; [contradiction|]. intros _.
unfold Math_min_spread. apply fold_left_min_spec.
Qed.

Lemma Math_max_spread_latest (ts : list Z) :
  ts <> [] -> Spec.latest ts (Math_max_spread ts).
Proof.
destruct ts as [|t ts]; [contradiction|]. intros _.
unfold Math_max_spread. apply fold_left_max_spec.
Qed.

Lemma earliest_unique (ts : list Z) (m m' : Z) :
  Spec.earliest ts m -> Spec.earliest ts m' -> m = m'.
Proof.
intros [Hin Hle] [Hin' Hle']. specialize (Hle _ Hin'). specialize (Hle' _ Hin). lia.
Qed.

Lemma latest_unique (ts : list Z) (m m' : Z) :
  Spec.latest ts m -> Spec.latest ts m' -> m = m'.
Proof.
intros [Hin Hle] [Hin' Hle']. specialize (Hle _ Hin'). specialize (Hle' _ Hin). lia.
Qed.

Lemma earliest_le_latest (ts : list Z) (lo hi : Z) :
  Spec.earliest ts lo -> Spec.latest ts hi -> lo <= hi.
Proof. intros [Hin _] [_ Hle]. now apply Hle. Qed.

Local Open Scope Q_scope.

(** The velocity in terms of the earliest and latest timestamps. *)
Lemma calculateLearningVelocity_span (cs : list Commit.t) (lo hi : Z) :
  cs <> [] ->
  Spec.earliest (map Commit.committedAt cs) lo ->
  Spec.latest (map Commit.committedAt cs) hi ->
  calculateLearningVelocity cs =
  if eqb (Spec.daysBetween lo hi) 0 then Spec.count cs
  else parseFloat_toFixed2 (fdiv (Spec.count cs) (Spec.daysBetween lo hi)).
Proof.
intros Hne Hlo Hhi. unfold calculateLearningVelocity.
rewrite (len_nonempty cs Hne). cbv zeta.
assert (Hm : map Commit.committedAt cs <> []).
{ intros E. apply map_eq_nil in E. contradiction. }
rewrite (earliest_unique _ _ _ (Math_min_spread_earliest _ Hm) Hlo).
rewrite (latest_unique _ _ _ (Math_max_spread_latest _ Hm) Hhi).
reflexivity.
Qed.

Lemma daysBetween_same (t : Z) : Spec.daysBetween t t = 0.
Proof.
unfold Spec.daysBetween, fdiv, fsub.
rewrite (rnd_zero (ofZ t - ofZ t)) by ring. apply rnd_zero. reflexivity.
Qed.

(** Two instants at least a millisecond apart are at least
    [1 / 86400000] days apart, rounded. *)
Lemma daysBetween_lower (lo hi : Z) :
  (lo < hi)%Z -> rnd (1 / 86400000) <= Spec.daysBetween lo hi.
Proof.
intros H. unfold Spec.daysBetween, fdiv, fsub, ofZ.
apply rnd_mono.
assert (H1 : 1 <= rnd (inject_Z hi - inject_Z lo)).
{ apply (rnd_ge_Z _ 1); [reflexivity|].
  unfold Qminus. rewrite <- inject_Z_opp, <- inject_Z_plus, <- Zle_Qle. lia. }
unfold Qdiv. apply Qmult_le_compat_r; [exact H1 | discriminate].
Qed.

Lemma Qdiv_le_bound (x X d delta : Q) :
  0 <= x -> x <= X -> 0 < delta -> delta <= d -> x / d <= X / delta.
Proof.
intros Hx HX Hdelta Hd.
apply Qle_shift_div_l; [assumption|].
apply Qle_trans with x; [|assumption].
setoid_replace (x / d * delta) with (x * delta / d) by (field; lra).
apply Qle_shift_div_r; [lra | nra].
Qed.

Lemma velocity_quotient_range (cs : list Commit.t) (lo hi : Z) :
  (len cs < 2 ^ 32)%Z -> (lo < hi)%Z ->
  0 <= fdiv (Spec.count cs) (Spec.daysBetween lo hi) /\
  fdiv (Spec.count cs) (Spec.daysBetween lo hi) < inject_Z (10 ^ 21).
Proof.
intros Hlen Hlt.
pose proof (daysBetween_lower lo hi Hlt) as Hd.
set (dd := Spec.daysBetween lo hi) in *.
assert (Hdelta : 0 < rnd (1 / 86400000)) by (vm_compute; reflexivity).
assert (Hc0 : 0 <= Spec.count cs) by apply count_nonneg.
assert (Hc1 : Spec.count cs <= inject_Z (2 ^ 32)).
{ unfold Spec.count, ofZ. rewrite <- Zle_Qle. unfold len in Hlen. lia. }
split.
- apply fdiv_nonneg; [assumption | lra].
- apply Qle_lt_trans with (rnd (inject_Z (2 ^ 32) / rnd (1 / 86400000)));
    [|vm_compute; reflexivity].
  unfold fdiv. apply rnd_mono. now apply Qdiv_le_bound.
Qed.

Lemma daysBetween_nonzero (lo hi : Z) :
  (lo < hi)%Z -> eqb (Spec.daysBetween lo hi) 0 = false.
Proof.
intros H. pose proof (daysBetween_lower lo hi H) as Hd.
assert (Hdelta : 0 < rnd (1 / 86400000)) by (vm_compute; reflexivity).
unfold eqb. destruct (Qeq_bool (Spec.daysBetween lo hi) 0) eqn:E; [|reflexivity].
apply Qeq_bool_iff in E. lra.
Qed.

(** C6. [calculateLearningVelocity] returns 0 for the empty commit list;
    the number of commits when the earliest and the latest timestamp are the
    same; otherwise the number of commits divided by the span in (fractional)
    days, rounded to 2 decimal places; 2 commits exactly 10 days apart give
    0.2.  (An array has fewer than 2^32 elements.) *)
Theorem calculateLearningVelocity_spec :
  calculateLearningVelocity [] = 0 /\
  (forall (cs : list Commit.t) (lo hi : Z),
     cs <> [] ->
     Spec.earliest (map Commit.committedAt cs) lo ->
     Spec.latest (map Commit.committedAt cs) hi ->
     (lo = hi -> calculateLearningVelocity cs = Spec.count cs) /\
     (lo <> hi -> (len cs < 2 ^ 32)%Z ->
        Spec.rounded_2dp (fdiv (Spec.count cs) (Spec.daysBetween lo hi))
          (calculateLearningVelocity cs))) /\
  (forall c1 c2 : Commit.t,
     Commit.committedAt c2 = (Commit.committedAt c1 + 10 * 86400000)%Z ->
     calculateLearningVelocity [c1; c2] = lit (2 # 10) /\
     calculateLearningVelocity [c2; c1] = lit (2 # 10)).
Proof.
split; [reflexivity|]. split.
- intros cs lo hi Hne Hlo Hhi.
  rewrite (calculateLearningVelocity_span cs lo hi Hne Hlo Hhi).
  pose proof (earliest_le_latest _ _ _ Hlo Hhi) as Hle.
  split.
  + intros <-. now rewrite daysBetween_same.
  + intros N Hlen. rewrite daysBetween_nonzero by lia.
    destruct (velocity_quotient_range cs lo hi Hlen) as [H0 H1]; [lia|].
    now apply parseFloat_toFixed2_rounded.
- intros c1 c2 H.
  assert (Hd : Spec.daysBetween (Commit.committedAt c1) (Commit.committedAt c2) = 10).
  { unfold Spec.daysBetween, fsub, ofZ. rewrite H.
    rewrite (rnd_comp _ (inject_Z (10 * 86400000))).
    - vm_compute. reflexivity.
    - rewrite inject_Z_plus. ring. }
  split.
  + rewrite (calculateLearningVelocity_span [c1; c2]
               (Commit.committedAt c1) (Commit.committedAt c2)).
    * rewrite Hd. vm_compute. reflexivity.
    * discriminate.
    * split; [now left | simpl; intros t [<-|[<-|[]]]; lia].
    * split; [right; now left | simpl; intros t [<-|[<-|[]]]; lia].
  + rewrite (calculateLearningVelocity_span [c2; c1]
               (Commit.committedAt c1) (Commit.committedAt c2)).
    * rewrite Hd. vm_compute. reflexivity.
    * discriminate.
    * split; [right; now left | simpl; intros t [<-|[<-|[]]]; lia].
    * split; [now left | simpl; intros t [<-|[<-|[]]]; lia].
Qed.

Lemma calculateLearningVelocity_spec_witness :
  calculateLearningVelocity [Sample.evening; Sample.tenDaysLater] = lit (2 # 10) /\
  calculateLearningVelocity [Sample.morning; Sample.morning; Sample.morning] = 3 /\
  Spec.rounded_2dp
    (fdiv 3 (Spec.daysBetween (Sample.now - 80000000) (Sample.now + 86400000)))
    (calculateLearningVelocity [Sample.morning; Sample.evening; Sample.nextDay]).
Proof.
destruct calculateLearningVelocity_spec as [_ [Hspan Hten]]. split; [|split].
- apply (Hten Sample.evening Sample.tenDaysLater). reflexivity.
- destruct (Hspan [Sample.morning; Sample.morning; Sample.morning]
              (Sample.now - 80000000)%Z (Sample.now - 80000000)%Z) as [Heq _].
  + discriminate.
  + split; [now left | intros t [<-|[<-|[<-|[]]]]; apply Z.le_refl].
  + split; [now left | intros t [<-|[<-|[<-|[]]]]; apply Z.le_refl].
  + now rewrite Heq.
- destruct (Hspan [Sample.morning; Sample.evening; Sample.nextDay]
              (Sample.now - 80000000)%Z (Sample.now + 86400000)%Z) as [_ Hne].
  + discriminate.
  + split; [now left | intros t [<-|[<-|[<-|[]]]]; vm_compute; discriminate].
  + split; [right; right; now left | intros t [<-|[<-|[<-|[]]]]; vm_compute; discriminate].
  + apply Hne; [vm_compute; discriminate | vm_compute; reflexivity].
Defined.

End LearningVelocity.

(* ================================================================== *)
(** * Project depth and depth / breadth ratio *)

Section Depth.
Import Binary64 JS Analytics.
Local Open Scope Q_scope.

Lemma Math_min_cap (cap x : number) :
  Math_min cap x = if ltb x cap then x else cap.
Proof. unfold Math_min, ltb. destruct (Qle_bool cap x); reflexivity. Qed.

Lemma cap_range (x cap : number) :
  0 <= x -> 0 <= cap ->
  0 <= (if ltb x cap then x else cap) /\ (if ltb x cap then x else cap) <= cap.
Proof.
intros Hx Hc. unfold ltb. destruct (Qle_bool cap x) eqn:E; simpl.
- split; [assumption | apply Qle_refl].
- split; [assumption|].
  destruct (Qlt_le_dec x cap) as [L|L]; [now apply Qlt_le_weak|].
  apply Qle_bool_iff in L. congruence.
Qed.

Lemma avgSize_nonneg (repositories : list Repository.t) :
  (forall r, In r repositories -> (0 <= Repository.size r)%Z) ->
  0 <= Spec.avgSize repositories.
Proof.
intros Hsz. unfold Spec.avgSize.
apply fdiv_nonneg; [|apply count_nonneg].
apply total_nonneg. apply Forall_forall. intros y Hy.
apply in_map_iff in Hy. destruct Hy as [r [<- Hr]].
unfold ofZ. change 0 with (inject_Z 0). rewrite <- Zle_Qle. now apply Hsz.
Qed.

Lemma sizeScore_range (repositories : list Repository.t) :
  (forall r, In r repositories -> (0 <= Repository.size r)%Z) ->
  0 <= Spec.sizeScore repositories /\ Spec.sizeScore repositories <= 100.
Proof.
intros Hsz. unfold Spec.sizeScore. cbv zeta. apply cap_range; [|discriminate].
apply fmul_nonneg; [|discriminate].
apply fdiv_nonneg; [|discriminate]. now apply avgSize_nonneg.
Qed.

Lemma densityScore_range (repositories : list Repository.t) (commits : list Commit.t) :
  0 <= Spec.densityScore repositories commits /\
  Spec.densityScore repositories commits <= 100.
Proof.
unfold Spec.densityScore. cbv zeta. apply cap_range; [|discriminate].
apply fmul_nonneg; [|discriminate].
apply fdiv_nonneg; apply count_nonneg.
Qed.

(** The weighted sum of two scores between 0 and 100 stays between 0 and
    100: each product and the sum are rounded, and rounding is monotone. *)
Lemma weighted_range (s d : number) :
  0 <= s -> s <= 100 -> 0 <= d -> d <= 100 ->
  0 <= fadd (fmul s (lit (4 # 10))) (fmul d (lit (6 # 10))) /\
  fadd (fmul s (lit (4 # 10))) (fmul d (lit (6 # 10))) <= 100.
Proof.
intros Hs0 Hs1 Hd0 Hd1.
assert (H4 : 0 < lit (4 # 10)) by (vm_compute; reflexivity).
assert (H6 : 0 < lit (6 # 10)) by (vm_compute; reflexivity).
assert (A0 : 0 <= fmul s (lit (4 # 10))) by (apply fmul_nonneg; lra).
assert (B0 : 0 <= fmul d (lit (6 # 10))) by (apply fmul_nonneg; lra).
assert (A1 : fmul s (lit (4 # 10)) <= 40).
{ change 40 with (fmul 100 (lit (4 # 10))). unfold fmul. apply rnd_mono.
  apply Qmult_le_compat_r; lra. }
assert (B1 : fmul d (lit (6 # 10)) <= 60).
{ change 60 with (fmul 100 (lit (6 # 10))). unfold fmul. apply rnd_mono.
  apply Qmult_le_compat_r; lra. }
split.
- unfold fadd. apply rnd_nonneg. lra.
- change 100 with (rnd (40 + 60)). unfold fadd. apply rnd_mono. lra.
Qed.

Lemma calculateProjectDepth_refines
  (repositories : list Repository.t) (commits : list Commit.t) :
  repositories <> [] ->
  calculateProjectDepth repositories commits =
  Math_round (Spec.depthScore repositories commits).
Proof.
intros Hne. unfold calculateProjectDepth.
rewrite (len_nonempty _ Hne). cbv zeta.
rewrite reduce_plus_total, !Math_min_cap.
unfold Spec.depthScore, Spec.sizeScore, Spec.densityScore, Spec.avgSize,
  Spec.count, lenN, len. cbv zeta.
reflexivity.
Qed.

(** C9. [calculateProjectDepth] returns 0 for the empty repository list;
    for a non-empty list of repositories with non-negative sizes it returns
    [round(sizeScore * 0.4 + densityScore * 0.6)] with
    [sizeScore = min(100, avgSize / 1000 * 100)] and
    [densityScore = min(100, commitCount / repositoryCount * 5)], an integer
    between 0 and 100. *)
Theorem calculateProjectDepth_spec :
  (forall commits : list Commit.t, calculateProjectDepth [] commits = 0) /\
  (forall (repositories : list Repository.t) (commits : list Commit.t),
     repositories <> [] ->
     (forall r, In r repositories -> (0 <= Repository.size r)%Z) ->
     let depthScore := Spec.depthScore repositories commits in
     calculateProjectDepth repositories commits = Math_round depthScore /\
     Spec.nearest_integer depthScore (calculateProjectDepth repositories commits) /\
     exists k : Z,
       calculateProjectDepth repositories commits = inject_Z k /\ (0 <= k <= 100)%Z).
Proof.
split; [reflexivity|].
intros repositories commits Hne Hsz depthScore.
rewrite (calculateProjectDepth_refines repositories commits Hne). fold depthScore.
split; [reflexivity|]. split; [apply Math_round_is_nearest_integer|].
destruct (sizeScore_range repositories Hsz) as [S0 S1].
destruct (densityScore_range repositories commits) as [D0 D1].
destruct (weighted_range _ _ S0 S1 D0 D1) as [W0 W1].
apply Math_round_range; assumption.
Qed.

Lemma calculateProjectDepth_spec_witness :
  calculateProjectDepth [Sample.repo 1 500; Sample.repo 2 1500]
    [Sample.morning; Sample.evening; Sample.nextDay] = 45.
Proof.
destruct calculateProjectDepth_spec as [_ H].
destruct (H [Sample.repo 1 500; Sample.repo 2 1500]
            [Sample.morning; Sample.evening; Sample.nextDay]) as [-> _].
- discriminate.
- intros r [<-|[<-|[]]]; vm_compute; discriminate.
- vm_compute. reflexivity.
Defined.

Lemma depth_quotient_range (repositories : list Repository.t)
  (commits : list Commit.t) (languages : list LanguageProficiency.t) :
  repositories <> [] -> languages <> [] -> (len commits < 2 ^ 32)%Z ->
  0 <= fdiv (fdiv (Spec.count commits) (Spec.count repositories)) (Spec.count languages) /\
  fdiv (fdiv (Spec.count commits) (Spec.count repositories)) (Spec.count languages)
    < inject_Z (10 ^ 21).
Proof.
intros Hr Hl Hlen.
assert (Hc0 : 0 <= Spec.count commits) by apply count_nonneg.
assert (Hc1 : Spec.count commits <= inject_Z (2 ^ 32)).
{ unfold Spec.count, ofZ. rewrite <- Zle_Qle. unfold len in Hlen. lia. }
destruct (quotient_by_count _ repositories Hc0 Hr) as [Q0 Q1].
assert (D0 : 0 <= fdiv (Spec.count commits) (Spec.count repositories)).
{ unfold fdiv. now apply rnd_nonneg. }
assert (D1 : fdiv (Spec.count commits) (Spec.count repositories) <= inject_Z (2 ^ 32)).
{ unfold fdiv. apply rnd_le_Z; [reflexivity | lra]. }
destruct (quotient_by_count _ languages D0 Hl) as [R0 R1].
split.
- unfold fdiv at 1. now apply rnd_nonneg.
- apply Qle_lt_trans with (inject_Z (2 ^ 32)); [|reflexivity].
  unfold fdiv at 1. apply rnd_le_Z; [reflexivity | lra].
Qed.

(** C8. [calculateDepthBreadthRatio] returns 0 whenever there is no
    repository or no language, whatever the commits; otherwise it returns
    [(commitCount / repositoryCount) / languageCount] rounded to 2 decimal
    places, which is never negative.  (An array has fewer than 2^32
    elements.) *)
Theorem calculateDepthBreadthRatio_spec :
  (forall (repositories : list Repository.t) (commits : list Commit.t)
          (languages : list LanguageProficiency.t),
     repositories = [] \/ languages = [] ->
     calculateDepthBreadthRatio repositories commits languages = 0) /\
  (forall (repositories : list Repository.t) (commits : list Commit.t)
          (languages : list LanguageProficiency.t),
     repositories <> [] -> languages <> [] -> (len commits < 2 ^ 32)%Z ->
     Spec.rounded_2dp
       (fdiv (fdiv (Spec.count commits) (Spec.count repositories))
             (Spec.count languages))
       (calculateDepthBreadthRatio repositories commits languages) /\
     0 <= calculateDepthBreadthRatio repositories commits languages).
Proof.
split.
- intros repositories commits languages [-> | ->];
    unfold calculateDepthBreadthRatio; simpl; [reflexivity|].
  now rewrite orb_true_r.
- intros repositories commits languages Hr Hl Hlen.
  unfold calculateDepthBreadthRatio.
  rewrite (len_nonempty _ Hr), (len_nonempty _ Hl). cbv zeta. simpl orb. cbv iota.
  destruct (depth_quotient_range repositories commits languages Hr Hl Hlen) as [H0 H1].
  split.
  + now apply parseFloat_toFixed2_rounded.
  + now apply parseFloat_toFixed2_sign.
Qed.

Lemma calculateDepthBreadthRatio_spec_witness :
  calculateDepthBreadthRatio [] [Sample.morning] [Sample.go] = 0 /\
  calculateDepthBreadthRatio [Sample.repo 1 500; Sample.repo 2 1500]
    [Sample.morning; Sample.evening; Sample.nextDay] [Sample.go] = lit (15 # 10) /\
  0 <= calculateDepthBreadthRatio [Sample.repo 1 500; Sample.repo 2 1500]
         [Sample.morning; Sample.evening; Sample.nextDay] [Sample.go].
Proof.
destruct calculateDepthBreadthRatio_spec as [Hzero Hratio]. split; [|split].
- apply Hzero. now left.
- vm_compute. reflexivity.
- apply (Hratio [Sample.repo 1 500; Sample.repo 2 1500]
           [Sample.morning; Sample.evening; Sample.nextDay] [Sample.go]);
    [discriminate | discriminate | vm_compute; reflexivity].
Defined.

End Depth.

(* ================================================================== *)
(** * Commit patterns *)

Section PatternThresholds.
Import Binary64 JS Analytics.

Lemma obj_get_Some_In (k v : Z) (o : list (Z * Z)) :
  obj_get k o = Some v -> In (k, v) o.
Proof.
induction o as [|[k' v'] o IH]; simpl; [discriminate|].
destruct (k =? k') eqn:E.
- apply Z.eqb_eq in E. subst k'. intros H. inversion H. now left.
- intros H. right. now apply IH.
Qed.

Lemma idx_set_In (k v : Z) (kv : Z * Z) (o : list (Z * Z)) :
  In kv (idx_set k v o) -> kv = (k, v) \/ In kv o.
Proof.
induction o as [|[k' v'] o IH]; simpl.
- intros [<-|[]]. now left.
- destruct (k =? k').
  + intros [<-|H]; [now left | right; now right].
  + destruct (k <? k').
    * intros [<-|H]; [now left | now right].
    * intros [<-|H]; [right; now left|].
      destruct (IH H) as [->|Hin]; [now left | right; now right].
Qed.

Lemma or0_nonneg (k : Z) (o : list (Z * Z)) :
  Forall (fun kv => 0 <= snd kv) o -> 0 <= or0 (obj_get k o).
Proof.
intros H. destruct (obj_get k o) as [v|] eqn:E; simpl; [|lia].
apply obj_get_Some_In in E. rewrite Forall_forall in H.
specialize (H _ E). simpl in H. destruct (v =? 0); lia.
Qed.

Lemma weekday_fold_nonneg (e : Env) (cs : list Commit.t) (o : list (Z * Z)) :
  Forall (fun kv => 0 <= snd kv) o ->
  Forall (fun kv => 0 <= snd kv)
    (fold_left
       (fun o commit =>
          let dayOfWeek := getDay e (Commit.committedAt commit) in
          idx_set dayOfWeek (or0 (obj_get dayOfWeek o) + 1) o)
       cs o).
Proof.
revert o. induction cs as [|c cs IH]; intros o H; simpl; [assumption|].
apply IH. apply Forall_forall. intros kv Hin.
apply idx_set_In in Hin. destruct Hin as [->|Hin].
- simpl. pose proof (or0_nonneg (getDay e (Commit.committedAt c)) o H). lia.
- rewrite Forall_forall in H. now apply H.
Qed.

Lemma weekday_values_nonneg (e : Env) (cs : list Commit.t) :
  Forall (fun x => 0 <= x) (Object_values (commitsByDayOfWeek e cs)).
Proof.
unfold Object_values, commitsByDayOfWeek.
apply Forall_forall. intros x Hx. apply in_map_iff in Hx.
destruct Hx as [kv [<- Hin]].
pose proof (weekday_fold_nonneg e cs [] (Forall_nil _)) as H.
rewrite Forall_forall in H. now apply H.
Qed.

Local Open Scope Q_scope.

(** The two thresholds exclude each other: the products are rounded, and
    rounding is monotone. *)
Lemma thresholds_exclusive (stdDev mean : number) :
  0 <= mean ->
  ~ (gtb stdDev (fmul mean (lit (5 # 10))) = true /\
     ltb stdDev (fmul mean (lit (3 # 10))) = true).
Proof.
intros Hm [Hb Hc]. unfold gtb in Hb. unfold ltb in Hc.
apply negb_true_iff in Hb. apply negb_true_iff in Hc.
assert (H35 : lit (3 # 10) <= lit (5 # 10)) by (vm_compute; discriminate).
assert (Hle : fmul mean (lit (3 # 10)) <= fmul mean (lit (5 # 10))).
{ unfold fmul. apply rnd_mono. rewrite !(Qmult_comm mean).
  now apply Qmult_le_compat_r. }
destruct (Qlt_le_dec (fmul mean (lit (5 # 10))) stdDev) as [L1|L1];
  [|apply Qle_bool_iff in L1; congruence].
destruct (Qlt_le_dec stdDev (fmul mean (lit (3 # 10)))) as [L2|L2];
  [|apply Qle_bool_iff in L2; congruence].
lra.
Qed.

(** C5. [analyzeCommitPatterns] never reports a pattern that is both bursty
    and consistent, and for the empty commit list it returns
    [{averageCommitsPerDay: 0, peakDay: "Monday", burstyPattern: false,
    consistentPattern: false}]. *)
Theorem analyzeCommitPatterns_spec :
  (forall (e : Env) (cs : list Commit.t),
     ~ (CommitPatterns.burstyPattern (analyzeCommitPatterns e cs) = true /\
        CommitPatterns.consistentPattern (analyzeCommitPatterns e cs) = true)) /\
  (forall e : Env,
     analyzeCommitPatterns e [] =
     CommitPatterns.mk 0 "Monday" false false).
Proof.
split; [|reflexivity].
intros e cs. unfold analyzeCommitPatterns.
destruct (len cs =? 0)%Z.
- simpl. intros [H _]. discriminate.
- cbv zeta. simpl CommitPatterns.burstyPattern. simpl CommitPatterns.consistentPattern.
  apply thresholds_exclusive.
  rewrite reduce_plus_total. apply (mean_nonneg (Object_values (commitsByDayOfWeek e cs))).
  apply weekday_values_nonneg.
Qed.

(** Two commits on one Tuesday: 2 / 7 is 0.29 to two decimals, the only
    weekday bucket has no deviation, the pattern is consistent. *)
Lemma analyzeCommitPatterns_spec_witness :
  ~ (CommitPatterns.burstyPattern
       (analyzeCommitPatterns (utcEnv Sample.now) [Sample.morning; Sample.nextDay]) = true /\
     CommitPatterns.consistentPattern
       (analyzeCommitPatterns (utcEnv Sample.now) [Sample.morning; Sample.nextDay]) = true) /\
  analyzeCommitPatterns (utcEnv Sample.now) [] = CommitPatterns.mk 0 "Monday" false false /\
  analyzeCommitPatterns (utcEnv Sample.now) [Sample.morning; Sample.evening] =
    CommitPatterns.mk (lit (29 # 100)) "Tuesday" false true.
Proof.
split; [|split].
- apply (proj1 analyzeCommitPatterns_spec).
- apply (proj2 analyzeCommitPatterns_spec).
- vm_compute. reflexivity.
Defined.

End PatternThresholds.

(* ================================================================== *)
(** * Growth language ranking *)

Section GrowthLanguages.
Import JS Analytics.

Local Abbreviation cc := LanguageProficiency.commitCount.
Local Abbreviation desc := (fun a b : LanguageProficiency.t => cc b <= cc a).

Lemma sort_insert_Permutation {A : Type} (cmp : A -> A -> Z) (x : A) (l : list A) :
  Permutation (x :: l) (sort_insert cmp x l).
Proof.
induction l as [|y l IH]; simpl; [apply Permutation_refl|].
destruct (cmp x y <=? 0); [apply Permutation_refl|].
eapply Permutation_trans; [apply perm_swap|]. now apply perm_skip.
Qed.

Lemma sort_Permutation {A : Type} (cmp : A -> A -> Z) (l : list A) :
  Permutation l (sort cmp l).
Proof.
induction l as [|x l IH]; simpl; [constructor|].
eapply Permutation_trans; [apply perm_skip, IH | apply sort_insert_Permutation].
Qed.

Lemma sort_insert_sorted (x : LanguageProficiency.t) (l : list LanguageProficiency.t) :
  StronglySorted desc l -> StronglySorted desc (sort_insert byCommitCountDesc x l).
Proof.
induction 1 as [|y l Hs IH Hall]; simpl.
- repeat constructor.
- unfold byCommitCountDesc at 1.
  destruct (cc y - cc x <=? 0) eqn:E.
  + apply Z.leb_le in E. constructor; [now constructor|].
    constructor; [lia|].
    eapply Forall_impl; [|exact Hall]. simpl. intros z Hz. lia.
  + apply Z.leb_gt in E. constructor; [assumption|].
    eapply Permutation_Forall; [apply sort_insert_Permutation|].
    constructor; [lia | assumption].
Qed.

Lemma sort_sorted (l : list LanguageProficiency.t) :
  StronglySorted desc (sort byCommitCountDesc l).
Proof.
induction l as [|x l IH]; simpl; [constructor | now apply sort_insert_sorted].
Qed.

Lemma sort_insert_stable (k : Z) (x : LanguageProficiency.t)
  (l : list LanguageProficiency.t) :
  filter (Spec.count_is k) (sort_insert byCommitCountDesc x l) =
  filter (Spec.count_is k) (x :: l).
Proof.
induction l as [|y l IH]; [reflexivity|].
simpl sort_insert. unfold byCommitCountDesc at 1.
destruct (cc y - cc x <=? 0) eqn:E; [reflexivity|].
apply Z.leb_gt in E.
simpl filter at 1. rewrite IH. simpl. unfold Spec.count_is.
destruct (cc x =? k) eqn:Ex; destruct (cc y =? k) eqn:Ey; try reflexivity.
apply Z.eqb_eq in Ex. apply Z.eqb_eq in Ey. lia.
Qed.

Lemma sort_stable (k : Z) (l : list LanguageProficiency.t) :
  filter (Spec.count_is k) (sort byCommitCountDesc l) = filter (Spec.count_is k) l.
Proof.
induction l as [|x l IH]; [reflexivity|].
simpl sort. rewrite sort_insert_stable. simpl. now rewrite IH.
Qed.

(** [Array.prototype.sort] with the engine's comparator orders the entries
    by descending commit count and keeps the order of equal counts. *)
Lemma sort_sorted_desc_stable (l : list LanguageProficiency.t) :
  Spec.sorted_desc_stable l (sort byCommitCountDesc l).
Proof.
split; [apply sort_Permutation|]. split; [apply sort_sorted|].
intros k. apply sort_stable.
Qed.

Lemma filter_count_is_head (a : LanguageProficiency.t) (l : list LanguageProficiency.t) :
  filter (Spec.count_is (cc a)) (a :: l) = a :: filter (Spec.count_is (cc a)) l.
Proof. simpl. unfold Spec.count_is at 1. now rewrite Z.eqb_refl. Qed.

Lemma filter_count_is_In (k : Z) (a : LanguageProficiency.t)
  (l : list LanguageProficiency.t) :
  In a (filter (Spec.count_is k) l) <-> In a l /\ cc a = k.
Proof. rewrite filter_In. unfold Spec.count_is. now rewrite Z.eqb_eq. Qed.

Lemma sorted_head_max (a b : LanguageProficiency.t) (l : list LanguageProficiency.t) :
  StronglySorted desc (a :: l) -> In b (a :: l) -> cc b <= cc a.
Proof.
intros Hs [<-|Hin]; [lia|].
inversion Hs as [|? ? _ Hall]; subst.
rewrite Forall_forall in Hall. now apply Hall.
Qed.

(** A list has one stable descending arrangement. *)
Lemma stable_sort_unique (s1 s2 : list LanguageProficiency.t) :
  StronglySorted desc s1 -> StronglySorted desc s2 ->
  (forall k, filter (Spec.count_is k) s1 = filter (Spec.count_is k) s2) ->
  s1 = s2.
Proof.
revert s2. induction s1 as [|a s1 IH]; intros s2 H1 H2 Hf.
- destruct s2 as [|b s2]; [reflexivity|].
  specialize (Hf (cc b)). rewrite filter_count_is_head in Hf. discriminate.
- destruct s2 as [|b s2].
  + specialize (Hf (cc a)). rewrite filter_count_is_head in Hf. discriminate.
  + assert (Hab : cc a = cc b).
    { assert (Ha : In a (b :: s2)).
      { apply (filter_count_is_In (cc a)). rewrite <- Hf.
        rewrite filter_count_is_head. now left. }
      assert (Hb : In b (a :: s1)).
      { apply (filter_count_is_In (cc b)). rewrite Hf.
        rewrite filter_count_is_head. now left. }
      pose proof (sorted_head_max _ _ _ H2 Ha).
      pose proof (sorted_head_max _ _ _ H1 Hb). lia. }
    pose proof (Hf (cc a)) as Hhead.
    rewrite filter_count_is_head in Hhead.
    rewrite Hab in Hhead at 2. rewrite filter_count_is_head in Hhead.
    inversion Hhead as [[Heq Htail]]. subst b. f_equal.
    inversion H1; inversion H2; subst.
    apply IH; try assumption.
    intros k. destruct (Z.eq_dec k (cc a)) as [->|N].
    * exact Htail.
    * specialize (Hf k). simpl in Hf.
      assert (E : Spec.count_is k a = false).
      { unfold Spec.count_is. apply Z.eqb_neq. congruence. }
      now rewrite E in Hf.
Qed.

Lemma sorted_desc_stable_unique (l s1 s2 : list LanguageProficiency.t) :
  Spec.sorted_desc_stable l s1 -> Spec.sorted_desc_stable l s2 -> s1 = s2.
Proof.
intros [_ [H1 F1]] [_ [H2 F2]]. apply stable_sort_unique; try assumption.
intros k. now rewrite F1, F2.
Qed.

Lemma slice0_all {A : Type} (n : Z) (a : list A) :
  Z.of_nat (List.length a) <= n -> slice0 n a = a.
Proof.
intros H. unfold slice0.
destruct (n <? 0) eqn:E; [apply Z.ltb_lt in E; lia|].
apply firstn_all2. lia.
Qed.

Lemma growthOf_ranked (lang : LanguageProficiency.t) : growthOf lang = Spec.ranked lang.
Proof. reflexivity. Qed.

(** C7. With [N] at least the number of entries, [identifyGrowthLanguages]
    returns all the entries in descending order of commit count, equal
    counts in their original order, each with its tier ("High" above 100,
    "Medium" above 50, else "Low"); for (TypeScript,150), (Python,75),
    (JavaScript,30) and [N = 2] it returns (TypeScript,150,"High"),
    (Python,75,"Medium"). *)
Theorem identifyGrowthLanguages_ranking :
  (forall (languages : list LanguageProficiency.t) (topN : option Z),
     len languages <= default_arg 3 topN ->
     (exists sorted, Spec.sorted_desc_stable languages sorted) /\
     forall sorted : list LanguageProficiency.t,
       Spec.sorted_desc_stable languages sorted ->
       snd (identifyGrowthLanguages languages topN) = map Spec.ranked sorted) /\
  (forall ts py js : LanguageProficiency.t,
     LanguageProficiency.language ts = "TypeScript"%string -> cc ts = 150 ->
     LanguageProficiency.language py = "Python"%string -> cc py = 75 ->
     LanguageProficiency.language js = "JavaScript"%string -> cc js = 30 ->
     snd (identifyGrowthLanguages [ts; py; js] (Some 2)) =
     [Growth.mk "TypeScript" 150 "High"; Growth.mk "Python" 75 "Medium"]).
Proof.
split.
- intros languages topN HN.
  pose proof (sort_sorted_desc_stable languages) as Hsort.
  split; [now exists (sort byCommitCountDesc languages)|].
  intros sorted Hsorted.
  rewrite (sorted_desc_stable_unique _ _ _ Hsorted Hsort).
  unfold identifyGrowthLanguages. cbv zeta. simpl snd.
  rewrite slice0_all.
  + apply map_ext. intros lang. apply growthOf_ranked.
  + rewrite <- (Permutation_length (sort_Permutation byCommitCountDesc languages)).
    exact HN.
- intros [? ? tsName tsCount ? ? ? ? ?] [? ? pyName pyCount ? ? ? ? ?]
         [? ? jsName jsCount ? ? ? ? ?].
  simpl. intros -> -> -> -> -> ->. reflexivity.
Qed.

Lemma identifyGrowthLanguages_ranking_witness :
  snd (identifyGrowthLanguages
         [Sample.javascript; Sample.python; Sample.kotlin; Sample.typescript]
         (Some 4)) =
  map Spec.ranked
    [Sample.typescript; Sample.python; Sample.kotlin; Sample.javascript] /\
  snd (identifyGrowthLanguages
         [Sample.typescript; Sample.python; Sample.javascript] (Some 2)) =
  [Growth.mk "TypeScript" 150 "High"; Growth.mk "Python" 75 "Medium"].
Proof.
destruct identifyGrowthLanguages_ranking as [Hall Hscenario]. split.
- destruct (Hall [Sample.javascript; Sample.python; Sample.kotlin; Sample.typescript]
              (Some 4)) as [_ Hsorted]; [vm_compute; discriminate|].
  apply Hsorted. split; [|split].
  + apply (Permutation_cons_app [Sample.typescript; Sample.python; Sample.kotlin] []).
    apply (Permutation_cons_app [Sample.typescript] [Sample.kotlin]).
    apply (Permutation_cons_app [Sample.typescript] []).
    apply Permutation_refl.
  + repeat constructor; vm_compute; discriminate.
  + intros k. cbn [filter]. unfold Spec.count_is.
    change (cc Sample.typescript) with 150. change (cc Sample.python) with 75.
    change (cc Sample.kotlin) with 75. change (cc Sample.javascript) with 30.
    destruct (Z.eqb_spec 150 k), (Z.eqb_spec 75 k), (Z.eqb_spec 30 k);
      try reflexivity; exfalso; lia.
- apply Hscenario; reflexivity.
Defined.

(** C1, at its failing input.  The sort works on the caller's array: called
    on [Python (75), TypeScript (150)], [identifyGrowthLanguages] leaves the
    array as [TypeScript, Python]. *)
Theorem identifyGrowthLanguages_reorders_input :
  fst (identifyGrowthLanguages [Sample.python; Sample.typescript] (Some 2)) =
  [Sample.typescript; Sample.python] /\
  fst (identifyGrowthLanguages [Sample.python; Sample.typescript] (Some 2)) <>
  [Sample.python; Sample.typescript].
Proof.
split; [reflexivity|]. simpl. intros H. inversion H.
Qed.

(** What the call leaves in the caller's array: the same entries, sorted;
    the array is unchanged exactly when it was sorted already. *)
Lemma identifyGrowthLanguages_array_after
  (languages : list LanguageProficiency.t) (topN : option Z) :
  Spec.sorted_desc_stable languages (fst (identifyGrowthLanguages languages topN)).
Proof. apply sort_sorted_desc_stable. Qed.

End GrowthLanguages.

(* ================================================================== *)
(** * New languages and the reference time *)

Section NewLanguages.
Import JS Analytics.

(** With a valid cutoff Date the filter keeps the entries first seen at
    the cutoff or later; with an Invalid Date it keeps nothing. *)
Lemma identifyNewLanguages_firstSeenSince (e : Env)
  (languages : list LanguageProficiency.t) (timeWindowDays : option Z) (t : Z) :
  cutoffDate e (default_arg 90 timeWindowDays) = Some t ->
  identifyNewLanguages e languages timeWindowDays = Spec.firstSeenSince t languages.
Proof.
intros H. unfold identifyNewLanguages. cbv zeta. rewrite H. unfold Date_ge.
induction languages as [|lang rest IH]; [reflexivity|].
simpl. destruct (_ <=? _); simpl; now rewrite IH.
Qed.

Lemma identifyNewLanguages_invalid_cutoff (e : Env)
  (languages : list LanguageProficiency.t) (timeWindowDays : option Z) :
  cutoffDate e (default_arg 90 timeWindowDays) = None ->
  identifyNewLanguages e languages timeWindowDays = [].
Proof.
intros H. unfold identifyNewLanguages. cbv zeta. rewrite H.
induction languages as [|lang rest IH]; [reflexivity | exact IH].
Qed.

Lemma TimeClip_Some (x t : Z) : TimeClip x = Some t -> t = x.
Proof.
unfold TimeClip. destruct (Z.abs x <=? maxTime); [|discriminate].
intros H. now inversion H.
Qed.

Lemma firstSeenSince_In (lo : Z) (languages : list LanguageProficiency.t)
  (name : string) :
  In name (Spec.firstSeenSince lo languages) <->
  exists lang, In lang languages /\ LanguageProficiency.language lang = name /\
               lo <= LanguageProficiency.firstSeenAt lang.
Proof.
induction languages as [|lang rest IH]; simpl.
- split; [intros [] | intros [l [[] _]]].
- destruct (lo <=? LanguageProficiency.firstSeenAt lang) eqn:E.
  + apply Z.leb_le in E. simpl. rewrite IH. split.
    * intros [<-|[l [Hin H]]]; [exists lang; auto | exists l; auto].
    * intros [l [[<-|Hin] [Hn Hl]]]; [now left | right; exists l; auto].
  + apply Z.leb_gt in E. rewrite IH. split.
    * intros [l [Hin H]]. exists l; auto.
    * intros [l [[<-|Hin] [Hn Hl]]]; [lia | exists l; auto].
Qed.

(** On a host whose UTC offset does not change, moving the clock back [n]
    calendar days moves it back [n] times 24 hours; the result is a Date
    when it lies in the range of Dates. *)
Lemma cutoffDate_fixed_offset (e : Env) (n offset : Z) :
  (forall t b, LocalTZA e t b = offset) ->
  cutoffDate e n = TimeClip (clock e - n * 86400000).
Proof.
intros H. unfold cutoffDate, setDate_minus, UTC, LocalTime, new_Date.
rewrite !H. change msPerDay with 86400000. f_equal. lia.
Qed.

(** C2, as the code has it.  The cutoff is the clock of the host at the
    call moved back [windowDays] calendar days in local time; on a host
    whose UTC offset does not change that is [now - windowDays] days of 24
    hours when this instant lies within 8.64e15 ms of the epoch, and the
    Invalid Date otherwise.  With a valid cutoff [identifyNewLanguages]
    returns exactly the names of the entries whose [firstSeenAt] is at or
    after the cutoff, in the order of the input; with the Invalid Date it
    returns nothing.  There is no upper bound. *)
Theorem identifyNewLanguages_lower_bound (e : Env)
  (languages : list LanguageProficiency.t) (timeWindowDays : option Z) :
  let cutoff := cutoffDate e (default_arg 90 timeWindowDays) in
  (forall t : Z, cutoff = Some t ->
     identifyNewLanguages e languages timeWindowDays =
       Spec.firstSeenSince t languages /\
     forall name,
       In name (identifyNewLanguages e languages timeWindowDays) <->
       exists lang, In lang languages /\ LanguageProficiency.language lang = name /\
                    t <= LanguageProficiency.firstSeenAt lang) /\
  (cutoff = None -> identifyNewLanguages e languages timeWindowDays = []) /\
  (forall offset, (forall t b, LocalTZA e t b = offset) ->
     let t := clock e - default_arg 90 timeWindowDays * 86400000 in
     cutoff = if Z.abs t <=? 8640000000000000 then Some t else None).
Proof.
intros cutoff. split; [|split].
- intros t Ht. split; [now apply identifyNewLanguages_firstSeenSince|].
  intros name. rewrite (identifyNewLanguages_firstSeenSince e _ _ t Ht).
  apply firstSeenSince_In.
- apply identifyNewLanguages_invalid_cutoff.
- intros offset H. cbv zeta. unfold cutoff.
  now rewrite (cutoffDate_fixed_offset e _ offset H).
Qed.

(** With the clock at [Sample.now] on a UTC host and the default window,
    the cutoff is 90 days of 24 hours before [Sample.now]; with a window of
    100019676 days the cutoff is the Invalid Date and nothing is returned. *)
Lemma identifyNewLanguages_lower_bound_witness :
  identifyNewLanguages (utcEnv Sample.now)
    [Sample.go; Sample.typescript; Sample.rust] None =
    ["Go"; "TypeScript"; "Rust"]%string /\
  cutoffDate (utcEnv Sample.now) 90 = Some (Sample.now - 90 * 86400000) /\
  cutoffDate (utcEnv Sample.now) 100019676 = None /\
  identifyNewLanguages (utcEnv Sample.now)
    [Sample.go; Sample.typescript] (Some 100019676) = [].
Proof.
destruct (identifyNewLanguages_lower_bound (utcEnv Sample.now)
            [Sample.go; Sample.typescript; Sample.rust] None) as [Hres [_ Hcut]].
destruct (identifyNewLanguages_lower_bound (utcEnv Sample.now)
            [Sample.go; Sample.typescript] (Some 100019676)) as [_ [Hinvalid _]].
split; [|split; [|split]].
- destruct (Hres (Sample.now - 90 * 86400000)) as [-> _]; reflexivity.
- exact (Hcut 0 (fun _ _ => eq_refl)).
- reflexivity.
- apply Hinvalid. reflexivity.
Defined.

(** C2 fails as stated: a language whose [firstSeenAt] is one day after the
    clock of the host (and whose [lastSeenAt] is not before it) is returned,
    although it lies outside [[now - windowDays, now]]. *)
Lemma identifyNewLanguages_no_upper_bound :
  LanguageProficiency.firstSeenAt Sample.rust <=
    LanguageProficiency.lastSeenAt Sample.rust /\
  LanguageProficiency.firstSeenAt Sample.go <=
    LanguageProficiency.lastSeenAt Sample.go /\
  identifyNewLanguages (utcEnv Sample.now) [Sample.go; Sample.rust] (Some 90) =
    ["Go"; "Rust"]%string /\
  Spec.firstSeenWithin (Sample.now - 90 * 86400000) Sample.now
    [Sample.go; Sample.rust] = ["Go"]%string /\
  identifyNewLanguages (utcEnv Sample.now) [Sample.go; Sample.rust] (Some 90) <>
  Spec.firstSeenWithin (Sample.now - 90 * 86400000) Sample.now
    [Sample.go; Sample.rust].
Proof.
split; [vm_compute; discriminate|]. split; [vm_compute; discriminate|].
split; [reflexivity|]. split; [reflexivity|]. vm_compute. discriminate.
Qed.

End NewLanguages.

Section ReferenceTime.
Import JS Analytics.

Lemma cutoffDate_same_host (e1 e2 : Env) (n : Z) :
  clock e1 = clock e2 ->
  (forall t b, LocalTZA e1 t b = LocalTZA e2 t b) ->
  cutoffDate e1 n = cutoffDate e2 n.
Proof.
intros Hc Hz. unfold cutoffDate, setDate_minus, UTC, LocalTime, new_Date.
now rewrite Hc, !Hz.
Qed.

(** C3, as the code has it.  [calculateSkillGrowthTrend] and
    [identifyNewLanguages] have no [now] parameter: they read the clock of
    the host.  Two calls with equal arguments return equal results when the
    clock reads the same instant at both calls (on hosts with the same time
    zone). *)
Theorem reference_time_is_the_host_clock (e1 e2 : Env)
  (languages : list LanguageProficiency.t) (commits : list Commit.t)
  (timeWindowDays : option Z) :
  clock e1 = clock e2 ->
  (forall t b, LocalTZA e1 t b = LocalTZA e2 t b) ->
  calculateSkillGrowthTrend e1 languages commits timeWindowDays =
    calculateSkillGrowthTrend e2 languages commits timeWindowDays /\
  identifyNewLanguages e1 languages timeWindowDays =
    identifyNewLanguages e2 languages timeWindowDays.
Proof.
intros Hc Hz.
unfold calculateSkillGrowthTrend, identifyNewLanguages. cbv zeta.
now rewrite (cutoffDate_same_host e1 e2 _ Hc Hz).
Qed.

Lemma reference_time_is_the_host_clock_witness :
  calculateSkillGrowthTrend (utcEnv Sample.now) [Sample.go]
    [Sample.morning; Sample.evening] (Some 90) =
    calculateSkillGrowthTrend (mkEnv Sample.now (fun t _ => t - t)) [Sample.go]
      [Sample.morning; Sample.evening] (Some 90) /\
  identifyNewLanguages (utcEnv Sample.now) [Sample.go] (Some 90) =
    identifyNewLanguages (mkEnv Sample.now (fun t _ => t - t)) [Sample.go] (Some 90).
Proof.
apply (reference_time_is_the_host_clock
         (utcEnv Sample.now) (mkEnv Sample.now (fun t _ => t - t))
         [Sample.go] [Sample.morning; Sample.evening] (Some 90)).
- reflexivity.
- intros t b. simpl. lia.
Defined.

(** C3 fails as stated: the result is not a function of the arguments.
    The same languages and the same window give ["Go"] on a host whose clock
    reads [Sample.now] and nothing on a host whose clock reads a year later;
    the same holds for the growth trend of one commit (100 and 0). *)
Lemma reference_time_is_not_an_argument :
  identifyNewLanguages (utcEnv Sample.now) [Sample.go] (Some 90) = ["Go"]%string /\
  identifyNewLanguages (utcEnv (Sample.now + 365 * 86400000)) [Sample.go] (Some 90) = [] /\
  calculateSkillGrowthTrend (utcEnv Sample.now) [Sample.go] [Sample.evening] (Some 90)
    = 100%Q /\
  calculateSkillGrowthTrend (utcEnv (Sample.now + 365 * 86400000))
    [Sample.go] [Sample.evening] (Some 90) = 0%Q /\
  ~ (forall (e1 e2 : Env) (languages : list LanguageProficiency.t)
            (commits : list Commit.t) (timeWindowDays : option Z),
       calculateSkillGrowthTrend e1 languages commits timeWindowDays =
         calculateSkillGrowthTrend e2 languages commits timeWindowDays /\
       identifyNewLanguages e1 languages timeWindowDays =
         identifyNewLanguages e2 languages timeWindowDays).
Proof.
split; [reflexivity|]. split; [reflexivity|].
split; [vm_compute; reflexivity|]. split; [reflexivity|].
intros H.
destruct (H (utcEnv Sample.now) (utcEnv (Sample.now + 365 * 86400000))
            [Sample.go] [Sample.evening] (Some 90)) as [_ Hn].
discriminate Hn.
Qed.

End ReferenceTime.

(* ================================================================== *)
(** * The day buckets of the consistency score *)

Section DayBuckets.
Import Binary64 JS Analytics.

Lemma or0_get (v : option Z) : or0 v = match v with Some n => n | None => 0 end.
Proof.
destruct v as [n|]; simpl; [|reflexivity].
destruct (n =? 0) eqn:E; [apply Z.eqb_eq in E; congruence | reflexivity].
Qed.

(** One more commit in a bucket is one more commit in all. *)
Lemma obj_set_sum (k : Z) (o : list (Z * Z)) :
  Notions.sum (Object_values (obj_set k (or0 (obj_get k o) + 1) o)) =
  Notions.sum (Object_values o) + 1.
Proof.
rewrite or0_get. unfold Object_values.
induction o as [|[k' v'] o IH]; simpl; [reflexivity|].
destruct (k =? k') eqn:E; simpl; [lia|].
rewrite IH. lia.
Qed.

Lemma commitsByDay_fold_sum (cs : list Commit.t) (o : list (Z * Z)) :
  Notions.sum
    (Object_values
       (fold_left
          (fun o commit =>
             let day := toISOString_date (Commit.committedAt commit) in
             obj_set day (or0 (obj_get day o) + 1) o)
          cs o)) =
  Notions.sum (Object_values o) + len cs.
Proof.
revert o. induction cs as [|c cs IH]; intros o.
- simpl. unfold len. simpl. lia.
- simpl fold_left. rewrite IH, obj_set_sum. unfold len. simpl List.length. lia.
Qed.

Lemma dayCounts_sum (cs : list Commit.t) : Notions.sum (Spec.dayCounts cs) = len cs.
Proof.
rewrite <- dailyCounts_dayCounts. unfold commitsByDay.
now rewrite commitsByDay_fold_sum.
Qed.

Lemma dayCounts_pos (cs : list Commit.t) :
  Forall (fun n => 1 <= n) (Spec.dayCounts cs).
Proof.
apply Forall_forall. intros n Hn. unfold Spec.dayCounts in Hn.
apply in_map_iff in Hn. destruct Hn as [d [<- Hd]].
unfold Spec.activeDays in Hd. apply (proj1 (distinct_In _ _)) in Hd.
apply (proj2 (commitsOnDay_pos_iff _ _)) in Hd.
pose proof (commitsOnDay_nonneg cs d). lia.
Qed.

Lemma sum_ge_length (xs : list Z) :
  Forall (fun n => 1 <= n) xs -> len xs <= Notions.sum xs.
Proof.
induction 1 as [|x xs Hx _ IH]; unfold len in *; simpl List.length; simpl Notions.sum.
- simpl. lia.
- lia.
Qed.

(** X1. The loop that groups the commits by day creates one bucket per
    UTC day with a commit: the keys are the UTC days of the commits, each
    once, in the order in which they first appear; each bucket holds the
    number of commits of its day, which is at least 1; there are at most as
    many buckets as commits, and the buckets together count every commit
    once. *)
Theorem commitsByDay_partition (cs : list Commit.t) :
  map fst (commitsByDay cs) = Spec.activeDays cs /\
  NoDup (map fst (commitsByDay cs)) /\
  (forall d, In d (map fst (commitsByDay cs)) <->
     exists c, In c cs /\ toISOString_date (Commit.committedAt c) = d) /\
  (forall d n, In (d, n) (commitsByDay cs) ->
     n = Spec.commitsOnDay cs d /\ 1 <= n) /\
  len (Object_values (commitsByDay cs)) <= len cs /\
  Notions.sum (Object_values (commitsByDay cs)) = len cs.
Proof.
destruct (commitsByDay_groups cs) as [Hkeys Hget].
assert (Hnd : NoDup (map fst (commitsByDay cs))).
{ rewrite Hkeys. apply distinct_NoDup. }
split; [exact Hkeys|]. split; [exact Hnd|]. split; [|split].
- intros d. rewrite Hkeys. unfold Spec.activeDays.
  rewrite distinct_In, in_map_iff. split; intros [c [H1 H2]]; exists c; auto.
- intros d n Hin. apply (obj_get_In d n _ Hnd) in Hin. rewrite Hget in Hin.
  pose proof (commitsOnDay_nonneg cs d) as H0.
  destruct (Spec.commitsOnDay cs d =? 0) eqn:E; [discriminate|].
  apply Z.eqb_neq in E. inversion Hin. lia.
- rewrite dailyCounts_dayCounts. split; [|apply dayCounts_sum].
  rewrite <- dayCounts_sum. apply sum_ge_length, dayCounts_pos.
Qed.

End DayBuckets.

(* ================================================================== *)
(** * Further properties of the consistency score *)

Section ConsistencyEven.
Import Binary64 JS Analytics.
Local Open Scope Q_scope.

Lemma fadd_Z (a b : Z) :
  (Z.abs (a + b) < 2 ^ 53)%Z -> fadd (ofZ a) (ofZ b) = ofZ (a + b).
Proof.
intros H. unfold fadd, ofZ.
rewrite (rnd_comp _ (inject_Z (a + b))) by (rewrite inject_Z_plus; reflexivity).
now apply rnd_Z.
Qed.

(** The sum of [k] counters equal to [n] is [k * n], without rounding. *)
Lemma total_from_repeat (n : Z) (k : nat) (j : Z) :
  (0 <= j)%Z -> (0 <= n)%Z -> ((j + Z.of_nat k) * n < 2 ^ 53)%Z ->
  Spec.total_from (ofZ (j * n)) (map ofZ (repeat n k)) = ofZ ((j + Z.of_nat k) * n).
Proof.
revert j. induction k as [|k IH]; intros j Hj Hn Hb.
- simpl. now rewrite Z.add_0_r.
- cbn [repeat map Spec.total_from].
  rewrite fadd_Z by nia.
  replace (j * n + n)%Z with ((j + 1) * n)%Z by ring.
  rewrite IH by lia. f_equal. lia.
Qed.

Lemma total_from_zeros (k : nat) : Spec.total_from 0 (repeat 0 k) = 0.
Proof.
induction k as [|k IH]; [reflexivity|].
cbn [repeat Spec.total_from]. change (fadd 0 0) with 0. exact IH.
Qed.

Lemma fdiv_Z_exact (q d : Z) :
  (d <> 0)%Z -> (Z.abs q < 2 ^ 53)%Z -> fdiv (ofZ (d * q)) (ofZ d) = ofZ q.
Proof.
intros Hd Hq. unfold fdiv, ofZ.
rewrite (rnd_comp _ (inject_Z q)); [now apply rnd_Z|].
rewrite inject_Z_mult. field.
intros E. apply Hd. apply (inject_Z_injective d 0). exact E.
Qed.

(** Equal buckets: the mean is the common count and nothing deviates. *)
Lemma cv_repeat (n : Z) (k : nat) :
  (1 <= n)%Z -> (k <> 0)%nat -> (Z.of_nat k * n < 2 ^ 53)%Z ->
  Spec.cv (repeat n k) = 0.
Proof.
intros Hn Hk Hb.
assert (Hm : Spec.mean (repeat n k) = ofZ n).
{ unfold Spec.mean, Spec.total, Spec.count. rewrite repeat_length.
  change 0 with (ofZ (0 * n)).
  rewrite total_from_repeat by lia.
  rewrite Z.add_0_l. apply fdiv_Z_exact; [lia | nia]. }
assert (Hv : Spec.variance (repeat n k) = 0).
{ unfold Spec.variance, Spec.total. rewrite Hm, map_repeat.
  rewrite fsub_diag. unfold Spec.square. rewrite fmul_0_l.
  rewrite total_from_zeros. apply fdiv_0_l. }
unfold Spec.cv, Spec.stdDev. rewrite Hv, Hm.
destruct (eqb (ofZ n) 0); [reflexivity|].
change (fsqrt 0) with 0. apply fdiv_0_l.
Qed.

Lemma sum_repeat (n : Z) (k : nat) : Notions.sum (repeat n k) = (Z.of_nat k * n)%Z.
Proof.
induction k as [|k IH]; [reflexivity|].
cbn [repeat Notions.sum fold_right]. fold (Notions.sum (repeat n k)). rewrite IH. lia.
Qed.

(** X2. A commit history with the same number of commits on each of its
    active days scores 100, however many days and commits it has.  (An
    array has fewer than 2^32 elements.) *)
Theorem calculateConsistencyScore_even_days (cs : list Commit.t) (n : Z) :
  cs <> [] -> (len cs < 2 ^ 32)%Z ->
  (forall d, In d (Spec.activeDays cs) -> Spec.commitsOnDay cs d = n) ->
  calculateConsistencyScore cs = 100.
Proof.
intros Hne Hlen Hall.
rewrite (calculateConsistencyScore_refines cs Hne).
assert (Hc : Spec.dayCounts cs = repeat n (List.length (Spec.activeDays cs))).
{ unfold Spec.dayCounts. rewrite <- map_const. now apply map_ext_in. }
pose proof (dayCounts_sum cs) as Hsum.
pose proof (dayCounts_pos cs) as Hpos.
pose proof (dayCounts_nonempty cs Hne) as Hd.
rewrite Hc in Hsum, Hpos, Hd. rewrite sum_repeat in Hsum.
rewrite Hc, cv_repeat; [reflexivity | | |].
- destruct (List.length (Spec.activeDays cs)); [now contradiction Hd|].
  now inversion Hpos.
- intros E. rewrite E in Hd. now apply Hd.
- rewrite Hsum. lia.
Qed.

(** Two commits on each of two days. *)
Lemma calculateConsistencyScore_even_days_witness :
  calculateConsistencyScore
    [Sample.morning; Sample.nextDay; Sample.evening; Sample.nextNoon] = 100.
Proof.
apply (calculateConsistencyScore_even_days _ 2%Z);
  [discriminate | reflexivity |].
intros d [<-|[<-|[]]]; reflexivity.
Defined.

(** ** Whole days later *)

Lemma utcDay_delayed (k : Z) (c : Commit.t) :
  Spec.utcDay (Notions.delayed (k * 86400000) c) = (Spec.utcDay c + k)%Z.
Proof. unfold Spec.utcDay. simpl. now apply Z.div_add. Qed.

Lemma distinct_shift (k : Z) (ds : list Z) :
  Spec.distinct (map (fun d => d + k)%Z ds) = map (fun d => d + k)%Z (Spec.distinct ds).
Proof.
induction ds as [|d ds IH]; [reflexivity|].
simpl. f_equal. rewrite IH, filter_map_swap. f_equal.
apply filter_ext. intros a. f_equal.
destruct (Z.eqb_spec (a + k) (d + k)); destruct (Z.eqb_spec a d); try reflexivity; lia.
Qed.

Lemma activeDays_delayed (k : Z) (cs : list Commit.t) :
  Spec.activeDays (map (Notions.delayed (k * 86400000)) cs) =
  map (fun d => d + k)%Z (Spec.activeDays cs).
Proof.
unfold Spec.activeDays. rewrite map_map, <- distinct_shift, map_map.
f_equal. apply map_ext. intros c. apply utcDay_delayed.
Qed.

Lemma commitsOnDay_delayed (k : Z) (cs : list Commit.t) (d : Z) :
  Spec.commitsOnDay (map (Notions.delayed (k * 86400000)) cs) (d + k) =
  Spec.commitsOnDay cs d.
Proof.
unfold Spec.commitsOnDay. rewrite filter_map_swap, length_map. do 2 f_equal.
apply filter_ext. intros c. rewrite utcDay_delayed.
destruct (Z.eqb_spec (Spec.utcDay c + k) (d + k)); destruct (Z.eqb_spec (Spec.utcDay c) d);
  try reflexivity; lia.
Qed.

(** X3. Moving every commit by the same whole number of days does not
    change the consistency score. *)
Theorem calculateConsistencyScore_whole_days_later (cs : list Commit.t) (k : Z) :
  calculateConsistencyScore (map (Notions.delayed (k * 86400000)) cs) =
  calculateConsistencyScore cs.
Proof.
destruct cs as [|c cs]; [reflexivity|].
rewrite !calculateConsistencyScore_refines by discriminate.
set (cs' := c :: cs).
assert (E : Spec.dayCounts (map (Notions.delayed (k * 86400000)) cs') = Spec.dayCounts cs').
{ unfold Spec.dayCounts. rewrite activeDays_delayed, map_map.
  apply map_ext. intros d. apply commitsOnDay_delayed. }
now rewrite E.
Qed.

End ConsistencyEven.

(* ================================================================== *)
(** * Further properties of the learning velocity *)

Section VelocityInvariance.
Import Binary64 JS Analytics.

Lemma earliest_Permutation (ts ts' : list Z) (m : Z) :
  Permutation ts ts' -> Spec.earliest ts m -> Spec.earliest ts' m.
Proof.
intros P [Hin Hle]. split.
- now apply (Permutation_in _ P).
- intros t Ht. apply Hle. now apply (Permutation_in _ (Permutation_sym P)).
Qed.

Lemma latest_Permutation (ts ts' : list Z) (m : Z) :
  Permutation ts ts' -> Spec.latest ts m -> Spec.latest ts' m.
Proof.
intros P [Hin Hle]. split.
- now apply (Permutation_in _ P).
- intros t Ht. apply Hle. now apply (Permutation_in _ (Permutation_sym P)).
Qed.

(** X4. The learning velocity does not depend on the order of the
    commits. *)
Theorem calculateLearningVelocity_permutation (cs1 cs2 : list Commit.t) :
  Permutation cs1 cs2 ->
  calculateLearningVelocity cs1 = calculateLearningVelocity cs2.
Proof.
intros P.
destruct cs1 as [|c1 cs1].
- apply Permutation_nil in P. now subst.
- assert (H1 : c1 :: cs1 <> []) by discriminate.
  assert (H2 : cs2 <> []).
  { intros ->. apply Permutation_sym, Permutation_nil in P. discriminate. }
  set (l1 := c1 :: cs1) in *.
  assert (Hm : map Commit.committedAt l1 <> []) by discriminate.
  pose proof (Math_min_spread_earliest _ Hm) as Hlo.
  pose proof (Math_max_spread_latest _ Hm) as Hhi.
  pose proof (Permutation_map Commit.committedAt P) as Pm.
  rewrite (calculateLearningVelocity_span l1 _ _ H1 Hlo Hhi).
  rewrite (calculateLearningVelocity_span cs2 _ _ H2
             (earliest_Permutation _ _ _ Pm Hlo) (latest_Permutation _ _ _ Pm Hhi)).
  unfold Spec.count. now rewrite (Permutation_length P).
Qed.

Lemma calculateLearningVelocity_permutation_witness :
  calculateLearningVelocity [Sample.morning; Sample.evening; Sample.nextDay] =
  calculateLearningVelocity [Sample.nextDay; Sample.morning; Sample.evening].
Proof.
apply calculateLearningVelocity_permutation.
apply Permutation_sym.
apply (Permutation_cons_app [Sample.morning; Sample.evening] []).
rewrite app_nil_r. apply Permutation_refl.
Defined.

Lemma earliest_delayed (ms : Z) (cs : list Commit.t) (m : Z) :
  Spec.earliest (map Commit.committedAt cs) m ->
  Spec.earliest (map Commit.committedAt (map (Notions.delayed ms) cs)) (m + ms).
Proof.
intros [Hin Hle]. rewrite map_map. simpl. split.
- apply in_map_iff in Hin. destruct Hin as [c [<- Hc]].
  apply in_map_iff. now exists c.
- intros t Ht. apply in_map_iff in Ht. destruct Ht as [c [<- Hc]].
  assert (m <= Commit.committedAt c) by (apply Hle; now apply in_map).
  lia.
Qed.

Lemma latest_delayed (ms : Z) (cs : list Commit.t) (m : Z) :
  Spec.latest (map Commit.committedAt cs) m ->
  Spec.latest (map Commit.committedAt (map (Notions.delayed ms) cs)) (m + ms).
Proof.
intros [Hin Hle]. rewrite map_map. simpl. split.
- apply in_map_iff in Hin. destruct Hin as [c [<- Hc]].
  apply in_map_iff. now exists c.
- intros t Ht. apply in_map_iff in Ht. destruct Ht as [c [<- Hc]].
  assert (Commit.committedAt c <= m) by (apply Hle; now apply in_map).
  lia.
Qed.

Lemma daysBetween_shift (lo hi ms : Z) :
  Spec.daysBetween (lo + ms) (hi + ms) = Spec.daysBetween lo hi.
Proof.
unfold Spec.daysBetween, fsub, ofZ. f_equal. apply rnd_comp.
rewrite !inject_Z_plus. ring.
Qed.

(** X5. The learning velocity depends on the timestamps through their
    differences only: moving every commit by the same amount of time does
    not change it. *)
Theorem calculateLearningVelocity_delayed (cs : list Commit.t) (ms : Z) :
  calculateLearningVelocity (map (Notions.delayed ms) cs) =
  calculateLearningVelocity cs.
Proof.
destruct cs as [|c cs]; [reflexivity|].
set (l := c :: cs).
assert (H1 : l <> []) by discriminate.
assert (H2 : map (Notions.delayed ms) l <> []) by discriminate.
assert (Hm : map Commit.committedAt l <> []) by discriminate.
pose proof (Math_min_spread_earliest _ Hm) as Hlo.
pose proof (Math_max_spread_latest _ Hm) as Hhi.
rewrite (calculateLearningVelocity_span l _ _ H1 Hlo Hhi).
rewrite (calculateLearningVelocity_span _ _ _ H2
           (earliest_delayed ms _ _ Hlo) (latest_delayed ms _ _ Hhi)).
rewrite daysBetween_shift. unfold Spec.count. now rewrite length_map.
Qed.

Local Open Scope Q_scope.

(** X6. The learning velocity is never negative.  (An array has fewer
    than 2^32 elements.) *)
Theorem calculateLearningVelocity_nonneg (cs : list Commit.t) :
  (len cs < 2 ^ 32)%Z -> 0 <= calculateLearningVelocity cs.
Proof.
intros Hlen. destruct cs as [|c cs]; [apply Qle_refl|].
set (l := c :: cs) in *.
assert (H1 : l <> []) by discriminate.
assert (Hm : map Commit.committedAt l <> []) by discriminate.
pose proof (Math_min_spread_earliest _ Hm) as Hlo.
pose proof (Math_max_spread_latest _ Hm) as Hhi.
rewrite (calculateLearningVelocity_span l _ _ H1 Hlo Hhi).
pose proof (earliest_le_latest _ _ _ Hlo Hhi) as Hle.
destruct (Z.eq_dec (Math_min_spread (map Commit.committedAt l))
                   (Math_max_spread (map Commit.committedAt l))) as [E|N].
- rewrite E, daysBetween_same. apply count_nonneg.
- assert (Hlt : (Math_min_spread (map Commit.committedAt l) <
                  Math_max_spread (map Commit.committedAt l))%Z) by lia.
  rewrite (daysBetween_nonzero _ _ Hlt).
  destruct (velocity_quotient_range l _ _ Hlen Hlt) as [H0 Hbig].
  now apply parseFloat_toFixed2_sign.
Qed.

Lemma calculateLearningVelocity_nonneg_witness :
  0 <= calculateLearningVelocity [Sample.morning; Sample.evening; Sample.nextDay].
Proof.
apply calculateLearningVelocity_nonneg. reflexivity.
Defined.

End VelocityInvariance.

(* ================================================================== *)
(** * Further properties of the project depth and of the ratio *)

Section DepthMonotone.
Import Binary64 JS Analytics.
Local Open Scope Q_scope.

Lemma Math_round_mono (x y : Q) : x <= y -> Math_round x <= Math_round y.
Proof.
intros H. unfold Math_round. rewrite <- Zle_Qle. apply Qfloor_resp_le. lra.
Qed.

Lemma Qle_bool_false (x y : Q) : Qle_bool x y = false -> y < x.
Proof.
intros E. destruct (Qlt_le_dec y x) as [L|L]; [exact L|].
apply Qle_bool_iff in L. congruence.
Qed.

Lemma Math_min_mono (c x y : Q) : x <= y -> Math_min c x <= Math_min c y.
Proof.
intros H. unfold Math_min.
destruct (Qle_bool c x) eqn:E1; destruct (Qle_bool c y) eqn:E2;
  try apply Qle_bool_iff in E1; try apply Qle_bool_iff in E2;
  try apply Qle_bool_false in E1; try apply Qle_bool_false in E2; lra.
Qed.

Lemma Math_min_reached (c x : Q) : c <= x -> Math_min c x = c.
Proof. intros H. unfold Math_min. apply Qle_bool_iff in H. now rewrite H. Qed.

Lemma fmul_mono_l (x y c : number) : 0 <= c -> x <= y -> fmul x c <= fmul y c.
Proof. intros Hc H. unfold fmul. apply rnd_mono. now apply Qmult_le_compat_r. Qed.

Lemma fdiv_mono_l (x y d : number) : 0 <= d -> x <= y -> fdiv x d <= fdiv y d.
Proof.
intros Hd H. unfold fdiv. apply rnd_mono. unfold Qdiv.
apply Qmult_le_compat_r; [exact H | now apply Qinv_le_0_compat].
Qed.

Lemma fadd_mono_r (a x y : number) : x <= y -> fadd a x <= fadd a y.
Proof. intros H. unfold fadd. apply rnd_mono. lra. Qed.

Lemma lenN_le {A B : Type} (xs : list A) (ys : list B) :
  (len xs <= len ys)%Z -> lenN xs <= lenN ys.
Proof. intros H. unfold lenN, ofZ. now rewrite <- Zle_Qle. Qed.

Lemma lenN_nonneg {A : Type} (xs : list A) : 0 <= lenN xs.
Proof. apply count_nonneg. Qed.

Lemma lit_6_nonneg : 0 <= lit (6 # 10).
Proof. vm_compute. discriminate. Qed.

(** X7. More commits never lower the project depth of the same
    repositories. *)
Theorem calculateProjectDepth_more_commits
  (repositories : list Repository.t) (commits1 commits2 : list Commit.t) :
  (len commits1 <= len commits2)%Z ->
  calculateProjectDepth repositories commits1 <=
  calculateProjectDepth repositories commits2.
Proof.
intros H. unfold calculateProjectDepth.
destruct (len repositories =? 0)%Z; [apply Qle_refl|]. cbv zeta.
apply Math_round_mono, fadd_mono_r, fmul_mono_l; [apply lit_6_nonneg|].
apply Math_min_mono, fmul_mono_l; [discriminate|].
apply fdiv_mono_l; [apply lenN_nonneg | now apply lenN_le].
Qed.

Lemma calculateProjectDepth_more_commits_witness :
  calculateProjectDepth [Sample.repo 1 500] [Sample.morning] <=
  calculateProjectDepth [Sample.repo 1 500] [Sample.morning; Sample.evening].
Proof.
apply calculateProjectDepth_more_commits. vm_compute. discriminate.
Defined.

(** A sum of [n] numbers that are all at least [b] is at least [n * b],
    rounding included, as long as [n * b] is below 2^53. *)
Lemma total_from_at_least (b : Z) (xs : list number) (acc : number) (j : Z) :
  (0 <= b)%Z -> (0 <= j)%Z ->
  ((j + Z.of_nat (List.length xs)) * b < 2 ^ 53)%Z ->
  inject_Z (j * b) <= acc ->
  Forall (fun x => inject_Z b <= x) xs ->
  inject_Z ((j + Z.of_nat (List.length xs)) * b) <= Spec.total_from acc xs.
Proof.
intros Hb. revert acc j. induction xs as [|x xs IH]; intros acc j Hj Hbound Hacc Hall.
- simpl. now rewrite Z.add_0_r.
- inversion Hall as [|? ? Hx Hall']; subst. cbn [Spec.total_from].
  simpl List.length in *.
  replace (j + Z.of_nat (S (List.length xs)))%Z
    with ((j + 1) + Z.of_nat (List.length xs))%Z by lia.
  apply IH; [lia | | | assumption].
  + replace (j + 1 + Z.of_nat (List.length xs))%Z
      with (j + Z.of_nat (S (List.length xs)))%Z by lia. exact Hbound.
  + unfold fadd. apply rnd_ge_Z; [nia|].
    replace ((j + 1) * b)%Z with (j * b + b)%Z by ring.
    rewrite inject_Z_plus. lra.
Qed.

Lemma avgSize_at_least (b : Z) (repositories : list Repository.t) :
  (0 <= b)%Z -> repositories <> [] -> (len repositories * b < 2 ^ 53)%Z ->
  (forall r, In r repositories -> (b <= Repository.size r)%Z) ->
  inject_Z b <= Spec.avgSize repositories.
Proof.
intros Hb Hne Hbound Hsz. unfold Spec.avgSize, Spec.total.
pose proof (len_pos _ Hne) as Hn. unfold len in Hn, Hbound.
assert (Ht : inject_Z (Z.of_nat (List.length repositories) * b) <=
             Spec.total_from 0 (map (fun r => ofZ (Repository.size r)) repositories)).
{ pose proof (total_from_at_least b
                (map (fun r => ofZ (Repository.size r)) repositories) 0 0 Hb
                (Z.le_refl 0)) as T.
  rewrite length_map in T. rewrite !Z.add_0_l in T. apply T.
  - exact Hbound.
  - apply Qle_refl.
  - apply Forall_forall. intros x Hx. apply in_map_iff in Hx.
    destruct Hx as [r [<- Hr]]. unfold ofZ. rewrite <- Zle_Qle. now apply Hsz. }
unfold fdiv. apply rnd_ge_Z; [nia|].
assert (Hc : 0 < Spec.count repositories).
{ apply Qlt_le_trans with 1; [reflexivity | now apply count_pos]. }
apply Qle_shift_div_l; [exact Hc|].
unfold Spec.count, ofZ. rewrite <- inject_Z_mult.
now rewrite Z.mul_comm.
Qed.

(** X8. Repositories of size at least 1000 each, with at least 20 commits
    per repository, reach the full depth score of 100.  (An array has fewer
    than 2^32 elements.) *)
Theorem calculateProjectDepth_saturates
  (repositories : list Repository.t) (commits : list Commit.t) :
  repositories <> [] -> (len repositories < 2 ^ 32)%Z ->
  (forall r, In r repositories -> (1000 <= Repository.size r)%Z) ->
  (20 * len repositories <= len commits)%Z ->
  calculateProjectDepth repositories commits = 100.
Proof.
intros Hne Hlen Hsz Hmany.
rewrite (calculateProjectDepth_refines _ _ Hne).
pose proof (len_pos _ Hne) as Hn.
assert (Ha : 1000 <= Spec.avgSize repositories).
{ apply (avgSize_at_least 1000); [lia | assumption | lia | assumption]. }
assert (Hs : Spec.sizeScore repositories = 100).
{ unfold Spec.sizeScore. cbv zeta. rewrite <- Math_min_cap.
  apply Math_min_reached.
  unfold fmul. apply (rnd_ge_Z _ 100); [reflexivity|].
  assert (H1 : 1 <= fdiv (Spec.avgSize repositories) 1000).
  { unfold fdiv. apply (rnd_ge_Z _ 1); [reflexivity|].
    apply Qle_shift_div_l; [reflexivity|]. change (inject_Z 1) with 1. lra. }
  change (inject_Z 100) with 100. lra. }
assert (Hd : Spec.densityScore repositories commits = 100).
{ unfold Spec.densityScore. cbv zeta. rewrite <- Math_min_cap.
  apply Math_min_reached.
  unfold fmul. apply (rnd_ge_Z _ 100); [reflexivity|].
  assert (H20 : 20 <= fdiv (Spec.count commits) (Spec.count repositories)).
  { unfold fdiv. apply (rnd_ge_Z _ 20); [reflexivity|].
    assert (Hc : 0 < Spec.count repositories).
    { apply Qlt_le_trans with 1; [reflexivity | now apply count_pos]. }
    apply Qle_shift_div_l; [exact Hc|].
    unfold Spec.count, ofZ. rewrite <- inject_Z_mult, <- Zle_Qle.
    unfold len in Hmany. exact Hmany. }
  change (inject_Z 100) with 100. lra. }
unfold Spec.depthScore. rewrite Hs, Hd. vm_compute. reflexivity.
Qed.

Lemma calculateProjectDepth_saturates_witness :
  calculateProjectDepth [Sample.repo 1 2500] (repeat Sample.evening 20) = 100.
Proof.
apply calculateProjectDepth_saturates.
- discriminate.
- reflexivity.
- intros r [<-|[]]. vm_compute. discriminate.
- vm_compute. discriminate.
Defined.

(** X9. Without commits the repository sizes alone decide the depth, and
    they contribute at most 40 of the 100 points. *)
Theorem calculateProjectDepth_without_commits (repositories : list Repository.t) :
  (forall r, In r repositories -> (0 <= Repository.size r)%Z) ->
  calculateProjectDepth repositories [] <= 40.
Proof.
intros Hsz. destruct repositories as [|r rs]; [discriminate|].
set (l := r :: rs) in *.
rewrite (calculateProjectDepth_refines l []) by discriminate.
destruct (sizeScore_range l Hsz) as [S0 S1].
assert (Hd : Spec.densityScore l [] = 0).
{ unfold Spec.densityScore. cbv zeta.
  change (Spec.count (@nil Commit.t)) with 0.
  rewrite fdiv_0_l, fmul_0_l. reflexivity. }
unfold Spec.depthScore. rewrite Hd, fmul_0_l.
change 40 with (Math_round 40). apply Math_round_mono.
change 40 with (rnd (40 + 0)). unfold fadd. apply rnd_mono.
assert (A1 : fmul (Spec.sizeScore l) (lit (4 # 10)) <= 40).
{ change 40 with (fmul 100 (lit (4 # 10))). apply fmul_mono_l; [|assumption].
  vm_compute. discriminate. }
lra.
Qed.

Lemma calculateProjectDepth_without_commits_witness :
  calculateProjectDepth [Sample.repo 1 500; Sample.repo 2 1500] [] <= 40.
Proof.
apply calculateProjectDepth_without_commits.
intros r [<-|[<-|[]]]; vm_compute; discriminate.
Defined.

(** ** The depth-to-breadth ratio *)

(** Without commits the depth-to-breadth ratio is 0, whatever the
    repositories and the languages. *)
Lemma calculateDepthBreadthRatio_no_commits
  (repositories : list Repository.t) (languages : list LanguageProficiency.t) :
  calculateDepthBreadthRatio repositories [] languages = 0.
Proof.
unfold calculateDepthBreadthRatio.
destruct ((len repositories =? 0)%Z || (len languages =? 0)%Z); [reflexivity|].
cbv zeta. change (lenN (@nil Commit.t)) with 0.
rewrite !fdiv_0_l. reflexivity.
Qed.

Lemma parseFloat_toFixed2_mono (x y : Q) :
  0 <= x -> x <= y -> y < inject_Z (10 ^ 21) ->
  parseFloat_toFixed2 x <= parseFloat_toFixed2 y.
Proof.
intros H0 Hxy Hbig.
rewrite !parseFloat_toFixed2_nonneg by lra.
apply rnd_mono. unfold Qdiv. apply Qmult_le_compat_r; [|discriminate].
rewrite <- Zle_Qle. apply Qfloor_resp_le. lra.
Qed.

(** X10. More commits never lower the depth-to-breadth ratio of the same
    repositories and languages.  (An array has fewer than 2^32 elements.) *)
Theorem calculateDepthBreadthRatio_more_commits
  (repositories : list Repository.t) (commits1 commits2 : list Commit.t)
  (languages : list LanguageProficiency.t) :
  (len commits1 <= len commits2)%Z -> (len commits2 < 2 ^ 32)%Z ->
  calculateDepthBreadthRatio repositories commits1 languages <=
  calculateDepthBreadthRatio repositories commits2 languages.
Proof.
intros Hle Hlen. unfold calculateDepthBreadthRatio.
destruct (len repositories =? 0)%Z eqn:Er; [apply Qle_refl|].
destruct (len languages =? 0)%Z eqn:El; [apply Qle_refl|].
simpl orb. cbv iota zeta.
assert (Hr : repositories <> []).
{ intros ->. discriminate. }
assert (Hl : languages <> []).
{ intros ->. discriminate. }
destruct (depth_quotient_range repositories commits1 languages Hr Hl) as [A0 _]; [lia|].
destruct (depth_quotient_range repositories commits2 languages Hr Hl Hlen) as [_ B1].
apply parseFloat_toFixed2_mono; [exact A0 | | exact B1].
apply fdiv_mono_l; [apply lenN_nonneg|].
apply fdiv_mono_l; [apply lenN_nonneg | now apply lenN_le].
Qed.

Lemma calculateDepthBreadthRatio_more_commits_witness :
  calculateDepthBreadthRatio [Sample.repo 1 500] [Sample.morning] [Sample.go] <=
  calculateDepthBreadthRatio [Sample.repo 1 500] [Sample.morning; Sample.evening]
    [Sample.go].
Proof.
apply calculateDepthBreadthRatio_more_commits; [vm_compute; discriminate | reflexivity].
Defined.

End DepthMonotone.

(* ================================================================== *)
(** * The skill growth trend *)

Section SkillGrowthTrend.
Import Binary64 JS Analytics.

Lemma len_filter_le {A : Type} (p : A -> bool) (l : list A) :
  len (filter p l) <= len l.
Proof. unfold len. pose proof (filter_length_le p l). lia. Qed.

Lemma len_filter_impl {A : Type} (p q : A -> bool) (l : list A) :
  (forall a, p a = true -> q a = true) -> len (filter p l) <= len (filter q l).
Proof.
intros H. unfold len. induction l as [|a l IH]; simpl; [lia|].
destruct (p a) eqn:Ep.
- rewrite (H a Ep). simpl List.length. lia.
- destruct (q a); simpl List.length; lia.
Qed.

Lemma filter_all {A : Type} (p : A -> bool) (l : list A) :
  (forall a, In a l -> p a = true) -> filter p l = l.
Proof.
intros H. induction l as [|a l IH]; [reflexivity|].
simpl. rewrite (H a) by now left. f_equal. apply IH. intros b Hb. apply H. now right.
Qed.

Local Open Scope Q_scope.

(** The share of the recent commits, in percent, lies between 0 and 100:
    the quotient and the product are rounded, and rounding is monotone. *)
Lemma growthPercentage_range {A : Type} (recent all : list A) :
  (len recent <= len all)%Z ->
  0 <= fmul (fdiv (lenN recent) (lenN all)) 100 /\
  fmul (fdiv (lenN recent) (lenN all)) 100 <= 100.
Proof.
intros H.
assert (H0 : 0 <= fdiv (lenN recent) (lenN all)).
{ apply fdiv_nonneg; apply lenN_nonneg. }
assert (H1 : fdiv (lenN recent) (lenN all) <= 1).
{ unfold fdiv. apply (rnd_le_Z _ 1); [reflexivity|].
  pose proof (lenN_nonneg recent) as R0. pose proof (lenN_le _ _ H) as R1.
  destruct (Qeq_dec (lenN all) 0) as [E|N].
  - rewrite E. unfold Qdiv. change (/ 0) with 0. rewrite Qmult_0_r. discriminate.
  - apply Qle_shift_div_r; [|change (inject_Z 1) with 1; lra].
    pose proof (lenN_nonneg all). lra. }
split.
- apply fmul_nonneg; [exact H0 | discriminate].
- unfold fmul. apply (rnd_le_Z _ 100); [reflexivity|].
  change (inject_Z 100) with 100. lra.
Qed.

Lemma Math_min_100_integer (k : Z) :
  (0 <= k <= 100)%Z -> Math_min 100 (inject_Z k) = inject_Z k.
Proof.
intros Hk. unfold Math_min. destruct (Qle_bool 100 (inject_Z k)) eqn:E; [|reflexivity].
apply Qle_bool_iff in E. change 100 with (inject_Z 100) in E.
rewrite <- Zle_Qle in E. now replace k with 100%Z by lia.
Qed.

(** The trend when there is a language. *)
Lemma calculateSkillGrowthTrend_recent (e : Env)
  (currentLanguages : list LanguageProficiency.t) (commits : list Commit.t)
  (timeWindowDays : option Z) :
  currentLanguages <> [] ->
  calculateSkillGrowthTrend e currentLanguages commits timeWindowDays =
  let recentCommits :=
    filter (fun c => Date_ge (Commit.committedAt c)
                       (cutoffDate e (default_arg 90%Z timeWindowDays))) commits in
  if (len recentCommits =? 0)%Z then 0
  else Math_min 100 (Math_round (fmul (fdiv (lenN recentCommits) (lenN commits)) 100)).
Proof.
intros Hne. unfold calculateSkillGrowthTrend. cbv zeta.
now rewrite (len_nonempty _ Hne).
Qed.

(** The trend is an integer between 0 and 100. *)
Lemma calculateSkillGrowthTrend_integer (e : Env)
  (currentLanguages : list LanguageProficiency.t) (commits : list Commit.t)
  (timeWindowDays : option Z) :
  exists k : Z,
    calculateSkillGrowthTrend e currentLanguages commits timeWindowDays = inject_Z k /\
    (0 <= k <= 100)%Z.
Proof.
destruct currentLanguages as [|l ls]; [exists 0%Z; split; [reflexivity | lia]|].
rewrite calculateSkillGrowthTrend_recent by discriminate. cbv zeta.
set (recent := filter _ commits).
destruct (len recent =? 0)%Z; [exists 0%Z; split; [reflexivity | lia]|].
destruct (growthPercentage_range recent commits) as [G0 G1];
  [apply len_filter_le|].
destruct (Math_round_range 0 100 _ G0 G1) as [k [Hk Hr]].
exists k. split; [|exact Hr]. rewrite Hk. now apply Math_min_100_integer.
Qed.

(** X11. The skill growth trend is an integer between 0 and 100, for every
    host, every input and every window; and the cap [Math.min(100, ...)]
    never takes effect: when there is a language and a recent commit, the
    trend is the rounded percentage itself. *)
Theorem calculateSkillGrowthTrend_range (e : Env)
  (currentLanguages : list LanguageProficiency.t) (commits : list Commit.t)
  (timeWindowDays : option Z) :
  (exists k : Z,
     calculateSkillGrowthTrend e currentLanguages commits timeWindowDays = inject_Z k /\
     (0 <= k <= 100)%Z) /\
  (let recentCommits :=
     filter (fun c => Date_ge (Commit.committedAt c)
                        (cutoffDate e (default_arg 90%Z timeWindowDays))) commits in
   currentLanguages <> [] -> recentCommits <> [] ->
   calculateSkillGrowthTrend e currentLanguages commits timeWindowDays =
   Math_round (fmul (fdiv (lenN recentCommits) (lenN commits)) 100)).
Proof.
split; [apply calculateSkillGrowthTrend_integer|].
intros recent Hl Hr.
rewrite (calculateSkillGrowthTrend_recent e _ _ _ Hl). cbv zeta. fold recent.
rewrite (len_nonempty _ Hr).
destruct (growthPercentage_range recent commits) as [G0 G1];
  [apply len_filter_le|].
destruct (Math_round_range 0 100 _ G0 G1) as [k [Hk Hk']].
rewrite Hk. now apply Math_min_100_integer.
Qed.

(** X12. When there is a language and every commit is at or after the
    cutoff (the comparison [c.committedAt >= cutoffDate] of the code holds),
    the trend is 100. *)
Theorem calculateSkillGrowthTrend_all_recent (e : Env)
  (currentLanguages : list LanguageProficiency.t) (commits : list Commit.t)
  (timeWindowDays : option Z) :
  currentLanguages <> [] -> commits <> [] ->
  (forall c, In c commits ->
     Date_ge (Commit.committedAt c)
       (cutoffDate e (default_arg 90%Z timeWindowDays)) = true) ->
  calculateSkillGrowthTrend e currentLanguages commits timeWindowDays = 100.
Proof.
intros Hl Hc Hall.
rewrite (calculateSkillGrowthTrend_recent e _ _ _ Hl). cbv zeta.
rewrite filter_all by exact Hall.
rewrite (len_nonempty _ Hc).
assert (E : fdiv (lenN commits) (lenN commits) = 1).
{ unfold fdiv. rewrite (rnd_comp _ (inject_Z 1)); [now apply rnd_Z|].
  change (inject_Z 1) with 1. field.
  pose proof (count_pos _ Hc) as Hp. change (Spec.count commits) with (lenN commits) in Hp.
  intros E. lra. }
rewrite E. vm_compute. reflexivity.
Qed.

Lemma calculateSkillGrowthTrend_all_recent_witness :
  calculateSkillGrowthTrend (utcEnv Sample.now) [Sample.go]
    [Sample.morning; Sample.evening; Sample.nextDay] None = 100.
Proof.
apply calculateSkillGrowthTrend_all_recent; [discriminate | discriminate |].
intros c [<-|[<-|[<-|[]]]]; reflexivity.
Defined.

(** On a host whose UTC offset does not change, a Date that is at or after
    the cutoff of a window is at or after the cutoff of a longer window, as
    long as the latter is a valid Date. *)
Lemma Date_ge_longer_window (e : Env) (offset window1 window2 d : Z) :
  (forall t b, LocalTZA e t b = offset) ->
  (window1 <= window2)%Z ->
  cutoffDate e window2 <> None ->
  Date_ge d (cutoffDate e window1) = true ->
  Date_ge d (cutoffDate e window2) = true.
Proof.
intros Hz Hw. rewrite !(cutoffDate_fixed_offset e _ offset Hz). unfold TimeClip.
destruct (Z.abs (clock e - window2 * 86400000) <=? maxTime)%Z;
  [intros _ | intros H; now contradiction H].
destruct (Z.abs (clock e - window1 * 86400000) <=? maxTime)%Z; simpl;
  [|discriminate].
intros H. apply Z.leb_le in H. apply Z.leb_le. lia.
Qed.

(** X13. On a host whose UTC offset does not change, a longer window never
    lowers the trend, as long as the cutoff of the longer window is a valid
    Date (it lies within 8.64e15 ms of the epoch). *)
Theorem calculateSkillGrowthTrend_longer_window (e : Env) (offset : Z)
  (currentLanguages : list LanguageProficiency.t) (commits : list Commit.t)
  (window1 window2 : Z) :
  (forall t b, LocalTZA e t b = offset) ->
  (window1 <= window2)%Z ->
  cutoffDate e window2 <> None ->
  calculateSkillGrowthTrend e currentLanguages commits (Some window1) <=
  calculateSkillGrowthTrend e currentLanguages commits (Some window2).
Proof.
intros Hz Hw Hvalid.
destruct currentLanguages as [|l ls]; [apply Qle_refl|].
destruct (calculateSkillGrowthTrend_integer e (l :: ls) commits (Some window2))
  as [k2 [E2 Hk2]].
assert (N2 : 0 <= calculateSkillGrowthTrend e (l :: ls) commits (Some window2)).
{ rewrite E2. change 0 with (inject_Z 0). rewrite <- Zle_Qle. lia. }
revert N2. rewrite !calculateSkillGrowthTrend_recent by discriminate.
cbv zeta. simpl default_arg.
set (recent1 :=
       filter (fun c => Date_ge (Commit.committedAt c) (cutoffDate e window1)) commits).
set (recent2 :=
       filter (fun c => Date_ge (Commit.committedAt c) (cutoffDate e window2)) commits).
assert (Hr : (len recent1 <= len recent2)%Z).
{ apply len_filter_impl. intros c Hc.
  now apply (Date_ge_longer_window e offset window1 window2). }
intros N2.
destruct (len recent1 =? 0)%Z eqn:E1; [exact N2|].
destruct (len recent2 =? 0)%Z eqn:E3.
- apply Z.eqb_eq in E3. apply Z.eqb_neq in E1. unfold len in *. lia.
- apply Math_min_mono, Math_round_mono, fmul_mono_l; [discriminate|].
  apply fdiv_mono_l; [apply lenN_nonneg | now apply lenN_le].
Qed.

(** One of two commits is at or after the clock; both are within the last
    90 days. *)
Lemma calculateSkillGrowthTrend_longer_window_witness :
  calculateSkillGrowthTrend (utcEnv Sample.now) [Sample.go]
    [Sample.morning; Sample.evening] (Some 0%Z) <=
  calculateSkillGrowthTrend (utcEnv Sample.now) [Sample.go]
    [Sample.morning; Sample.evening] (Some 90%Z).
Proof.
apply (calculateSkillGrowthTrend_longer_window (utcEnv Sample.now) 0).
- intros t b. reflexivity.
- vm_compute. discriminate.
- vm_compute. discriminate.
Defined.

End SkillGrowthTrend.

(* ================================================================== *)
(** * The weekday buckets and the peak day *)

Section WeekdayBuckets.
Import Binary64 JS Analytics.

Lemma getDay_range (e : Env) (t : Z) : 0 <= getDay e t < 7.
Proof. unfold getDay, WeekDay. apply Z.mod_pos_bound. lia. Qed.

Lemma obj_get_idx_set_same (k v : Z) (o : list (Z * Z)) :
  obj_get k (idx_set k v o) = Some v.
Proof.
induction o as [|[k' v'] o IH]; simpl.
- now rewrite Z.eqb_refl.
- destruct (k =? k') eqn:E; simpl; [now rewrite Z.eqb_refl|].
  destruct (k <? k'); simpl; [now rewrite Z.eqb_refl|].
  now rewrite E.
Qed.

Lemma obj_get_idx_set_other (k k0 v : Z) (o : list (Z * Z)) :
  k0 <> k -> obj_get k0 (idx_set k v o) = obj_get k0 o.
Proof.
intros Hne. apply Z.eqb_neq in Hne.
induction o as [|[k' v'] o IH]; simpl.
- now rewrite Hne.
- destruct (k =? k') eqn:E; simpl.
  + apply Z.eqb_eq in E. subst k'. now rewrite Hne.
  + destruct (k <? k'); simpl; [now rewrite Hne|].
    now rewrite IH.
Qed.

Lemma idx_set_keys (k v k0 : Z) (o : list (Z * Z)) :
  In k0 (map fst (idx_set k v o)) -> k0 = k \/ In k0 (map fst o).
Proof.
intros H. apply in_map_iff in H. destruct H as [kv [<- Hin]].
apply idx_set_In in Hin. destruct Hin as [->|Hin]; [now left|].
right. now apply in_map.
Qed.

(** Writing a weekday keeps the properties in ascending order. *)
Lemma idx_set_sorted (k v : Z) (o : list (Z * Z)) :
  StronglySorted Z.lt (map fst o) -> StronglySorted Z.lt (map fst (idx_set k v o)).
Proof.
induction o as [|[k' v'] o IH]; simpl; intros Hs.
- repeat constructor.
- inversion Hs as [|? ? Hs' Hall]; subst.
  destruct (k =? k') eqn:E.
  + apply Z.eqb_eq in E. subst k'. simpl. now constructor.
  + destruct (k <? k') eqn:L.
    * apply Z.ltb_lt in L. simpl. constructor; [exact Hs|].
      constructor; [exact L|].
      eapply Forall_impl; [|exact Hall]. simpl. intros a Ha. lia.
    * apply Z.ltb_ge in L. apply Z.eqb_neq in E. simpl.
      constructor; [now apply IH|].
      apply Forall_forall. intros a Ha.
      apply idx_set_keys in Ha. destruct Ha as [->|Ha]; [lia|].
      rewrite Forall_forall in Hall. now apply Hall.
Qed.

Lemma sorted_NoDup (ks : list Z) : StronglySorted Z.lt ks -> NoDup ks.
Proof.
induction 1 as [|k ks Hs IH Hall]; constructor; [|exact IH].
intros Hin. rewrite Forall_forall in Hall. specialize (Hall _ Hin). lia.
Qed.

Lemma obj_get_below (k : Z) (o : list (Z * Z)) :
  Forall (fun k' => k < k') (map fst o) -> obj_get k o = None.
Proof.
intros H. apply obj_get_None. intros Hin.
rewrite Forall_forall in H. specialize (H _ Hin). lia.
Qed.

Lemma commitsOnWeekday_app (e : Env) (cs : list Commit.t) (c : Commit.t) (w : Z) :
  Notions.commitsOnWeekday e (cs ++ [c]) w =
  Notions.commitsOnWeekday e cs w +
  (if getDay e (Commit.committedAt c) =? w then 1 else 0).
Proof.
unfold Notions.commitsOnWeekday. rewrite filter_app, length_app. simpl.
destruct (getDay e (Commit.committedAt c) =? w); simpl; lia.
Qed.

Lemma commitsOnWeekday_nonneg (e : Env) (cs : list Commit.t) (w : Z) :
  0 <= Notions.commitsOnWeekday e cs w.
Proof. unfold Notions.commitsOnWeekday. lia. Qed.

Lemma commitsOnWeekday_pos_iff (e : Env) (cs : list Commit.t) (w : Z) :
  Notions.commitsOnWeekday e cs w <> 0 <->
  exists c, In c cs /\ getDay e (Commit.committedAt c) = w.
Proof.
unfold Notions.commitsOnWeekday. induction cs as [|c cs IH]; simpl.
- split; [intros H; now contradiction H | intros [c [[] _]]].
- destruct (getDay e (Commit.committedAt c) =? w) eqn:E; simpl.
  + apply Z.eqb_eq in E. split; [intros _; exists c; auto | lia].
  + apply Z.eqb_neq in E. rewrite IH. split.
    * intros [c' [Hin H]]. exists c'. auto.
    * intros [c' [[<-|Hin] H]]; [contradiction | exists c'; auto].
Qed.

Lemma weekdayGroups_or0 (e : Env) (cs : list Commit.t) (o : list (Z * Z)) (w : Z) :
  weekdayGroups e cs o -> or0 (obj_get w o) = Notions.commitsOnWeekday e cs w.
Proof.
intros [_ H]. rewrite H. destruct (Notions.commitsOnWeekday e cs w =? 0) eqn:E; simpl.
- apply Z.eqb_eq in E. congruence.
- now rewrite E.
Qed.

Lemma weekdayGroups_step (e : Env) (cs : list Commit.t) (o : list (Z * Z))
  (c : Commit.t) :
  weekdayGroups e cs o ->
  weekdayGroups e (cs ++ [c])
    (idx_set (getDay e (Commit.committedAt c))
       (or0 (obj_get (getDay e (Commit.committedAt c)) o) + 1) o).
Proof.
intros G. pose proof G as [Hkeys Hget].
rewrite (weekdayGroups_or0 e cs o _ G).
split; [now apply idx_set_sorted|].
intros w. rewrite commitsOnWeekday_app.
pose proof (commitsOnWeekday_nonneg e cs w) as Hw.
destruct (getDay e (Commit.committedAt c) =? w) eqn:E.
- apply Z.eqb_eq in E. subst w. rewrite obj_get_idx_set_same.
  destruct (Notions.commitsOnWeekday e cs (getDay e (Commit.committedAt c)) + 1 =? 0)
    eqn:E1; [|reflexivity].
  apply Z.eqb_eq in E1. lia.
- apply Z.eqb_neq in E. rewrite obj_get_idx_set_other by congruence.
  rewrite Hget, Z.add_0_r. reflexivity.
Qed.

Lemma weekdayGroups_fold (e : Env) (rest done : list Commit.t) (o : list (Z * Z)) :
  weekdayGroups e done o ->
  weekdayGroups e (done ++ rest)
    (fold_left
       (fun o commit =>
          let dayOfWeek := getDay e (Commit.committedAt commit) in
          idx_set dayOfWeek (or0 (obj_get dayOfWeek o) + 1) o)
       rest o).
Proof.
revert done o. induction rest as [|c rest IH]; intros done o G; simpl.
- now rewrite app_nil_r.
- replace (done ++ c :: rest) with ((done ++ [c]) ++ rest)
    by (rewrite <- app_assoc; reflexivity).
  apply IH. now apply weekdayGroups_step.
Qed.

Lemma commitsByDayOfWeek_groups (e : Env) (cs : list Commit.t) :
  weekdayGroups e cs (commitsByDayOfWeek e cs).
Proof.
unfold commitsByDayOfWeek. apply (weekdayGroups_fold e cs [] []).
split; [constructor|]. intros w. reflexivity.
Qed.

(** What a bucket object holds, entry by entry. *)
Lemma weekdayGroups_entry (e : Env) (cs : list Commit.t) (o : list (Z * Z))
  (k v : Z) :
  weekdayGroups e cs o ->
  (In (k, v) o <-> v = Notions.commitsOnWeekday e cs k /\ v <> 0).
Proof.
intros [Hs Hget].
rewrite (obj_get_In k v o (sorted_NoDup _ Hs)), Hget.
destruct (Notions.commitsOnWeekday e cs k =? 0) eqn:E.
- apply Z.eqb_eq in E. split; [discriminate | intros [-> H]; contradiction].
- apply Z.eqb_neq in E. split.
  + intros H. inversion H. auto.
  + intros [-> _]. reflexivity.
Qed.

(** ** The buckets count every commit once *)

Lemma idx_set_sum (k : Z) (o : list (Z * Z)) :
  StronglySorted Z.lt (map fst o) ->
  Notions.sum (Object_values (idx_set k (or0 (obj_get k o) + 1) o)) =
  Notions.sum (Object_values o) + 1.
Proof.
rewrite or0_get. unfold Object_values, Notions.sum.
induction o as [|[k' v'] o IH]; intros Hs; [reflexivity|].
inversion Hs as [|? ? Hs' Hall]; subst.
cbn [obj_get idx_set].
destruct (k =? k') eqn:E; [simpl; lia|].
destruct (k <? k') eqn:L.
- apply Z.ltb_lt in L. rewrite obj_get_below.
  + cbn [map snd fold_right]. lia.
  + eapply Forall_impl; [|exact Hall]. simpl. intros a Ha. lia.
- cbn [map snd fold_right]. rewrite (IH Hs'). lia.
Qed.

Lemma weekday_fold_sum (e : Env) (cs : list Commit.t) (o : list (Z * Z)) :
  StronglySorted Z.lt (map fst o) ->
  Notions.sum
    (Object_values
       (fold_left
          (fun o commit =>
             let dayOfWeek := getDay e (Commit.committedAt commit) in
             idx_set dayOfWeek (or0 (obj_get dayOfWeek o) + 1) o)
          cs o)) =
  Notions.sum (Object_values o) + len cs.
Proof.
revert o. induction cs as [|c cs IH]; intros o Hs.
- simpl. unfold len. simpl. lia.
- simpl fold_left. rewrite IH by now apply idx_set_sorted.
  rewrite idx_set_sum by assumption. unfold len. simpl List.length. lia.
Qed.

(** X14. The loop that groups the commits by weekday leaves one bucket per
    weekday with a commit, listed in ascending order of the weekday; each
    key is a weekday 0..6, each bucket holds the number of commits of its
    weekday, which is at least 1, and the buckets together count every
    commit once. *)
Theorem commitsByDayOfWeek_partition (e : Env) (cs : list Commit.t) :
  StronglySorted Z.lt (map fst (commitsByDayOfWeek e cs)) /\
  (forall k v, In (k, v) (commitsByDayOfWeek e cs) ->
     0 <= k <= 6 /\ v = Notions.commitsOnWeekday e cs k /\ 1 <= v) /\
  Notions.sum (Object_values (commitsByDayOfWeek e cs)) = len cs.
Proof.
pose proof (commitsByDayOfWeek_groups e cs) as G.
split; [apply G|]. split.
- intros k v Hin. apply (weekdayGroups_entry e cs _ k v G) in Hin.
  destruct Hin as [Hv Hnz].
  pose proof (commitsOnWeekday_nonneg e cs k).
  split; [|split; [exact Hv | lia]].
  rewrite Hv in Hnz. apply commitsOnWeekday_pos_iff in Hnz.
  destruct Hnz as [c [_ <-]]. pose proof (getDay_range e (Commit.committedAt c)). lia.
- unfold commitsByDayOfWeek. rewrite weekday_fold_sum by constructor.
  reflexivity.
Qed.

(** ** The peak day *)

(** The search for the peak returns the first entry with the largest
    count, or its initial state when no count exceeds the initial one. *)
Lemma findPeak_fold (entries : list (Z * Z)) (p m : Z) :
  let r :=
    fold_left
      (fun st entry =>
         let '(peakDay, maxCommits) := st in
         let '(day, count) := entry in
         if maxCommits <? count then (day, count) else (peakDay, maxCommits))
      entries (p, m) in
  m <= snd r /\
  (forall k v, In (k, v) entries -> v <= snd r) /\
  (r = (p, m) \/
   exists l1 l2, entries = l1 ++ r :: l2 /\
                 (forall k v, In (k, v) l1 -> v < snd r) /\ m < snd r).
Proof.
revert p m. induction entries as [|[k v] rest IH]; intros p m; cbv zeta.
- simpl. split; [lia|]. split; [intros ? ? []|]. now left.
- cbn [fold_left]. destruct (m <? v) eqn:E.
  + apply Z.ltb_lt in E. specialize (IH k v). cbv zeta in IH.
    destruct IH as [H1 [H2 H3]].
    split; [lia|]. split.
    * intros k0 v0 [Heq|Hin]; [inversion Heq; subst; lia | now apply (H2 k0)].
    * right. destruct H3 as [H3|[l1 [l2 [Hl [Hlt Hm]]]]].
      -- exists [], rest. rewrite H3. simpl. split; [reflexivity|].
         split; [intros ? ? []|lia].
      -- exists ((k, v) :: l1), l2. split; [simpl; now rewrite <- Hl|].
         split; [|lia].
         intros k0 v0 [Heq|Hin]; [inversion Heq; subst; lia | now apply (Hlt k0)].
  + apply Z.ltb_ge in E. specialize (IH p m). cbv zeta in IH.
    destruct IH as [H1 [H2 H3]].
    split; [lia|]. split.
    * intros k0 v0 [Heq|Hin]; [inversion Heq; subst; lia | now apply (H2 k0)].
    * destruct H3 as [H3|[l1 [l2 [Hl [Hlt Hm]]]]]; [now left|].
      right. exists ((k, v) :: l1), l2. split; [simpl; now rewrite <- Hl|].
      split; [|lia].
      intros k0 v0 [Heq|Hin]; [inversion Heq; subst; lia | now apply (Hlt k0)].
Qed.

Lemma sorted_after (l1 l2 : list Z) (x : Z) :
  StronglySorted Z.lt (l1 ++ x :: l2) -> Forall (fun y => x < y) l2.
Proof.
induction l1 as [|a l1 IH]; simpl; intros H; inversion H; subst; auto.
Qed.

(** The peak is the first weekday with the largest number of commits. *)
Lemma findPeak_first_maximum (e : Env) (cs : list Commit.t) :
  cs <> [] ->
  let p := fst (findPeak (Object_entries (commitsByDayOfWeek e cs))) in
  0 <= p <= 6 /\
  1 <= Notions.commitsOnWeekday e cs p /\
  (forall w, Notions.commitsOnWeekday e cs w <= Notions.commitsOnWeekday e cs p) /\
  (forall w, w < p ->
     Notions.commitsOnWeekday e cs w < Notions.commitsOnWeekday e cs p).
Proof.
intros Hne. cbv zeta. unfold findPeak, Object_entries.
pose proof (commitsByDayOfWeek_groups e cs) as G.
set (o := commitsByDayOfWeek e cs) in *.
pose proof (findPeak_fold o 0 0) as F. cbv zeta in F.
set (r := fold_left _ o (0, 0)) in *.
destruct F as [F0 [Fmax Fpos]].
assert (Hentry : forall k v, In (k, v) o ->
                 v = Notions.commitsOnWeekday e cs k /\ 1 <= v).
{ intros k v Hin. apply (weekdayGroups_entry e cs o k v G) in Hin.
  destruct Hin as [Hv Hnz]. pose proof (commitsOnWeekday_nonneg e cs k). lia. }
assert (Hin_o : forall w, Notions.commitsOnWeekday e cs w <> 0 ->
                In (w, Notions.commitsOnWeekday e cs w) o).
{ intros w Hw. apply (weekdayGroups_entry e cs o w _ G). auto. }
destruct cs as [|c cs']; [contradiction|].
assert (Hc : Notions.commitsOnWeekday e (c :: cs') (getDay e (Commit.committedAt c)) <> 0).
{ apply commitsOnWeekday_pos_iff. exists c. split; [now left | reflexivity]. }
set (cs := c :: cs') in *.
destruct Fpos as [Fpos|[l1 [l2 [Hl [Hlt Hm]]]]].
- exfalso. pose proof (Hin_o _ Hc) as Hin.
  pose proof (Fmax _ _ Hin) as Hle. destruct (Hentry _ _ Hin) as [_ H1].
  rewrite Fpos in Hle. simpl in Hle. lia.
- destruct r as [p m]. simpl fst. simpl snd in *.
  assert (Hpm : In (p, m) o) by (rewrite Hl; apply in_elt).
  destruct (Hentry _ _ Hpm) as [Hv H1]. rewrite <- Hv.
  assert (Hp : Notions.commitsOnWeekday e cs p <> 0) by lia.
  apply commitsOnWeekday_pos_iff in Hp. destruct Hp as [c0 [_ Hc0]].
  pose proof (getDay_range e (Commit.committedAt c0)) as Hr. rewrite Hc0 in Hr.
  split; [lia|]. split; [exact H1|]. split.
  + intros w. destruct (Z.eq_dec (Notions.commitsOnWeekday e cs w) 0) as [E|N];
      [lia|]. now apply (Fmax w), Hin_o.
  + intros w Hw. destruct (Z.eq_dec (Notions.commitsOnWeekday e cs w) 0) as [E|N];
      [lia|].
    pose proof (Hin_o w N) as Hin. rewrite Hl in Hin.
    apply in_app_or in Hin. destruct Hin as [Hin|[Heq|Hin]].
    * now apply (Hlt w).
    * inversion Heq. lia.
    * exfalso. destruct G as [Hs _]. rewrite Hl, map_app in Hs. simpl in Hs.
      apply sorted_after in Hs. rewrite Forall_forall in Hs.
      assert (p < w) by (apply Hs; apply in_map_iff; now exists (w, Notions.commitsOnWeekday e cs w)).
      lia.
Qed.

(** X15. For a non-empty commit list the peak day is the name of the
    weekday with the most commits, in the local time of the host; among
    weekdays with equally many commits it is the first one, counting from
    Sunday. *)
Theorem analyzeCommitPatterns_peakDay (e : Env) (cs : list Commit.t) :
  cs <> [] ->
  exists p : Z,
    0 <= p <= 6 /\
    CommitPatterns.peakDay (analyzeCommitPatterns e cs) =
      nth (Z.to_nat p) dayNames ""%string /\
    (forall w, Notions.commitsOnWeekday e cs w <= Notions.commitsOnWeekday e cs p) /\
    (forall w, w < p ->
       Notions.commitsOnWeekday e cs w < Notions.commitsOnWeekday e cs p).
Proof.
intros Hne.
destruct (findPeak_first_maximum e cs Hne) as [Hp [_ [Hmax Hfirst]]].
exists (fst (findPeak (Object_entries (commitsByDayOfWeek e cs)))).
split; [exact Hp|]. split; [|split; assumption].
unfold analyzeCommitPatterns. now rewrite (len_nonempty cs Hne).
Qed.

(** Two commits on a Tuesday and one on a Wednesday. *)
Lemma analyzeCommitPatterns_peakDay_witness :
  exists p : Z,
    0 <= p <= 6 /\
    CommitPatterns.peakDay
      (analyzeCommitPatterns (utcEnv Sample.now)
         [Sample.nextDay; Sample.morning; Sample.evening]) =
      nth (Z.to_nat p) dayNames ""%string /\
    (forall w,
       Notions.commitsOnWeekday (utcEnv Sample.now)
         [Sample.nextDay; Sample.morning; Sample.evening] w <=
       Notions.commitsOnWeekday (utcEnv Sample.now)
         [Sample.nextDay; Sample.morning; Sample.evening] p) /\
    (forall w, w < p ->
       Notions.commitsOnWeekday (utcEnv Sample.now)
         [Sample.nextDay; Sample.morning; Sample.evening] w <
       Notions.commitsOnWeekday (utcEnv Sample.now)
         [Sample.nextDay; Sample.morning; Sample.evening] p).
Proof.
apply analyzeCommitPatterns_peakDay. discriminate.
Defined.

(** X16. The peak day is always one of the seven names of [dayNames]. *)
Theorem analyzeCommitPatterns_peakDay_named (e : Env) (cs : list Commit.t) :
  In (CommitPatterns.peakDay (analyzeCommitPatterns e cs)) dayNames.
Proof.
destruct cs as [|c cs'].
- simpl. right. now left.
- assert (Hne : c :: cs' <> []) by discriminate.
  destruct (findPeak_first_maximum e _ Hne) as [Hp _].
  unfold analyzeCommitPatterns. rewrite (len_nonempty _ Hne). cbv zeta.
  cbn [CommitPatterns.peakDay].
  apply nth_In. simpl List.length. lia.
Qed.

End WeekdayBuckets.

(* ================================================================== *)
(** * Further properties of the commit patterns *)

Section CommitPatternsMore.
Import Binary64 JS Analytics.

(** Two bucket objects with the same content are the same object: the
    weekdays are listed in ascending order. *)
Lemma sorted_get_unique (o1 o2 : list (Z * Z)) :
  StronglySorted Z.lt (map fst o1) -> StronglySorted Z.lt (map fst o2) ->
  (forall k, obj_get k o1 = obj_get k o2) -> o1 = o2.
Proof.
revert o2. induction o1 as [|[k1 v1] o1 IH]; intros o2 H1 H2 Hget.
- destruct o2 as [|[k2 v2] o2]; [reflexivity|].
  specialize (Hget k2). simpl in Hget. rewrite Z.eqb_refl in Hget. discriminate.
- destruct o2 as [|[k2 v2] o2].
  + specialize (Hget k1). simpl in Hget. rewrite Z.eqb_refl in Hget. discriminate.
  + simpl in H1, H2.
    inversion H1 as [|? ? H1' A1]; subst. inversion H2 as [|? ? H2' A2]; subst.
    assert (Hk : k1 = k2).
    { destruct (Z.lt_trichotomy k1 k2) as [L|[E|L]]; [|exact E|].
      - pose proof (Hget k1) as G. simpl in G. rewrite Z.eqb_refl in G.
        destruct (k1 =? k2) eqn:E; [apply Z.eqb_eq in E; lia|].
        rewrite obj_get_below in G; [discriminate|].
        eapply Forall_impl; [|exact A2]. simpl. intros a Ha. lia.
      - pose proof (Hget k2) as G. simpl in G. rewrite Z.eqb_refl in G.
        destruct (k2 =? k1) eqn:E; [apply Z.eqb_eq in E; lia|].
        rewrite obj_get_below in G; [discriminate|].
        eapply Forall_impl; [|exact A1]. simpl. intros a Ha. lia. }
    subst k2.
    pose proof (Hget k1) as G. simpl in G. rewrite Z.eqb_refl in G.
    inversion G; subst v2. f_equal.
    apply IH; [assumption | assumption|].
    intros k. destruct (Z.eq_dec k k1) as [->|N].
    * now rewrite !obj_get_below.
    * specialize (Hget k). simpl in Hget.
      apply Z.eqb_neq in N. now rewrite N in Hget.
Qed.

Lemma weekdayGroups_unique (e : Env) (cs : list Commit.t) (o1 o2 : list (Z * Z)) :
  weekdayGroups e cs o1 -> weekdayGroups e cs o2 -> o1 = o2.
Proof.
intros [S1 G1] [S2 G2]. apply sorted_get_unique; try assumption.
intros k. now rewrite G1, G2.
Qed.

Lemma commitsOnWeekday_Permutation (e : Env) (cs1 cs2 : list Commit.t) (w : Z) :
  Permutation cs1 cs2 ->
  Notions.commitsOnWeekday e cs1 w = Notions.commitsOnWeekday e cs2 w.
Proof.
intros P. unfold Notions.commitsOnWeekday. f_equal.
induction P as [|c l l' P IH|c c' l|l l' l'' P1 IH1 P2 IH2]; simpl.
- reflexivity.
- destruct (_ =? w); simpl; now rewrite IH.
- destruct (getDay e (Commit.committedAt c) =? w);
    destruct (getDay e (Commit.committedAt c') =? w); reflexivity.
- now rewrite IH1.
Qed.

Lemma commitsByDayOfWeek_Permutation (e : Env) (cs1 cs2 : list Commit.t) :
  Permutation cs1 cs2 -> commitsByDayOfWeek e cs1 = commitsByDayOfWeek e cs2.
Proof.
intros P. apply (weekdayGroups_unique e cs1).
- apply commitsByDayOfWeek_groups.
- destruct (commitsByDayOfWeek_groups e cs2) as [S2 G2]. split; [exact S2|].
  intros w. rewrite G2. now rewrite (commitsOnWeekday_Permutation e cs1 cs2 w P).
Qed.

(** X17. The commit patterns do not depend on the order of the commits:
    the weekday buckets are read in ascending order of the weekday,
    whatever the order in which they were created. *)
Theorem analyzeCommitPatterns_permutation (e : Env) (cs1 cs2 : list Commit.t) :
  Permutation cs1 cs2 ->
  analyzeCommitPatterns e cs1 = analyzeCommitPatterns e cs2.
Proof.
intros P. unfold analyzeCommitPatterns, lenN, len.
rewrite (commitsByDayOfWeek_Permutation e cs1 cs2 P).
now rewrite (Permutation_length P).
Qed.

Lemma analyzeCommitPatterns_permutation_witness :
  analyzeCommitPatterns (utcEnv Sample.now)
    [Sample.nextDay; Sample.morning; Sample.evening] =
  analyzeCommitPatterns (utcEnv Sample.now)
    [Sample.morning; Sample.evening; Sample.nextDay].
Proof.
apply analyzeCommitPatterns_permutation.
apply (Permutation_cons_app [Sample.morning; Sample.evening] []).
rewrite app_nil_r. apply Permutation_refl.
Defined.

(** ** All the commits on one weekday *)

Lemma commitsOnWeekday_single (e : Env) (cs : list Commit.t) (w w' : Z) :
  (forall c, In c cs -> getDay e (Commit.committedAt c) = w) ->
  Notions.commitsOnWeekday e cs w' = if w' =? w then len cs else 0.
Proof.
intros H. unfold Notions.commitsOnWeekday, len.
induction cs as [|c cs IH]; simpl.
- now destruct (w' =? w).
- rewrite (H c) by now left.
  assert (IH' := IH (fun c' Hc' => H c' (or_intror Hc'))).
  rewrite (Z.eqb_sym w w'). destruct (w' =? w); simpl List.length; lia.
Qed.

Lemma commitsByDayOfWeek_single (e : Env) (cs : list Commit.t) (w : Z) :
  cs <> [] ->
  (forall c, In c cs -> getDay e (Commit.committedAt c) = w) ->
  commitsByDayOfWeek e cs = [(w, len cs)].
Proof.
intros Hne H. apply (weekdayGroups_unique e cs).
- apply commitsByDayOfWeek_groups.
- split; [repeat constructor|].
  intros w'. rewrite (commitsOnWeekday_single e cs w w' H). simpl.
  pose proof (len_pos cs Hne).
  destruct (w' =? w); [|reflexivity].
  destruct (len cs =? 0) eqn:E; [apply Z.eqb_eq in E; lia | reflexivity].
Qed.

Local Open Scope Q_scope.

Lemma mean_singleton (n : Z) : (Z.abs n < 2 ^ 53)%Z -> Spec.mean [n] = ofZ n.
Proof.
intros Hn. unfold Spec.mean, Spec.total. cbn [map Spec.total_from].
change (Spec.count [n]) with (ofZ 1).
now rewrite fadd_0_Z, fdiv_Z_1.
Qed.

Lemma stdDev_singleton (n : Z) : (Z.abs n < 2 ^ 53)%Z -> Spec.stdDev [n] = 0.
Proof.
intros Hn. unfold Spec.stdDev, Spec.variance, Spec.total. cbn [map Spec.total_from].
rewrite (mean_singleton n Hn), fsub_diag. unfold Spec.square. rewrite fmul_0_l.
change (fadd 0 0) with 0. rewrite fdiv_0_l. reflexivity.
Qed.

(** The patterns in terms of the weekday buckets. *)
Lemma analyzeCommitPatterns_buckets (e : Env) (cs : list Commit.t) :
  cs <> [] ->
  analyzeCommitPatterns e cs =
  let byDay := commitsByDayOfWeek e cs in
  CommitPatterns.mk
    (parseFloat_toFixed2 (fdiv (lenN cs) 7))
    (nth (Z.to_nat (fst (findPeak byDay))) dayNames ""%string)
    (gtb (Spec.stdDev (Object_values byDay))
         (fmul (Spec.mean (Object_values byDay)) (lit (5 # 10))))
    (ltb (Spec.stdDev (Object_values byDay))
         (fmul (Spec.mean (Object_values byDay)) (lit (3 # 10)))).
Proof.
intros Hne. unfold analyzeCommitPatterns. rewrite (len_nonempty cs Hne). cbv zeta.
rewrite !reduce_plus_total.
unfold Spec.stdDev, Spec.variance, Spec.mean, Spec.square, Spec.count,
  Math_sqrt, Math_pow2, Object_entries, lenN, len.
reflexivity.
Qed.

(** X18. When all the commits fall on one weekday (in the local time of
    the host), the pattern is consistent and not bursty, and that weekday
    is the peak day.  (An array has fewer than 2^32 elements.) *)
Theorem analyzeCommitPatterns_single_weekday (e : Env) (cs : list Commit.t) (w : Z) :
  cs <> [] -> (len cs < 2 ^ 32)%Z ->
  (forall c, In c cs -> getDay e (Commit.committedAt c) = w) ->
  CommitPatterns.burstyPattern (analyzeCommitPatterns e cs) = false /\
  CommitPatterns.consistentPattern (analyzeCommitPatterns e cs) = true /\
  CommitPatterns.peakDay (analyzeCommitPatterns e cs) =
    nth (Z.to_nat w) dayNames ""%string.
Proof.
intros Hne Hlen Hall.
rewrite (analyzeCommitPatterns_buckets e cs Hne). cbv zeta.
rewrite (commitsByDayOfWeek_single e cs w Hne Hall).
pose proof (len_pos cs Hne) as Hn.
cbn [CommitPatterns.burstyPattern CommitPatterns.consistentPattern
     CommitPatterns.peakDay Object_values map snd].
rewrite stdDev_singleton, mean_singleton by lia.
assert (H3 : 0 < fmul (ofZ (len cs)) (lit (3 # 10))).
{ unfold fmul. apply rnd_pos.
  assert (0 < lit (3 # 10)) by (vm_compute; reflexivity).
  assert (1 <= ofZ (len cs)).
  { unfold ofZ. change 1 with (inject_Z 1). now rewrite <- Zle_Qle. }
  nra. }
assert (H5 : 0 <= fmul (ofZ (len cs)) (lit (5 # 10))).
{ apply fmul_nonneg; [|vm_compute; discriminate].
  unfold ofZ. change 0 with (inject_Z 0). rewrite <- Zle_Qle. lia. }
split; [|split].
- unfold gtb. apply Qle_bool_iff in H5. now rewrite H5.
- unfold ltb. destruct (Qle_bool (fmul (ofZ (len cs)) (lit (3 # 10))) 0) eqn:E;
    [|reflexivity].
  apply Qle_bool_iff in E. lra.
- unfold findPeak. cbn [fold_left].
  destruct (0 <? len cs)%Z eqn:E; [reflexivity|].
  apply Z.ltb_ge in E. lia.
Qed.

(** Two commits on one Tuesday. *)
Lemma analyzeCommitPatterns_single_weekday_witness :
  CommitPatterns.burstyPattern
    (analyzeCommitPatterns (utcEnv Sample.now) [Sample.morning; Sample.evening]) = false /\
  CommitPatterns.consistentPattern
    (analyzeCommitPatterns (utcEnv Sample.now) [Sample.morning; Sample.evening]) = true /\
  CommitPatterns.peakDay
    (analyzeCommitPatterns (utcEnv Sample.now) [Sample.morning; Sample.evening]) =
    "Tuesday"%string.
Proof.
apply (analyzeCommitPatterns_single_weekday (utcEnv Sample.now)
         [Sample.morning; Sample.evening] 2%Z).
- discriminate.
- reflexivity.
- intros c [<-|[<-|[]]]; reflexivity.
Defined.

(** X19. The average number of commits per day is the number of commits
    divided by 7, rounded to 2 decimal places, and never negative.  (An
    array has fewer than 2^32 elements.) *)
Theorem analyzeCommitPatterns_average (e : Env) (cs : list Commit.t) :
  (len cs < 2 ^ 32)%Z ->
  Spec.rounded_2dp (fdiv (Spec.count cs) 7)
    (CommitPatterns.averageCommitsPerDay (analyzeCommitPatterns e cs)) /\
  0 <= CommitPatterns.averageCommitsPerDay (analyzeCommitPatterns e cs).
Proof.
intros Hlen. destruct cs as [|c cs'].
- split; [|apply Qle_refl]. exists 0%Z. split; vm_compute; [reflexivity | discriminate].
- set (cs := c :: cs') in *.
  assert (Hne : cs <> []) by discriminate.
  rewrite (analyzeCommitPatterns_buckets e cs Hne). cbv zeta.
  cbn [CommitPatterns.averageCommitsPerDay].
  change (lenN cs) with (Spec.count cs).
  assert (H0 : 0 <= fdiv (Spec.count cs) 7).
  { apply fdiv_nonneg; [apply count_nonneg | discriminate]. }
  assert (H1 : fdiv (Spec.count cs) 7 < inject_Z (10 ^ 21)).
  { apply Qle_lt_trans with (inject_Z (2 ^ 32)); [|reflexivity].
    unfold fdiv. apply rnd_le_Z; [reflexivity|].
    pose proof (count_nonneg cs) as C0.
    assert (C1 : Spec.count cs <= inject_Z (2 ^ 32)).
    { unfold Spec.count, ofZ. rewrite <- Zle_Qle. unfold len in Hlen. lia. }
    apply Qle_shift_div_r; [reflexivity|]. lra. }
  split.
  + now apply parseFloat_toFixed2_rounded.
  + now apply parseFloat_toFixed2_sign.
Qed.

Lemma analyzeCommitPatterns_average_witness :
  Spec.rounded_2dp (fdiv 2 7)
    (CommitPatterns.averageCommitsPerDay
       (analyzeCommitPatterns (utcEnv Sample.now) [Sample.morning; Sample.evening])) /\
  0 <= CommitPatterns.averageCommitsPerDay
         (analyzeCommitPatterns (utcEnv Sample.now) [Sample.morning; Sample.evening]).
Proof.
apply (analyzeCommitPatterns_average (utcEnv Sample.now)
         [Sample.morning; Sample.evening]).
reflexivity.
Defined.

End CommitPatternsMore.

(* ================================================================== *)
(** * Further properties of the language rankings *)

Section GrowthLanguagesMore.
Import JS Analytics.

Local Abbreviation cc := LanguageProficiency.commitCount.

Lemma sort_length {A : Type} (cmp : A -> A -> Z) (l : list A) :
  List.length (sort cmp l) = List.length l.
Proof. symmetry. apply Permutation_length, sort_Permutation. Qed.

(** X20. [identifyGrowthLanguages] returns [min(topN, n)] entries of an
    array of [n] when [topN] is not negative (3 by default), and all but the
    last [-topN] entries when [topN] is negative. *)
Theorem identifyGrowthLanguages_length
  (languages : list LanguageProficiency.t) (topN : option Z) :
  len (snd (identifyGrowthLanguages languages topN)) =
  let n := default_arg 3 topN in
  if n <? 0 then Z.max 0 (len languages + n) else Z.min n (len languages).
Proof.
unfold identifyGrowthLanguages, len, slice0. cbv zeta. simpl snd.
rewrite length_map.
destruct (default_arg 3 topN <? 0) eqn:E;
  rewrite length_firstn, sort_length; lia.
Qed.

Lemma sorted_app_inv {A : Type} (R : A -> A -> Prop) (l1 l2 : list A) :
  StronglySorted R (l1 ++ l2) ->
  StronglySorted R l1 /\ forall a b, In a l1 -> In b l2 -> R a b.
Proof.
induction l1 as [|x l1 IH]; simpl; intros H.
- split; [constructor | intros a b []].
- inversion H as [|? ? Hs Hall]; subst. destruct (IH Hs) as [H1 H2].
  rewrite Forall_forall in Hall. split.
  + constructor; [exact H1|]. apply Forall_forall. intros a Ha.
    apply Hall. apply in_or_app. now left.
  + intros a b [<-|Ha] Hb; [|now apply H2].
    apply Hall. apply in_or_app. now right.
Qed.

Lemma slice0_split {A : Type} (n : Z) (a : list A) :
  exists rest, a = slice0 n a ++ rest.
Proof.
unfold slice0. destruct (n <? 0).
- exists (skipn (Z.to_nat (Z.of_nat (List.length a) + n)) a).
  symmetry. apply firstn_skipn.
- exists (skipn (Z.to_nat n) a). symmetry. apply firstn_skipn.
Qed.

(** X21. The entries [identifyGrowthLanguages] returns are entries of the
    input, in descending order of commit count, and no entry it leaves out
    has more commits than one it returns. *)
Theorem identifyGrowthLanguages_top
  (languages : list LanguageProficiency.t) (topN : option Z) :
  exists taken rest : list LanguageProficiency.t,
    Permutation languages (taken ++ rest) /\
    snd (identifyGrowthLanguages languages topN) = map growthOf taken /\
    StronglySorted Notions.descending taken /\
    forall a b, In a taken -> In b rest -> cc b <= cc a.
Proof.
unfold identifyGrowthLanguages. cbv zeta. simpl snd.
set (s := sort byCommitCountDesc languages).
destruct (slice0_split (default_arg 3 topN) s) as [rest Hs].
exists (slice0 (default_arg 3 topN) s), rest.
pose proof (sort_sorted languages) as Hsorted. fold s in Hsorted.
rewrite Hs in Hsorted. apply sorted_app_inv in Hsorted.
destruct Hsorted as [H1 H2].
split; [rewrite <- Hs; apply sort_Permutation|].
split; [reflexivity|]. split; [exact H1|].
intros a b Ha Hb. exact (H2 a b Ha Hb).
Qed.

Lemma sort_of_sorted (l : list LanguageProficiency.t) :
  StronglySorted Notions.descending l -> sort byCommitCountDesc l = l.
Proof.
intros H. apply stable_sort_unique.
- apply sort_sorted.
- exact H.
- intros k. apply sort_stable.
Qed.

(** X22. An array that is in descending order of commit count already is
    left as it is. *)
Theorem identifyGrowthLanguages_keeps_sorted_input
  (languages : list LanguageProficiency.t) (topN : option Z) :
  StronglySorted Notions.descending languages ->
  fst (identifyGrowthLanguages languages topN) = languages.
Proof.
intros H. unfold identifyGrowthLanguages. cbv zeta. simpl fst.
now apply sort_of_sorted.
Qed.

Lemma identifyGrowthLanguages_keeps_sorted_input_witness :
  fst (identifyGrowthLanguages
         [Sample.typescript; Sample.python; Sample.kotlin; Sample.javascript] None) =
  [Sample.typescript; Sample.python; Sample.kotlin; Sample.javascript].
Proof.
apply identifyGrowthLanguages_keeps_sorted_input.
repeat constructor; vm_compute; discriminate.
Defined.

(** X23. A second call on the array a first call has sorted leaves the
    array as the first call left it, and returns what a call on the
    original array returns. *)
Theorem identifyGrowthLanguages_twice
  (languages : list LanguageProficiency.t) (topN topN' : option Z) :
  let after := fst (identifyGrowthLanguages languages topN) in
  fst (identifyGrowthLanguages after topN') = after /\
  snd (identifyGrowthLanguages after topN') =
  snd (identifyGrowthLanguages languages topN').
Proof.
cbv zeta. unfold identifyGrowthLanguages. cbv zeta. simpl fst. simpl snd.
rewrite (sort_of_sorted (sort byCommitCountDesc languages)) by apply sort_sorted.
split; reflexivity.
Qed.

End GrowthLanguagesMore.

Section NewLanguagesMore.
Import JS Analytics.

Lemma firstSeenSince_length_le (lo lo' : Z) (languages : list LanguageProficiency.t) :
  lo' <= lo ->
  len (Spec.firstSeenSince lo languages) <= len (Spec.firstSeenSince lo' languages).
Proof.
intros H. unfold len. induction languages as [|lang rest IH]; simpl; [lia|].
destruct (lo <=? LanguageProficiency.firstSeenAt lang) eqn:E1;
  destruct (lo' <=? LanguageProficiency.firstSeenAt lang) eqn:E2;
  simpl List.length; lia.
Qed.

(** X24. On a host whose UTC offset does not change, a longer window
    returns every language a shorter window returns, and at least as many,
    as long as the cutoff of the longer window is a valid Date (it lies
    within 8.64e15 ms of the epoch). *)
Theorem identifyNewLanguages_longer_window (e : Env) (offset : Z)
  (languages : list LanguageProficiency.t) (window1 window2 : Z) :
  (forall t b, LocalTZA e t b = offset) ->
  window1 <= window2 ->
  cutoffDate e window2 <> None ->
  incl (identifyNewLanguages e languages (Some window1))
       (identifyNewLanguages e languages (Some window2)) /\
  len (identifyNewLanguages e languages (Some window1)) <=
  len (identifyNewLanguages e languages (Some window2)).
Proof.
intros Hz Hw Hvalid.
destruct (cutoffDate e window2) as [t2|] eqn:E2; [|now contradiction Hvalid].
rewrite (identifyNewLanguages_firstSeenSince e languages (Some window2) t2 E2).
destruct (cutoffDate e window1) as [t1|] eqn:E1.
- rewrite (identifyNewLanguages_firstSeenSince e languages (Some window1) t1 E1).
  rewrite (cutoffDate_fixed_offset e window1 offset Hz) in E1.
  rewrite (cutoffDate_fixed_offset e window2 offset Hz) in E2.
  apply TimeClip_Some in E1. apply TimeClip_Some in E2.
  split.
  + intros name Hin. apply firstSeenSince_In in Hin. apply firstSeenSince_In.
    destruct Hin as [lang [Hl [Hn Hlo]]]. exists lang.
    split; [exact Hl|]. split; [exact Hn | lia].
  + apply firstSeenSince_length_le. lia.
- rewrite (identifyNewLanguages_invalid_cutoff e languages (Some window1) E1).
  split; [apply incl_nil_l | unfold len; simpl; lia].
Qed.

Lemma identifyNewLanguages_longer_window_witness :
  incl (identifyNewLanguages (utcEnv Sample.now)
          [Sample.go; Sample.typescript] (Some 7))
       (identifyNewLanguages (utcEnv Sample.now)
          [Sample.go; Sample.typescript] (Some 90)) /\
  len (identifyNewLanguages (utcEnv Sample.now)
         [Sample.go; Sample.typescript] (Some 7)) <=
  len (identifyNewLanguages (utcEnv Sample.now)
         [Sample.go; Sample.typescript] (Some 90)).
Proof.
apply (identifyNewLanguages_longer_window (utcEnv Sample.now) 0).
- intros t b. reflexivity.
- vm_compute. discriminate.
- vm_compute. discriminate.
Defined.

End NewLanguagesMore.

(* ================================================================== *)
(** * Commits within one day *)

Section VelocityWithinADay.
Import Binary64 JS Analytics.
Local Open Scope Q_scope.

Lemma daysBetween_upper (lo hi : Z) :
  (hi - lo <= 86400000)%Z -> Spec.daysBetween lo hi <= 1.
Proof.
intros H. unfold Spec.daysBetween, fdiv, fsub, ofZ.
apply (rnd_le_Z _ 1); [reflexivity|].
assert (H1 : rnd (inject_Z hi - inject_Z lo) <= inject_Z 86400000).
{ apply rnd_le_Z; [reflexivity|].
  unfold Qminus. rewrite <- inject_Z_opp, <- inject_Z_plus, <- Zle_Qle. lia. }
apply Qle_shift_div_r; [reflexivity|].
change (inject_Z 1) with 1. change (inject_Z 86400000) with 86400000 in H1. lra.
Qed.

(** Writing a number that is at least the integer [n] with two decimals
    does not take it below [n]. *)
Lemma parseFloat_toFixed2_ge_Z (x : Q) (n : Z) :
  (0 <= n < 2 ^ 53)%Z -> inject_Z n <= x -> x < inject_Z (10 ^ 21) ->
  inject_Z n <= parseFloat_toFixed2 x.
Proof.
intros Hn Hx Hbig.
assert (H0 : 0 <= x).
{ apply Qle_trans with (inject_Z n); [|exact Hx].
  change 0 with (inject_Z 0). rewrite <- Zle_Qle. lia. }
rewrite parseFloat_toFixed2_nonneg by assumption.
apply rnd_ge_Z; [lia|].
assert (Hk : (100 * n <= Qfloor (x * 100 + (1 # 2)))%Z).
{ rewrite <- (Qfloor_Z (100 * n)). apply Qfloor_resp_le.
  rewrite inject_Z_mult. change (inject_Z 100) with 100. lra. }
rewrite Zle_Qle, inject_Z_mult in Hk. change (inject_Z 100) with 100 in Hk.
apply Qle_shift_div_l; [reflexivity | lra].
Qed.

(** X25. When all the commits lie within 24 hours, the learning velocity
    is at least the number of commits.  (An array has fewer than 2^32
    elements.) *)
Theorem calculateLearningVelocity_within_a_day (cs : list Commit.t) (lo hi : Z) :
  cs <> [] -> (len cs < 2 ^ 32)%Z ->
  Spec.earliest (map Commit.committedAt cs) lo ->
  Spec.latest (map Commit.committedAt cs) hi ->
  (hi - lo <= 86400000)%Z ->
  Spec.count cs <= calculateLearningVelocity cs.
Proof.
intros Hne Hlen Hlo Hhi Hday.
rewrite (calculateLearningVelocity_span cs lo hi Hne Hlo Hhi).
pose proof (earliest_le_latest _ _ _ Hlo Hhi) as Hle.
destruct (Z.eq_dec lo hi) as [<-|N].
- rewrite daysBetween_same. apply Qle_refl.
- assert (Hlt : (lo < hi)%Z) by lia.
  rewrite (daysBetween_nonzero _ _ Hlt).
  destruct (velocity_quotient_range cs lo hi Hlen Hlt) as [H0 Hbig].
  pose proof (daysBetween_lower lo hi Hlt) as Hd0.
  pose proof (daysBetween_upper lo hi Hday) as Hd1.
  assert (Hdelta : 0 < rnd (1 / 86400000)) by (vm_compute; reflexivity).
  pose proof (count_nonneg cs) as Hc.
  unfold Spec.count, ofZ in *. unfold len in Hlen.
  apply parseFloat_toFixed2_ge_Z; [lia | | exact Hbig].
  unfold fdiv. apply rnd_ge_Z; [lia|].
  set (d := Spec.daysBetween lo hi) in *.
  set (n := inject_Z (Z.of_nat (List.length cs))) in *.
  apply Qle_shift_div_l; [lra | nra].
Qed.

(** Two commits 80000 seconds apart. *)
Lemma calculateLearningVelocity_within_a_day_witness :
  2 <= calculateLearningVelocity [Sample.morning; Sample.evening].
Proof.
apply (calculateLearningVelocity_within_a_day [Sample.morning; Sample.evening]
         (Sample.now - 80000000)%Z Sample.now).
- discriminate.
- reflexivity.
- split; [now left | intros t [<-|[<-|[]]]; vm_compute; discriminate].
- split; [right; now left | intros t [<-|[<-|[]]]; vm_compute; discriminate].
- vm_compute. discriminate.
Defined.

End VelocityWithinADay.

(* ================================================================== *)
(** * Repository sizes *)

Section RepositorySizes.
Import Binary64 JS Analytics.
Local Open Scope Q_scope.

Lemma total_from_mono (xs ys : list number) (acc acc' : number) :
  Forall2 Qle xs ys -> acc <= acc' ->
  Spec.total_from acc xs <= Spec.total_from acc' ys.
Proof.
intros H. revert acc acc'. induction H as [|x y xs ys Hxy _ IH]; intros acc acc' Hacc.
- exact Hacc.
- cbn [Spec.total_from]. apply IH. unfold fadd. apply rnd_mono. lra.
Qed.

Lemma fadd_mono_l (x y b : number) : x <= y -> fadd x b <= fadd y b.
Proof. intros H. unfold fadd. apply rnd_mono. lra. Qed.

Lemma lit_4_nonneg : 0 <= lit (4 # 10).
Proof. vm_compute. discriminate. Qed.

(** X26. Larger repositories never lower the project depth: when each
    repository is replaced by one that is at least as large, the depth of
    the same commits does not decrease. *)
Theorem calculateProjectDepth_larger_repositories
  (repositories1 repositories2 : list Repository.t) (commits : list Commit.t) :
  Forall2 (fun r1 r2 => (Repository.size r1 <= Repository.size r2)%Z)
    repositories1 repositories2 ->
  calculateProjectDepth repositories1 commits <=
  calculateProjectDepth repositories2 commits.
Proof.
intros H. pose proof (Forall2_length H) as Hlen.
unfold calculateProjectDepth, lenN, len. rewrite <- Hlen.
destruct (Z.of_nat (List.length repositories1) =? 0)%Z; [apply Qle_refl|].
cbv zeta. rewrite !reduce_plus_total.
apply Math_round_mono, fadd_mono_l, fmul_mono_l; [apply lit_4_nonneg|].
apply Math_min_mono, fmul_mono_l; [discriminate|].
apply fdiv_mono_l; [discriminate|].
apply fdiv_mono_l.
- unfold ofZ. change 0 with (inject_Z 0). rewrite <- Zle_Qle. lia.
- apply total_from_mono; [|apply Qle_refl].
  induction H as [|r1 r2 l1 l2 Hr _ IH]; simpl; constructor.
  + unfold ofZ. now rewrite <- Zle_Qle.
  + apply IH. now inversion Hlen.
Qed.

Lemma calculateProjectDepth_larger_repositories_witness :
  calculateProjectDepth [Sample.repo 1 500] [Sample.morning] <=
  calculateProjectDepth [Sample.repo 2 1500] [Sample.morning].
Proof.
apply calculateProjectDepth_larger_repositories.
constructor; [vm_compute; discriminate | constructor].
Defined.

(** A sum of non-negative integers below 2^53 is exact. *)
Lemma total_from_exact (xs : list Z) (a : Z) :
  (0 <= a)%Z -> Forall (fun x => (0 <= x)%Z) xs ->
  (a + Notions.sum xs < 2 ^ 53)%Z ->
  Spec.total_from (ofZ a) (map ofZ xs) = ofZ (a + Notions.sum xs).
Proof.
intros Ha H. revert a Ha. induction H as [|x xs Hx Hall IH]; intros a Ha Hb.
- simpl. now rewrite Z.add_0_r.
- cbn [map Spec.total_from]. unfold Notions.sum in *. cbn [fold_right] in *.
  assert (Hs : (0 <= fold_right Z.add 0 xs)%Z).
  { clear - Hall. induction Hall; simpl; lia. }
  rewrite fadd_Z by lia. rewrite IH by lia. f_equal. lia.
Qed.

Lemma sum_Permutation (xs ys : list Z) :
  Permutation xs ys -> Notions.sum xs = Notions.sum ys.
Proof.
unfold Notions.sum. induction 1; simpl; lia.
Qed.

(** X27. As long as the repository sizes add up to less than 2^53, the
    project depth does not depend on the order of the repositories. *)
Theorem calculateProjectDepth_permutation
  (repositories1 repositories2 : list Repository.t) (commits : list Commit.t) :
  Permutation repositories1 repositories2 ->
  (forall r, In r repositories1 -> (0 <= Repository.size r)%Z) ->
  (Notions.sum (map Repository.size repositories1) < 2 ^ 53)%Z ->
  calculateProjectDepth repositories1 commits =
  calculateProjectDepth repositories2 commits.
Proof.
intros P Hsz Hsum.
assert (Hsz2 : forall r, In r repositories2 -> (0 <= Repository.size r)%Z).
{ intros r Hr. apply Hsz. now apply (Permutation_in _ (Permutation_sym P)). }
pose proof (sum_Permutation _ _ (Permutation_map Repository.size P)) as Es.
assert (T : forall rs, (forall r, In r rs -> (0 <= Repository.size r)%Z) ->
            (Notions.sum (map Repository.size rs) < 2 ^ 53)%Z ->
            reduce_plus (fun repo => ofZ (Repository.size repo)) rs =
            ofZ (Notions.sum (map Repository.size rs))).
{ intros rs Hrs Hb. rewrite reduce_plus_total. unfold Spec.total.
  rewrite <- (map_map Repository.size ofZ).
  change 0 with (ofZ 0). rewrite total_from_exact; [reflexivity | lia | | lia].
  apply Forall_forall. intros x Hx. apply in_map_iff in Hx.
  destruct Hx as [r [<- Hr]]. now apply Hrs. }
unfold calculateProjectDepth, lenN, len.
rewrite (T _ Hsz Hsum), (T _ Hsz2) by (rewrite <- Es; exact Hsum).
now rewrite <- Es, (Permutation_length P).
Qed.

Lemma calculateProjectDepth_permutation_witness :
  calculateProjectDepth [Sample.repo 1 500; Sample.repo 2 1500] [Sample.morning] =
  calculateProjectDepth [Sample.repo 2 1500; Sample.repo 1 500] [Sample.morning].
Proof.
apply calculateProjectDepth_permutation.
- apply perm_swap.
- intros r [<-|[<-|[]]]; vm_compute; discriminate.
- reflexivity.
Defined.

(** X28. More languages never raise the depth-to-breadth ratio of the
    same repositories and commits.  (An array has fewer than 2^32
    elements.) *)
Theorem calculateDepthBreadthRatio_more_languages
  (repositories : list Repository.t) (commits : list Commit.t)
  (languages1 languages2 : list LanguageProficiency.t) :
  languages1 <> [] -> (len languages1 <= len languages2)%Z ->
  (len commits < 2 ^ 32)%Z ->
  calculateDepthBreadthRatio repositories commits languages2 <=
  calculateDepthBreadthRatio repositories commits languages1.
Proof.
intros Hl1 Hle Hlen.
assert (Hl2 : languages2 <> []).
{ intros ->. pose proof (len_pos _ Hl1). unfold len in *. simpl in Hle. lia. }
unfold calculateDepthBreadthRatio.
destruct (len repositories =? 0)%Z eqn:Er; [apply Qle_refl|].
rewrite (len_nonempty _ Hl1), (len_nonempty _ Hl2). simpl orb. cbv iota zeta.
assert (Hr : repositories <> []).
{ intros ->. discriminate. }
destruct (depth_quotient_range repositories commits languages2 Hr Hl2 Hlen) as [A0 _].
destruct (depth_quotient_range repositories commits languages1 Hr Hl1 Hlen) as [_ B1].
apply parseFloat_toFixed2_mono; [exact A0 | | exact B1].
unfold fdiv at 1 3. apply rnd_mono.
assert (D0 : 0 <= fdiv (lenN commits) (lenN repositories)).
{ apply fdiv_nonneg; apply lenN_nonneg. }
pose proof (count_pos _ Hl1) as P1. change (Spec.count languages1) with (lenN languages1) in P1.
pose proof (lenN_le _ _ Hle) as P2.
set (x := fdiv (lenN commits) (lenN repositories)) in *.
set (a := lenN languages1) in *. set (b := lenN languages2) in *.
apply Qle_shift_div_l; [lra|].
setoid_replace (x / b * a) with (x * a / b) by (field; lra).
apply Qle_shift_div_r; [lra | nra].
Qed.

Lemma calculateDepthBreadthRatio_more_languages_witness :
  calculateDepthBreadthRatio [Sample.repo 1 500] [Sample.morning; Sample.evening]
    [Sample.go; Sample.rust] <=
  calculateDepthBreadthRatio [Sample.repo 1 500] [Sample.morning; Sample.evening]
    [Sample.go].
Proof.
apply calculateDepthBreadthRatio_more_languages;
  [discriminate | vm_compute; discriminate | reflexivity].
Defined.

End RepositorySizes.

(* ================================================================== *)
(** * The metrics together *)

Section Metrics.
Import Binary64 JS Analytics.
Local Open Scope Q_scope.

Lemma calculateConsistencyScore_integer (cs : list Commit.t) :
  exists k : Z, calculateConsistencyScore cs = inject_Z k /\ (0 <= k <= 100)%Z.
Proof.
destruct cs as [|c cs']; [exists 0%Z; split; [reflexivity | lia]|].
rewrite calculateConsistencyScore_refines by discriminate.
destruct (clamp_range (fsub 100 (fmul (Spec.cv (Spec.dayCounts (c :: cs'))) 50)) 0 100)
  as [Hlo Hhi]; [discriminate|].
apply Math_round_range; assumption.
Qed.

Lemma calculateProjectDepth_integer
  (repositories : list Repository.t) (commits : list Commit.t) :
  (forall r, In r repositories -> (0 <= Repository.size r)%Z) ->
  exists k : Z,
    calculateProjectDepth repositories commits = inject_Z k /\ (0 <= k <= 100)%Z.
Proof.
intros Hsz. destruct repositories as [|r rs]; [exists 0%Z; split; [reflexivity | lia]|].
set (l := r :: rs) in *.
rewrite (calculateProjectDepth_refines l commits) by discriminate.
destruct (sizeScore_range l Hsz) as [S0 S1].
destruct (densityScore_range l commits) as [D0 D1].
destruct (weighted_range _ _ S0 S1 D0 D1) as [W0 W1].
apply Math_round_range; assumption.
Qed.

(** X29. The three scores [calculateMetrics] reports (consistency, skill
    growth trend, project depth) are integers between 0 and 100 whenever no
    repository has a negative size, and its three totals are the lengths
    of its inputs. *)
Theorem calculateMetrics_scores (e : Env)
  (repositories : list Repository.t) (commits : list Commit.t)
  (languages : list LanguageProficiency.t) :
  (forall r, In r repositories -> (0 <= Repository.size r)%Z) ->
  let m := calculateMetrics e repositories commits languages in
  (exists k : Z, AnalyticsMetrics.consistencyScore m = inject_Z k /\ (0 <= k <= 100)%Z) /\
  (exists k : Z, AnalyticsMetrics.skillGrowthTrend m = inject_Z k /\ (0 <= k <= 100)%Z) /\
  (exists k : Z, AnalyticsMetrics.projectDepth m = inject_Z k /\ (0 <= k <= 100)%Z) /\
  AnalyticsMetrics.totalCommits m = len commits /\
  AnalyticsMetrics.totalRepositories m = len repositories /\
  AnalyticsMetrics.uniqueLanguages m = len languages.
Proof.
intros Hsz m. unfold m, calculateMetrics.
cbn [AnalyticsMetrics.consistencyScore AnalyticsMetrics.skillGrowthTrend
     AnalyticsMetrics.projectDepth AnalyticsMetrics.totalCommits
     AnalyticsMetrics.totalRepositories AnalyticsMetrics.uniqueLanguages].
split; [apply calculateConsistencyScore_integer|].
split; [apply calculateSkillGrowthTrend_integer|].
split; [now apply calculateProjectDepth_integer|].
repeat split.
Qed.

Local Abbreviation sampleMetrics :=
  (calculateMetrics (utcEnv Sample.now)
     [Sample.repo 1 500; Sample.repo 2 1500]
     [Sample.morning; Sample.evening; Sample.nextDay]
     [Sample.go; Sample.typescript]).

Lemma calculateMetrics_scores_witness :
  (exists k : Z,
     AnalyticsMetrics.consistencyScore sampleMetrics = inject_Z k /\ (0 <= k <= 100)%Z) /\
  (exists k : Z,
     AnalyticsMetrics.skillGrowthTrend sampleMetrics = inject_Z k /\ (0 <= k <= 100)%Z) /\
  (exists k : Z,
     AnalyticsMetrics.projectDepth sampleMetrics = inject_Z k /\ (0 <= k <= 100)%Z) /\
  AnalyticsMetrics.totalCommits sampleMetrics = 3%Z /\
  AnalyticsMetrics.totalRepositories sampleMetrics = 2%Z /\
  AnalyticsMetrics.uniqueLanguages sampleMetrics = 2%Z.
Proof.
apply (calculateMetrics_scores (utcEnv Sample.now)
         [Sample.repo 1 500; Sample.repo 2 1500]
         [Sample.morning; Sample.evening; Sample.nextDay]
         [Sample.go; Sample.typescript]).
intros r [<-|[<-|[]]]; vm_compute; discriminate.
Defined.

(** X30. Without commits [calculateMetrics] reports 0 for the consistency
    score, the skill growth trend, the learning velocity and the
    depth-to-breadth ratio, on every host and whatever the repositories and
    the languages. *)
Theorem calculateMetrics_without_commits (e : Env)
  (repositories : list Repository.t) (languages : list LanguageProficiency.t) :
  let m := calculateMetrics e repositories [] languages in
  AnalyticsMetrics.consistencyScore m = 0 /\
  AnalyticsMetrics.skillGrowthTrend m = 0 /\
  AnalyticsMetrics.learningVelocity m = 0 /\
  AnalyticsMetrics.depthBreadthRatio m = 0 /\
  AnalyticsMetrics.totalCommits m = 0%Z.
Proof.
cbv zeta. unfold calculateMetrics.
cbn [AnalyticsMetrics.consistencyScore AnalyticsMetrics.skillGrowthTrend
     AnalyticsMetrics.learningVelocity AnalyticsMetrics.depthBreadthRatio
     AnalyticsMetrics.totalCommits].
split; [reflexivity|]. split.
- unfold calculateSkillGrowthTrend. cbv zeta.
  destruct (len languages =? 0)%Z; reflexivity.
- split; [reflexivity|]. split; [apply calculateDepthBreadthRatio_no_commits | reflexivity].
Qed.

End Metrics.
